(** * OfflineStore.js: the offline edit queue and its replay

    A shallow embedding of [lib/edit/OfflineStore.js] (offline-editor-js):
    the pending-edit queue kept in [localStorage] under one key as a
    ["|||"]-delimited string, the serializer and deserializer of queued
    graphics, the admission check of [_applyEdits], the replay that
    [_reestablishedInternet] performs when connectivity returns, the
    index of completed edits with its lookups, the removals from the
    queue, and the initialisation that reads the feature layers of the
    map.

    Conventions of the model.
    - A JavaScript string is a [string]: its code units are those below
      256, so that [length] counts characters and an escape [\uXXXX]
      above [\u00FF] is outside the model.
    - A JavaScript value that travels through [JSON.stringify] and
      [JSON.parse] is a [json]; [undefined] is [None] of [option json].
    - A Number is [NaN], an infinity, or a finite number given by the
      decimal numeral that Number::toString prints for it (its shortest
      representation); every finite double is such a number.  Numerals
      are read exactly: a numeral of more than 17 significant digits, or
      beyond the range of the doubles, is read without the rounding that
      JavaScript applies to it.
    - Megabyte figures ([getlocalStorageUsed], [apprxGraphicSize]) are exact
      rationals.
    - The collaborators whose code is not part of this file of the
      repository are interfaces: the storage substrate's acceptance of a
      write, Hydrate's [stringify], and [OfflineUtils.apprxGraphicSize];
      the map and its layers are records of what the code reads of them.
    - A function that hands its result to a callback as its last
      statement returns that result.
    - [_loadScripts] and [window.onerror], which only touch the document,
      are not modelled. *)

From Stdlib Require Import ZArith QArith Qround Lia Bool.
From Stdlib Require Import Ascii.
From Stdlib Require String DecimalString DecimalZ DecimalPos DecimalFacts.
From stdpp Require Import base option list gmap strings.

(* ================================================================= *)
(** ** JavaScript strings and arrays of strings *)

Module Js.

(** The double quote character (code 34). *)
Definition dquote : ascii := "034"%char.
Definition backslash : ascii := "092"%char.

(** [s.length], as a number. *)
Fixpoint length_from (acc : Z) (s : string) : Z :=
  match s with
  | EmptyString => acc
  | String _ s' => length_from (acc + 1)%Z s'
  end.

Definition length (s : string) : Z := length_from 0%Z s.

(** [s.split(sep)] for a non-empty separator: the pieces between the
    successive left-most occurrences of [sep].  [skip] counts the
    characters of a separator occurrence still to be passed over, [cur] is
    the piece being collected. *)
Fixpoint split_from (sep : string) (skip : nat) (cur : string) (s : string)
  : list string :=
  match s with
  | EmptyString => [cur]
  | String c s' =>
      match skip with
      | S k => split_from sep k cur s'
      | O =>
          if String.prefix sep s
          then cur :: split_from sep (String.length sep - 1) "" s'
          else split_from sep 0 (cur +:+ String c "") s'
      end
  end.

Definition split (sep s : string) : list string := split_from sep 0 "" s.

(** [s.substring(0, s.length - n)]: a negative end counts as [0]. *)
Definition drop_last (n : nat) (s : string) : string :=
  String.substring 0 (String.length s - n) s.

(** [Array.prototype.join] on an array of strings; [toString] of an array
    is [join(",")]. *)
Definition join (sep : string) (a : list string) : string :=
  String.concat sep a.

(** The truthiness test the loops apply to a piece: it is a non-empty
    string. *)
Definition nonempty (s : string) : bool :=
  match s with EmptyString => false | String _ _ => true end.

End Js.

(* ================================================================= *)
(** ** JSON values, [JSON.stringify] and [JSON.parse] *)

Module Json.

(** *** Digits *)

Definition string_of_Z (n : Z) : string :=
  DecimalString.NilZero.string_of_int (Z.to_int n).

Definition is_digit (c : ascii) : bool :=
  let n := nat_of_ascii c in Nat.leb 48 n && Nat.leb n 57.

(** The longest prefix of digits, and what follows it. *)
Fixpoint span_digits (s : string) : string * string :=
  match s with
  | String c s' =>
      if is_digit c
      then let '(d, r) := span_digits s' in (String c d, r)
      else ("", s)
  | EmptyString => ("", "")
  end.

(** *** Numbers *)

(** A Number, by the numeral that Number::toString prints for it: the
    digits of its shortest decimal representation, with no zero at either
    end, and the position of the decimal point, so that the value of
    [Finite neg s n] is 0.s times 10^n, negated when [neg].  Zero has no
    digits; [Finite true "" 0] is the negative zero. *)
Inductive number : Type :=
| NaN
| Infinity (negative : bool)
| Finite (negative : bool) (digits : string) (point : Z).

Fixpoint all_digits (s : string) : bool :=
  match s with
  | EmptyString => true
  | String c s' => is_digit c && all_digits s'
  end.

Fixpoint zeros (n : nat) : string :=
  match n with
  | O => EmptyString
  | S n' => String "0" (zeros n')
  end.

(** Without the zeros at its start. *)
Fixpoint drop_zeros (s : string) : string :=
  match s with
  | String c s' => if Ascii.eqb c "0" then drop_zeros s' else s
  | EmptyString => s
  end.

(** Without the zeros at its end. *)
Fixpoint drop_last_zeros (s : string) : string :=
  match s with
  | EmptyString => EmptyString
  | String c s' =>
      match drop_last_zeros s' with
      | EmptyString => if Ascii.eqb c "0" then EmptyString else String c EmptyString
      | t => String c t
      end
  end.

(** The number 0.d times 10^point for any digits [d]. *)
Definition decimal (negative : bool) (d : string) (point : Z) : number :=
  let d' := drop_zeros d in
  match drop_last_zeros d' with
  | EmptyString => Finite negative "" 0
  | s => Finite negative s (point - Z.of_nat (String.length d - String.length d'))
  end.

Definition of_Z (n : Z) : number :=
  let s := string_of_Z (Z.abs n) in
  decimal (Z.ltb n 0) s (Z.of_nat (String.length s)).

Fixpoint str_take (n : nat) (s : string) : string :=
  match n, s with
  | S n', String c s' => String c (str_take n' s')
  | _, _ => EmptyString
  end.

Fixpoint str_drop (n : nat) (s : string) : string :=
  match n, s with
  | S n', String _ s' => str_drop n' s'
  | _, _ => s
  end.

(** The exponent part of a numeral: a sign, always, and the digits. *)
Definition exponent_text (e : Z) : string :=
  String (if Z.ltb e 0 then "-" else "+")%char (string_of_Z (Z.abs e)).

(** Number::toString for the digits [s] and the point [n] of a number
    that is not zero. *)
Definition numeral (s : string) (n : Z) : string :=
  let k := Z.of_nat (String.length s) in
  if Z.leb k n && Z.leb n 21 then s +:+ zeros (Z.to_nat (n - k))
  else if Z.ltb 0 n && Z.leb n 21
       then str_take (Z.to_nat n) s +:+ "." +:+ str_drop (Z.to_nat n) s
  else if Z.ltb (-6) n && Z.leb n 0 then "0." +:+ zeros (Z.to_nat (- n)) +:+ s
  else
    match s with
    | String d EmptyString => String d ("e" +:+ exponent_text (n - 1))
    | String d ds => String d ("." +:+ ds +:+ "e" +:+ exponent_text (n - 1))
    | EmptyString => EmptyString
    end.

Definition Number_toString (x : number) : string :=
  match x with
  | NaN => "NaN"
  | Infinity negative => if negative then "-Infinity" else "Infinity"
  | Finite _ EmptyString _ => "0"
  | Finite negative s n => (if negative then "-" else "") +:+ numeral s n
  end.

(** The digits of the integer part of a JSON numeral: [0], or digits that
    do not start with [0]. *)
Definition parse_int (s : string) : option (string * string) :=
  let '(ds, rest) := span_digits s in
  match ds with
  | EmptyString => None
  | String c (String _ _) => if Ascii.eqb c "0" then None else Some (ds, rest)
  | _ => Some (ds, rest)
  end.

(** The digits of the fraction, if there is one. *)
Definition parse_frac (s : string) : option (string * string) :=
  match s with
  | String c r =>
      if Ascii.eqb c "." then
        match span_digits r with
        | (EmptyString, _) => None
        | (ds, rest) => Some (ds, rest)
        end
      else Some (EmptyString, s)
  | EmptyString => Some (EmptyString, s)
  end.

(** The exponent, [0] if there is none. *)
Definition parse_exp (s : string) : option (Z * string) :=
  match s with
  | String c r =>
      if Ascii.eqb c "e" || Ascii.eqb c "E" then
        let '(negative, r') :=
          match r with
          | String c' r' =>
              if Ascii.eqb c' "-" then (true, r')
              else if Ascii.eqb c' "+" then (false, r')
              else (false, r)
          | EmptyString => (false, r)
          end in
        match span_digits r' with
        | (EmptyString, _) => None
        | (ds, rest) =>
            match DecimalString.NilEmpty.uint_of_string ds with
            | Some u => Some (if negative then (- Z.of_uint u)%Z else Z.of_uint u, rest)
            | None => None
            end
        end
      else Some (0%Z, s)
  | EmptyString => Some (0%Z, s)
  end.

(** A JSON numeral: an optional minus sign, the integer part, an
    optional fraction and an optional exponent. *)
Definition parse_number (s : string) : option (number * string) :=
  let '(negative, s1) :=
    match s with
    | String c r => if Ascii.eqb c "-" then (true, r) else (false, s)
    | EmptyString => (false, s)
    end in
  match parse_int s1 with
  | Some (i, s2) =>
      match parse_frac s2 with
      | Some (f, s3) =>
          match parse_exp s3 with
          | Some (e, s4) =>
              Some (decimal negative (i +:+ f) (Z.of_nat (String.length i) + e), s4)
          | None => None
          end
      | None => None
      end
  | None => None
  end.

Fixpoint ends_with_zero (s : string) : bool :=
  match s with
  | EmptyString => false
  | String c EmptyString => Ascii.eqb c "0"
  | String _ s' => ends_with_zero s'
  end.

(** The numbers that [JSON.stringify] prints as numerals and
    [JSON.parse] reads back: the finite ones other than the negative
    zero, in the representation described above. *)
Definition json_number (x : number) : bool :=
  match x with
  | Finite negative EmptyString n => negb negative && Z.eqb n 0
  | Finite _ (String c _ as s) _ =>
      all_digits s && negb (Ascii.eqb c "0") && negb (ends_with_zero s)
  | _ => false
  end.

(** An integer as a number. *)
Coercion of_Z : Z >-> number.

(** *** Values *)

#[local] Unset Elimination Schemes.

Inductive json : Type :=
| JNull
| JBool (b : bool)
| JNum (n : number)
| JStr (s : string)
| JArr (l : list json)
| JObj (m : list (string * json)).

#[local] Set Elimination Schemes.

Arguments JNum n%_Z.

(** A JavaScript value as the code handles it: [None] is [undefined]. *)
Definition jsval : Type := option json.

(** *** Objects as ordered property lists *)

Fixpoint obj_get (k : string) (m : list (string * json)) : jsval :=
  match m with
  | [] => None
  | (k', v) :: m' => if String.eqb k k' then Some v else obj_get k m'
  end.

(** Assignment of a property: an existing key keeps its place. *)
Fixpoint obj_set (k : string) (v : json) (m : list (string * json))
  : list (string * json) :=
  match m with
  | [] => [(k, v)]
  | (k', v') :: m' =>
      if String.eqb k k' then (k, v) :: m' else (k', v') :: obj_set k v m'
  end.

(** An object literal whose [undefined] properties [JSON.stringify]
    leaves out. *)
Fixpoint props (l : list (string * jsval)) : list (string * json) :=
  match l with
  | [] => []
  | (k, Some v) :: l' => (k, v) :: props l'
  | (_, None) :: l' => props l'
  end.

(** *** Printing *)

Definition hex_digit (n : nat) : ascii :=
  match n with
  | 0 => "0" | 1 => "1" | 2 => "2" | 3 => "3" | 4 => "4" | 5 => "5"
  | 6 => "6" | 7 => "7" | 8 => "8" | 9 => "9" | 10 => "a" | 11 => "b"
  | 12 => "c" | 13 => "d" | 14 => "e" | _ => "f"
  end%char.

(** QuoteJSONString, one character at a time. *)
Definition quote_char (c : ascii) : string :=
  let n := nat_of_ascii c in
  if Nat.eqb n 34 then String Js.backslash (String Js.dquote "")
  else if Nat.eqb n 92 then String Js.backslash (String Js.backslash "")
  else if Nat.eqb n 8 then String Js.backslash "b"
  else if Nat.eqb n 12 then String Js.backslash "f"
  else if Nat.eqb n 10 then String Js.backslash "n"
  else if Nat.eqb n 13 then String Js.backslash "r"
  else if Nat.eqb n 9 then String Js.backslash "t"
  else if Nat.ltb n 32
       then String Js.backslash
              (String "u" (String "0" (String "0"
                (String (hex_digit (n / 16)) (String (hex_digit (n mod 16)) "")))))
  else String c "".

Fixpoint quote_body (s : string) : string :=
  match s with
  | EmptyString => ""
  | String c s' => quote_char c +:+ quote_body s'
  end.

Definition quote (s : string) : string :=
  String Js.dquote (quote_body s +:+ String Js.dquote "").

(** [JSON.stringify(v)] for a value without [undefined]. *)
Fixpoint stringify (v : json) : string :=
  match v with
  | JNull => "null"
  | JBool true => "true"
  | JBool false => "false"
  | JNum n =>
      match n with
      | NaN | Infinity _ => "null"
      | Finite _ _ _ => Number_toString n
      end
  | JStr s => quote s
  | JArr l => "[" +:+ Js.join "," (map stringify l) +:+ "]"
  | JObj m =>
      "{" +:+ Js.join "," (map (fun kv => quote (fst kv) +:+ ":" +:+ stringify (snd kv)) m)
          +:+ "}"
  end.

(** *** Parsing *)

Definition is_ws (c : ascii) : bool :=
  let n := nat_of_ascii c in
  Nat.eqb n 32 || Nat.eqb n 9 || Nat.eqb n 10 || Nat.eqb n 13.

Fixpoint skip_ws (s : string) : string :=
  match s with
  | String c s' => if is_ws c then skip_ws s' else s
  | EmptyString => s
  end.

Definition hex_value (c : ascii) : option nat :=
  let n := nat_of_ascii c in
  if Nat.leb 48 n && Nat.leb n 57 then Some (n - 48)
  else if Nat.leb 97 n && Nat.leb n 102 then Some (n - 87)
  else if Nat.leb 65 n && Nat.leb n 70 then Some (n - 55)
  else None.

(** The character an escape [\c] stands for, [\u] apart. *)
Definition unescape (c : ascii) : option ascii :=
  let n := nat_of_ascii c in
  if Nat.eqb n 34 then Some Js.dquote
  else if Nat.eqb n 92 then Some Js.backslash
  else if Nat.eqb n 47 then Some "/"%char
  else if Nat.eqb n 98 then Some "008"%char
  else if Nat.eqb n 102 then Some "012"%char
  else if Nat.eqb n 110 then Some "010"%char
  else if Nat.eqb n 114 then Some "013"%char
  else if Nat.eqb n 116 then Some "009"%char
  else None.

(** [\uXXXX]: the code units of this model are the 8-bit ones. *)
Definition unescape_u (h1 h2 h3 h4 : ascii) : option ascii :=
  match hex_value h1, hex_value h2, hex_value h3, hex_value h4 with
  | Some 0, Some 0, Some a, Some b => Some (ascii_of_nat (16 * a + b))
  | _, _, _, _ => None
  end.

Definition cons_char (c : ascii) (r : option (string * string))
  : option (string * string) :=
  match r with
  | Some (s, rest) => Some (String c s, rest)
  | None => None
  end.

(** The text of a string literal after its opening quote, up to and
    including the closing one. *)
Fixpoint parse_string_body (s : string) : option (string * string) :=
  match s with
  | EmptyString => None
  | String c s' =>
      if Ascii.eqb c Js.dquote then Some ("", s')
      else if Ascii.eqb c Js.backslash then
        match s' with
        | String e s'' =>
            match unescape e with
            | Some ch => cons_char ch (parse_string_body s'')
            | None =>
                if Ascii.eqb e "u" then
                  match s'' with
                  | String h1 (String h2 (String h3 (String h4 r))) =>
                      match unescape_u h1 h2 h3 h4 with
                      | Some ch => cons_char ch (parse_string_body r)
                      | None => None
                      end
                  | _ => None
                  end
                else None
            end
        | EmptyString => None
        end
      else if Nat.ltb (nat_of_ascii c) 32 then None
      else cons_char c (parse_string_body s')
  end.

Definition expect (lit : string) (v : json) (s : string) : option (json * string) :=
  if String.prefix lit s
  then Some (v, String.substring (String.length lit) (String.length s - String.length lit) s)
  else None.

(** The elements of an array after the first one. *)
Fixpoint parse_elements (pv : string -> option (json * string)) (fuel : nat)
    (acc : list json) (s : string) : option (json * string) :=
  match fuel with
  | O => None
  | S fuel' =>
      match skip_ws s with
      | String c r =>
          if Ascii.eqb c "]" then Some (JArr (rev acc), r)
          else if Ascii.eqb c "," then
            match pv r with
            | Some (v, r') => parse_elements pv fuel' (v :: acc) r'
            | None => None
            end
          else None
      | EmptyString => None
      end
  end.

(** The members of a non-empty object. *)
Fixpoint parse_members (pv : string -> option (json * string)) (fuel : nat)
    (acc : list (string * json)) (s : string) : option (json * string) :=
  match fuel with
  | O => None
  | S fuel' =>
      match skip_ws s with
      | String c r =>
          if Ascii.eqb c Js.dquote then
            match parse_string_body r with
            | Some (k, r1) =>
                match skip_ws r1 with
                | String c2 r2 =>
                    if Ascii.eqb c2 ":" then
                      match pv r2 with
                      | Some (v, r3) =>
                          match skip_ws r3 with
                          | String c3 r4 =>
                              if Ascii.eqb c3 "," then
                                parse_members pv fuel' (obj_set k v acc) r4
                              else if Ascii.eqb c3 "}" then
                                Some (JObj (obj_set k v acc), r4)
                              else None
                          | EmptyString => None
                          end
                      | None => None
                      end
                    else None
                | EmptyString => None
                end
            | None => None
            end
          else None
      | EmptyString => None
      end
  end.

Fixpoint parse_value (fuel : nat) (s : string) : option (json * string) :=
  match fuel with
  | O => None
  | S fuel' =>
      match skip_ws s with
      | EmptyString => None
      | String c r =>
          if Ascii.eqb c "n" then expect "ull" JNull r
          else if Ascii.eqb c "t" then expect "rue" (JBool true) r
          else if Ascii.eqb c "f" then expect "alse" (JBool false) r
          else if Ascii.eqb c Js.dquote then
            match parse_string_body r with
            | Some (str, r') => Some (JStr str, r')
            | None => None
            end
          else if Ascii.eqb c "[" then
            match skip_ws r with
            | EmptyString => None
            | String c' r' =>
                if Ascii.eqb c' "]" then Some (JArr [], r')
                else
                  match parse_value fuel' r with
                  | Some (v, r'') => parse_elements (parse_value fuel') fuel' [v] r''
                  | None => None
                  end
            end
          else if Ascii.eqb c "{" then
            match skip_ws r with
            | EmptyString => None
            | String c' r' =>
                if Ascii.eqb c' "}" then Some (JObj [], r')
                else parse_members (parse_value fuel') fuel' [] r
            end
          else
            match parse_number (String c r) with
            | Some (n, r') => Some (JNum n, r')
            | None => None
            end
      end
  end.

(** [JSON.parse(text)]: one value, then nothing but white space.  [None]
    is the [SyntaxError]. *)
Definition parse (text : string) : option json :=
  match parse_value (S (String.length text)) text with
  | Some (v, rest) =>
      match skip_ws rest with
      | EmptyString => Some v
      | String _ _ => None
      end
  | None => None
  end.

End Json.

(* ================================================================= *)
(** ** JavaScript values at run time: property reads, coercions *)

Module JsValue.
Import Json.

Inductive exn : Type :=
| TypeError
| ReferenceError
| SyntaxError
| QuotaExceededError.

(** The outcome of an expression or a call: a value, or an exception. *)
Inductive result (A : Type) : Type :=
| Ok (a : A)
| Throw (e : exn).
Arguments Ok {A} a.
Arguments Throw {A} e.

Definition rbind {A B : Type} (r : result A) (f : A -> result B) : result B :=
  match r with
  | Ok a => f a
  | Throw e => Throw e
  end.

(** [v.k]: reading a property of [undefined] or [null] is a [TypeError];
    of the properties the code reads, only an object has any. *)
Definition get (v : jsval) (k : string) : result jsval :=
  match v with
  | None => Throw TypeError
  | Some JNull => Throw TypeError
  | Some (JObj m) => Ok (obj_get k m)
  | Some _ => Ok None
  end.

(** ToString of a value; an array is its elements joined by commas, a
    [null] element printing as nothing. *)
Fixpoint to_string (v : json) : string :=
  match v with
  | JNull => "null"
  | JBool true => "true"
  | JBool false => "false"
  | JNum n => Number_toString n
  | JStr s => s
  | JArr l =>
      Js.join "," (map (fun e => match e with JNull => "" | _ => to_string e end) l)
  | JObj _ => "[object Object]"
  end.

Definition ToString (v : jsval) : string :=
  match v with
  | None => "undefined"
  | Some v => to_string v
  end.

(** [JSON.parse(v)]: the argument is converted to a string first. *)
Definition JSON_parse (v : jsval) : result json :=
  match parse (ToString v) with
  | Some j => Ok j
  | None => Throw SyntaxError
  end.

(** StrWhiteSpaceChar, among the 8-bit characters. *)
Definition is_str_ws (c : ascii) : bool :=
  let n := nat_of_ascii c in
  (Nat.leb 9 n && Nat.leb n 13) || Nat.eqb n 32 || Nat.eqb n 160.

Fixpoint trim_start (s : string) : string :=
  match s with
  | String c s' => if is_str_ws c then trim_start s' else s
  | EmptyString => s
  end.

Fixpoint trim_end (s : string) : string :=
  match s with
  | EmptyString => EmptyString
  | String c s' =>
      match trim_end s' with
      | EmptyString => if is_str_ws c then EmptyString else String c EmptyString
      | t => String c t
      end
  end.

(** The value of the digits [s] in the radix. *)
Fixpoint radix_value (radix : Z) (acc : Z) (s : string) : option Z :=
  match s with
  | EmptyString => Some acc
  | String c s' =>
      match hex_value c with
      | Some v =>
          if Z.ltb (Z.of_nat v) radix
          then radix_value radix (acc * radix + Z.of_nat v)%Z s'
          else None
      | None => None
      end
  end.

(** The digits of a literal [0x...], [0o...] or [0b...]. *)
Definition radix_literal (radix : Z) (s : string) : number :=
  match s with
  | EmptyString => NaN
  | String _ _ =>
      match radix_value radix 0 s with
      | Some v => of_Z v
      | None => NaN
      end
  end.

(** StrDecimalLiteral: a sign, then [Infinity], or digits with an
    optional point among them and an optional exponent. *)
Definition str_decimal (s : string) : number :=
  let '(negative, body) :=
    match s with
    | String c r =>
        if Ascii.eqb c "-" then (true, r)
        else if Ascii.eqb c "+" then (false, r)
        else (false, s)
    | EmptyString => (false, s)
    end in
  if String.eqb body "Infinity" then Infinity negative
  else
    let '(i, s2) := span_digits body in
    let '(f, s3) :=
      match s2 with
      | String c r => if Ascii.eqb c "." then span_digits r else (EmptyString, s2)
      | EmptyString => (EmptyString, s2)
      end in
    match i +:+ f with
    | EmptyString => NaN
    | d =>
        match parse_exp s3 with
        | Some (e, EmptyString) =>
            decimal negative d (Z.of_nat (String.length i) + e)
        | _ => NaN
        end
    end.

(** ToNumber of a string: white space around the literal is dropped, the
    empty string is [0], and what is not a numeric literal is [NaN]. *)
Definition to_number (s : string) : number :=
  match trim_end (trim_start s) with
  | EmptyString => of_Z 0
  | String c (String x r) as t =>
      if Ascii.eqb c "0" && (Ascii.eqb x "x" || Ascii.eqb x "X") then radix_literal 16 r
      else if Ascii.eqb c "0" && (Ascii.eqb x "o" || Ascii.eqb x "O") then radix_literal 8 r
      else if Ascii.eqb c "0" && (Ascii.eqb x "b" || Ascii.eqb x "B") then radix_literal 2 r
      else str_decimal t
  | t => str_decimal t
  end.

(** [x == y] on numbers: [NaN] equals nothing, and the two zeros are
    equal. *)
Definition number_eqb (x y : number) : bool :=
  match x, y with
  | Infinity a, Infinity b => Bool.eqb a b
  | Finite _ EmptyString _, Finite _ EmptyString _ => true
  | Finite a s n, Finite b t m => Bool.eqb a b && String.eqb s t && Z.eqb n m
  | _, _ => false
  end.

(** [a == b] on primitive values. *)
Definition prim_loose_eq (a b : json) : bool :=
  match a, b with
  | JNull, JNull => true
  | JNum x, JNum y => number_eqb x y
  | JStr x, JStr y => String.eqb x y
  | JBool x, JBool y => Bool.eqb x y
  | JNum x, JStr s | JStr s, JNum x => number_eqb x (to_number s)
  | JBool x, JNum y | JNum y, JBool x => number_eqb (if x then 1 else 0)%Z y
  | JBool x, JStr s | JStr s, JBool x => number_eqb (if x then 1 else 0)%Z (to_number s)
  | _, _ => false
  end.

Definition is_object (v : json) : bool :=
  match v with JArr _ | JObj _ => true | _ => false end.

(** [a == b].  Two objects are equal when they are the same object, which
    a value fresh from [JSON.parse] never is; an object meets a primitive
    through its string. *)
Definition loose_eq (a b : jsval) : bool :=
  match a, b with
  | None, None | None, Some JNull | Some JNull, None => true
  | None, Some _ | Some _, None => false
  | Some x, Some y =>
      match is_object x, is_object y with
      | true, true => false
      | true, false =>
          match y with JNull => false | _ => prim_loose_eq (JStr (to_string x)) y end
      | false, true =>
          match x with JNull => false | _ => prim_loose_eq x (JStr (to_string y)) end
      | false, false => prim_loose_eq x y
      end
  end.

(** The values [for (k in v)] visits, as [v[k]], in order. *)
Fixpoint chars (s : string) : list json :=
  match s with
  | EmptyString => []
  | String c s' => JStr (String c "") :: chars s'
  end.

Definition for_in_values (v : jsval) : list json :=
  match v with
  | Some (JArr l) => l
  | Some (JObj m) => map snd m
  | Some (JStr s) => chars s
  | _ => []
  end.

End JsValue.

(* ================================================================= *)
(** ** The data of OfflineStore *)

Import Json JsValue.

(** [this._localEnum()] and [this.enum()]. *)
Definition STORAGE_KEY : string := "___EsriOfflineStore___".
Definition INDEX_KEY : string := "___EsriOfflineIndex___".
Definition LOCAL_STORAGE_MAX_LIMIT : Q := 4.75%Q.
Definition TOKEN : string := "|||".
Definition EDIT_EVENT_DUPLICATE : string := "duplicateEditEvent".
Definition INTERNET_STATUS_EVENT : string := "internetStatusChangeEvent".
Definition INDEX_UPDATE_EVENT : string := "indexUpdateEvent".
Definition ADD : string := "add".
Definition UPDATE : string := "update".
Definition DELETE : string := "delete".

(** Modelled from the spec: the Feature Store's geometry objects
    ([esri.SpatialReference], [esri.geometry.Point], [Polyline] and
    [Polygon]), which are not part of this repository file.  A geometry is
    a shape kind with its coordinate payload and a spatial reference
    identified by its [wkid]; [JSON.stringify] prints the tag [type], the
    payload and the reference. *)
Record SpatialReference : Type := { wkid : jsval }.

Inductive Geometry : Type :=
| Point (x y : jsval) (spatialReference : SpatialReference)
| Polyline (paths : list json) (spatialReference : SpatialReference)
| Polygon (rings : list json) (spatialReference : SpatialReference).

(** [geometry.type]. *)
Definition geometry_type (g : Geometry) : string :=
  match g with
  | Point _ _ _ => "point"
  | Polyline _ _ => "polyline"
  | Polygon _ _ => "polygon"
  end.

Definition spatialReference_json (sr : SpatialReference) : json :=
  JObj (props [("wkid", wkid sr)]).

Definition geometry_json (g : Geometry) : json :=
  match g with
  | Point x y sr =>
      JObj (props [("type", Some (JStr "point")); ("x", x); ("y", y);
                   ("spatialReference", Some (spatialReference_json sr))])
  | Polyline paths sr =>
      JObj (props [("type", Some (JStr "polyline")); ("paths", Some (JArr paths));
                   ("spatialReference", Some (spatialReference_json sr))])
  | Polygon rings sr =>
      JObj (props [("type", Some (JStr "polygon")); ("rings", Some (JArr rings));
                   ("spatialReference", Some (spatialReference_json sr))])
  end.

(** [esri.Graphic]: the geometry ([None] is [null]) and the attributes
    ([JNull] is [null]); symbol and infoTemplate are not stored. *)
Record Graphic : Type := { geometry : option Geometry; attributes : json }.

(** A feature layer, as far as this code reads it. *)
Record Layer : Type := { layerId : json }.

(** What [_deserializeGraphic] returns. *)
Record Decoded : Type := {
  dec_graphic : Graphic;
  dec_layer : json;
  dec_enumValue : jsval
}.

(** [_duplicateLocalStorageValue]: both fields start as [null]. *)
Record _duplicateLocalStorageValue : Type := {
  success : option bool;
  duplicate : option bool
}.

(** [_indexObject]. *)
Record _indexObject : Type := {
  io_id : json;
  io_layerId : json;
  io_type : jsval;
  io_success : bool;
  io_geometryType : string;
  io_date : string
}.

(** One entry of a result array the feature layer passes to the
    completion callback of [applyEdits]. *)
Record EditResult : Type := { er_success : bool; er_objectId : json }.

(** The variables [item] and [graphic] of one activation of
    [_reestablishedInternet].  They are declared with [var], so the
    activation has one of each, and every callback created in its loop
    reads them where the loop left them. *)
Record Frame : Type := { fr_item : option string; fr_graphic : option Decoded }.

(** The callback handed to [_layerEditManager]: the logging one of the
    online path, or the one [_reestablishedInternet] creates, closed over
    the variables of its activation. *)
Inductive Callback : Type :=
| CbLog
| CbReplay (frame : nat).

Inductive EditKind : Type := KDelete | KAdd | KUpdate.

(** A call of [layer.applyEdits] that awaits its reply. *)
Record Request : Type := {
  rq_kind : EditKind;
  rq_layer : Layer;
  rq_graphic : Graphic;
  rq_callback : Callback
}.

(** The [callback] argument of [applyEdits], which its documentation
    recommends and does not require: a function of the caller, whose
    calls the model records and lets return, or [undefined] when the
    caller left it out. *)
Inductive Handler : Type :=
| Given
| Omitted.

Inductive AlertMessage : Type :=
| GraphicTooBig (grSize : Q)
| AlmostOverLimit.

(** The second argument of the caller's callback: [false], or a
    [_duplicateLocalStorageValue]. *)
Inductive CallbackArg : Type :=
| ArgFalse
| ArgStored (v : _duplicateLocalStorageValue).

Inductive Message : Type :=
| MsgBool (b : bool)
| MsgIndex (o : _indexObject).

(** What a run does to the outside, in order. *)
Inductive Effect : Type :=
| Alert (m : AlertMessage)
| CallerCallback (count : Z) (arg : CallbackArg) (id : Z)
| SetItem (key value : string) (accepted : bool)
| RemoveItem (key : string)
| LayerAdd (l : Layer) (g : Graphic)
| Dispatch (type : string) (msg : Message)
| ApplyEdits (r : Request)
| Uncaught (e : exn).

Record World : Type := {
  localStorage : gmap string string;
  layers : list Layer;
  online : bool;
  _reestablishedInternetListener : bool;
  count : Z;
  frames : list Frame;
  requests : list Request
}.

Definition with_localStorage (ls : gmap string string) (w : World) : World :=
  {| localStorage := ls; layers := layers w; online := online w;
     _reestablishedInternetListener := _reestablishedInternetListener w;
     count := count w; frames := frames w; requests := requests w |}.

Definition with_online (b : bool) (w : World) : World :=
  {| localStorage := localStorage w; layers := layers w; online := b;
     _reestablishedInternetListener := _reestablishedInternetListener w;
     count := count w; frames := frames w; requests := requests w |}.

Definition with_listener (b : bool) (w : World) : World :=
  {| localStorage := localStorage w; layers := layers w; online := online w;
     _reestablishedInternetListener := b;
     count := count w; frames := frames w; requests := requests w |}.

Definition with_frames (fs : list Frame) (w : World) : World :=
  {| localStorage := localStorage w; layers := layers w; online := online w;
     _reestablishedInternetListener := _reestablishedInternetListener w;
     count := count w; frames := fs; requests := requests w |}.

Definition with_requests (rs : list Request) (w : World) : World :=
  {| localStorage := localStorage w; layers := layers w; online := online w;
     _reestablishedInternetListener := _reestablishedInternetListener w;
     count := count w; frames := frames w; requests := rs |}.

(* ================================================================= *)
(** ** Runs: state, effects and exceptions *)

Record Run (A : Type) : Type := {
  out : result A;
  world : World;
  effects : list Effect
}.
Arguments out {A} r.
Arguments world {A} r.
Arguments effects {A} r.

Definition M (A : Type) : Type := World -> Run A.

Definition ret {A : Type} (a : A) : M A :=
  fun w => {| out := Ok a; world := w; effects := [] |}.

Definition throw {A : Type} (e : exn) : M A :=
  fun w => {| out := Throw e; world := w; effects := [] |}.

Definition bind {A B : Type} (m : M A) (f : A -> M B) : M B :=
  fun w =>
    let r := m w in
    match out r with
    | Ok a =>
        let r' := f a (world r) in
        {| out := out r'; world := world r'; effects := effects r ++ effects r' |}
    | Throw e => {| out := Throw e; world := world r; effects := effects r |}
    end.

Notation "'let*' x ':=' m 'in' k" := (bind m (fun x => k))
  (at level 10, x pattern, m at level 100, k at level 200).
Notation "m ';;' k" := (bind m (fun _ => k))
  (at level 100, k at level 200, right associativity).

(** [try { m } catch (err) { h }]. *)
Definition try_catch {A : Type} (m : M A) (h : exn -> M A) : M A :=
  fun w =>
    let r := m w in
    match out r with
    | Ok a => r
    | Throw e =>
        let r' := h e (world r) in
        {| out := out r'; world := world r'; effects := effects r ++ effects r' |}
    end.

Definition lift {A : Type} (r : result A) : M A :=
  fun w => {| out := r; world := w; effects := [] |}.

Definition emit (e : Effect) : M unit :=
  fun w => {| out := Ok tt; world := w; effects := [e] |}.

Definition read {A : Type} (f : World -> A) : M A :=
  fun w => {| out := Ok (f w); world := w; effects := [] |}.

Definition update (f : World -> World) : M unit :=
  fun w => {| out := Ok tt; world := f w; effects := [] |}.

(** A loop over the elements of an array; an exception in the body ends
    it. *)
Fixpoint for_each {A : Type} (l : list A) (body : A -> M unit) : M unit :=
  match l with
  | [] => ret tt
  | a :: l' => body a ;; for_each l' body
  end.

(** A listener or a callback that the browser calls: its exception goes
    no further than the error report. *)
Definition called_by_browser (m : M unit) : M unit :=
  try_catch m (fun e => emit (Uncaught e)).

(* ================================================================= *)
(** ** The collaborators *)

(** The storage substrate: whether [localStorage.setItem(key, value)] is
    accepted in the present contents, or throws. *)
Class Substrate : Type := {
  accepts : gmap string string -> string -> string -> bool
}.

(** Hydrate's [stringify] on the attributes of a graphic; [None] when it
    throws. *)
Class AttributeCodec : Type := {
  hydrate_stringify : json -> option string
}.

(** [OfflineUtils.apprxGraphicSize], in megabytes. *)
Class OfflineUtils : Type := {
  apprxGraphicSize : Graphic -> Q
}.

(* ================================================================= *)
(** ** The code of OfflineStore *)

Section OfflineStore.

Context {substrate : Substrate} {codec : AttributeCodec} {utils : OfflineUtils}.

(** *** [localStorage] *)

Definition getItem (key : string) : M (option string) :=
  read (fun w => localStorage w !! key).

Definition setItem (key value : string) : M unit :=
  fun w =>
    if accepts (localStorage w) key value
    then {| out := Ok tt;
            world := with_localStorage (<[key := value]> (localStorage w)) w;
            effects := [SetItem key value true] |}
    else {| out := Throw QuotaExceededError; world := w;
            effects := [SetItem key value false] |}.

Definition removeItem (key : string) : M unit :=
  fun w =>
    {| out := Ok tt;
       world := with_localStorage (delete key (localStorage w)) w;
       effects := [RemoveItem key] |}.

(** *** Public methods *)

(** [Math.round]. *)
Definition Math_round (x : Q) : Z := Qfloor (x + (1 # 2))%Q.

(** [Number.prototype.round]. *)
Definition round (this : Q) (places : Z) : Q :=
  let places := inject_Z (10 ^ places)%Z in
  (inject_Z (Math_round (this * places)) / places)%Q.

(** [getlocalStorageUsed], for the storage object of the browsers the
    code was written for: [for (x in localStorage)] visits the stored
    keys and nothing else, and no key is [remainingspace], the property
    by which the code recognises the storage of Internet Explorer, whose
    branch is not modelled.  The sum and the division are exact. *)
Definition getlocalStorageUsed (w : World) : Q :=
  let mb := map_fold (fun _ v mb => (mb + Js.length v)%Z) 0%Z (localStorage w) in
  round ((inject_Z mb * 2) / 1024 / 1024)%Q 4.

Definition getInternet (w : World) : bool := online w.

Fixpoint getGraphicsLayerById_from (id : jsval) (ls : list Layer) : option Layer :=
  match ls with
  | [] => None
  | l :: ls' =>
      if loose_eq id (Some (layerId l)) then Some l
      else getGraphicsLayerById_from id ls'
  end.

(** [None] is [undefined]: the loop ended without a [return]. *)
Definition getGraphicsLayerById (id : jsval) : M (option Layer) :=
  read (fun w => getGraphicsLayerById_from id (layers w)).

Definition getLocalStoreIndex : M (option (list string)) :=
  let* localStore := getItem INDEX_KEY in
  ret (match localStore with
       | Some s => Some (Js.split TOKEN s)
       | None => None
       end).

(** *** Serializing a graphic *)

(** [JSON.stringify(graphic.geometry)]; the geometry of the graphic is
    an object or [null]. *)
Definition stringify_geometry (g : option Geometry) : string :=
  match g with
  | Some g => stringify (geometry_json g)
  | None => "null"
  end.

(** [new this._jsonGraphicsObject()]: the properties, in the order in
    which the constructor assigns them. *)
Definition _jsonGraphicsObject : list (string * jsval) :=
  [("layer", Some JNull); ("enumValue", Some JNull); ("geometry", Some JNull);
   ("attributes", Some JNull); ("date", Some JNull)].

(** [json.k = v], where [v] may be [undefined]: an existing property
    keeps its place. *)
Fixpoint assign (k : string) (v : jsval) (json : list (string * jsval))
  : list (string * jsval) :=
  match json with
  | [] => [(k, v)]
  | (k', v') :: json' =>
      if String.eqb k k' then (k, v) :: json' else (k', v') :: assign k v json'
  end.

(** [q] after the [try] around [this._hydrate.stringify]: [undefined]
    when it threw. *)
Definition try_hydrate_stringify (attributes : json) : jsval :=
  match hydrate_stringify attributes with
  | Some q => Some (JStr q)
  | None => None
  end.

Definition _serializeGraphic (graphic : Graphic) (layer : Layer)
    (enumValue : string) : string :=
  let json := _jsonGraphicsObject in
  let json := assign "layer" (Some (layerId layer)) json in
  let json := assign "enumValue" (Some (JStr enumValue)) json in
  let json :=
    assign "geometry" (Some (JStr (stringify_geometry (geometry graphic)))) json in
  let json :=
    match attributes graphic with
    | JNull => json
    | a => assign "attributes" (try_hydrate_stringify a) json
    end in
  stringify (JObj (props json)) +:+ TOKEN.

Definition _serializeGraphicNoToken (graphic : Graphic) (layer : Layer)
    (enumValue : string) : string :=
  let json := _jsonGraphicsObject in
  let json := assign "layer" (Some (layerId layer)) json in
  let json := assign "enumValue" (Some (JStr enumValue)) json in
  let json :=
    assign "geometry" (Some (JStr (stringify_geometry (geometry graphic)))) json in
  let json :=
    match attributes graphic with
    | JNull => json
    | a => assign "attributes" (try_hydrate_stringify a) json
    end in
  stringify (JObj (props json)).

(** *** Deserializing a graphic *)

Definition new_SpatialReference (geometry : json) : result SpatialReference :=
  rbind (get (Some geometry) "spatialReference") (fun sr =>
  rbind (get sr "wkid") (fun w =>
  Ok {| wkid := w |})).

Definition _deserializeGraphic (item : string) : result Decoded :=
  rbind (JSON_parse (Some (JStr item))) (fun jsonItem =>
  rbind (get (Some jsonItem) "geometry") (fun g =>
  rbind (JSON_parse g) (fun geometry =>
  rbind (get (Some jsonItem) "attributes") (fun a =>
  rbind (JSON_parse a) (fun attributes =>
  rbind (get (Some jsonItem) "enumValue") (fun enumValue =>
  rbind (get (Some jsonItem) "layer") (fun l =>
  rbind (JSON_parse l) (fun layer =>
  rbind (get (Some geometry) "type") (fun type =>
  rbind
    (match type with
     | Some (JStr "polyline") =>
         rbind (new_SpatialReference geometry) (fun sr =>
         rbind (get (Some geometry) "paths") (fun paths =>
         Ok (Some (Polyline (for_in_values paths) sr))))
     | Some (JStr "point") =>
         rbind (get (Some geometry) "x") (fun x =>
         rbind (get (Some geometry) "y") (fun y =>
         rbind (new_SpatialReference geometry) (fun sr =>
         Ok (Some (Point x y sr)))))
     | Some (JStr "polygon") =>
         rbind (new_SpatialReference geometry) (fun sr =>
         rbind (get (Some geometry) "rings") (fun rings =>
         Ok (Some (Polygon (for_in_values rings) sr))))
     | _ => Ok None
     end) (fun finalGeom =>
  Ok {| dec_graphic := {| geometry := finalGeom; attributes := attributes |};
        dec_layer := layer;
        dec_enumValue := enumValue |})))))))))).

(** *** The temporary local store *)

Definition _getTempLocalStore : M (option string) := getItem STORAGE_KEY.

Definition _setTempLocalStore (serializedGraphic : string) : M bool :=
  try_catch (setItem STORAGE_KEY serializedGraphic ;; ret true)
            (fun _ => ret false).

Definition _deleteTempLocalStore : M bool :=
  removeItem STORAGE_KEY ;; ret true.

(** The body of the loop of [_reserializeGraphicsArray]: an empty segment
    is skipped, one that [JSON.parse] refuses is logged and left out. *)
Fixpoint _reserializeGraphicsArray_from (newStr : string) (array : list string)
  : string :=
  match array with
  | [] => newStr
  | segment :: array' =>
      if negb (Js.nonempty segment) then _reserializeGraphicsArray_from newStr array'
      else
        match parse segment with
        | Some _ => _reserializeGraphicsArray_from (newStr +:+ segment +:+ TOKEN) array'
        | None => _reserializeGraphicsArray_from newStr array'
        end
  end.

Definition _reserializeGraphicsArray (array : list string) : string :=
  _reserializeGraphicsArray_from "" array.

(** The index at which the loop of [_deleteItemInLocalStore] finds
    [entry]: the first non-empty piece equal to it. *)
Fixpoint index_of_entry (entry : string) (splitStore : list string) : option nat :=
  match splitStore with
  | [] => None
  | test :: splitStore' =>
      if Js.nonempty test && String.eqb test entry then Some 0
      else
        match index_of_entry entry splitStore' with
        | Some i => Some (S i)
        | None => None
        end
  end.

Definition _deleteItemInLocalStore (entry : string) : M bool :=
  let* localStore := getItem STORAGE_KEY in
  match localStore with
  | Some localStore =>
      let splitStore := Js.split TOKEN localStore in
      match index_of_entry entry splitStore with
      | Some property =>
          let newArr := _reserializeGraphicsArray (delete property splitStore) in
          removeItem STORAGE_KEY ;;
          let* setItem := _setTempLocalStore newArr in
          ret setItem
      | None => ret false
      end
  | None => ret false
  end.

(** *** Sending an edit to the feature layer *)

(** [layer.applyEdits(...)]: a [TypeError] when [layer] is [undefined];
    otherwise the request is under way and its reply comes later. *)
Definition layer_applyEdits (layer : option Layer) (kind : EditKind)
    (graphic : Graphic) (mCallback : Callback) : M unit :=
  match layer with
  | None => throw TypeError
  | Some l =>
      let r := {| rq_kind := kind; rq_layer := l; rq_graphic := graphic;
                  rq_callback := mCallback |} in
      update (fun w => with_requests (requests w ++ [r]) w) ;;
      emit (ApplyEdits r)
  end.

Definition _layerEditManager (graphic : Graphic) (layer : option Layer)
    (value : jsval) (mCallback : Callback) : M unit :=
  match value with
  | Some (JStr v) =>
      if String.eqb v DELETE then layer_applyEdits layer KDelete graphic mCallback
      else if String.eqb v ADD then layer_applyEdits layer KAdd graphic mCallback
      else if String.eqb v UPDATE then layer_applyEdits layer KUpdate graphic mCallback
      else ret tt
  | _ => ret tt
  end.

(** *** Replay *)

Definition new_frame : M nat :=
  fun w =>
    {| out := Ok (length (frames w));
       world := with_frames (frames w ++ [{| fr_item := None; fr_graphic := None |}]) w;
       effects := [] |}.

Definition assign_item (frame : nat) (item : string) : M unit :=
  update (fun w =>
    with_frames
      (alter (fun fr => {| fr_item := Some item; fr_graphic := fr_graphic fr |})
             frame (frames w)) w).

Definition assign_graphic (frame : nat) (graphic : Decoded) : M unit :=
  update (fun w =>
    with_frames
      (alter (fun fr => {| fr_item := fr_item fr; fr_graphic := Some graphic |})
             frame (frames w)) w).

(** One turn of the loop of [_reestablishedInternet], in the activation
    [frame]. *)
Definition replay_item (frame : nat) (item : string) : M unit :=
  assign_item frame item ;;
  if Js.nonempty item then
    let* graphic := lift (_deserializeGraphic item) in
    assign_graphic frame graphic ;;
    let* layer := getGraphicsLayerById (Some (dec_layer graphic)) in
    _layerEditManager (dec_graphic graphic) layer (dec_enumValue graphic)
                      (CbReplay frame)
  else ret tt.

Definition _reestablishedInternet : M unit :=
  let* data := getItem STORAGE_KEY in
  match data with
  | Some data =>
      let split := Js.split TOKEN data in
      let* frame := new_frame in
      for_each split (replay_item frame)
  | None => ret tt
  end.

(** The listener [_startOfflineListener] registers for
    ["offlineEditEvent"]. *)
Definition onlineStatusHandler (type : string) (message : Message) : M unit :=
  match message with
  | MsgBool true =>
      if String.eqb type INTERNET_STATUS_EVENT then
        let* arr := try_catch _getTempLocalStore (fun _ => ret None) in
        match arr with
        | Some _ => _reestablishedInternet
        | None => ret tt
        end
      else ret tt
  | _ => ret tt
  end.

Definition _startOfflineListener : M unit :=
  let* listener := read _reestablishedInternetListener in
  if listener then ret tt else update (with_listener true).

Definition _dispatchEvent (msg : Message) (event : string) : M unit :=
  emit (Dispatch event msg) ;;
  let* listener := read _reestablishedInternetListener in
  if listener then called_by_browser (onlineStatusHandler event msg) else ret tt.

(** The handler [_offlineMonitor] registers with [Offline.on('up down')]. *)
Definition _offlineMonitor (up : bool) : M unit :=
  update (with_online up) ;;
  _dispatchEvent (MsgBool up) INTERNET_STATUS_EVENT.

(** *** The index of completed edits *)

Definition _indexObject_json (o : _indexObject) : json :=
  JObj (props [("id", Some (io_id o));
               ("layerId", Some (io_layerId o));
               ("type", io_type o);
               ("success", Some (JBool (io_success o)));
               ("geometryType", Some (JStr (io_geometryType o)));
               ("date", Some (JStr (io_date o)))]).

Definition _setItemLocalStoreIndexObject (indexObject : _indexObject) : M bool :=
  let mIndex := stringify (_indexObject_json indexObject) in
  let* localStore := getLocalStoreIndex in
  try_catch
    ((match localStore with
      | None => setItem INDEX_KEY (mIndex +:+ TOKEN)
      | Some a => setItem INDEX_KEY (Js.join "," a +:+ mIndex +:+ TOKEN)
      end) ;;
     _dispatchEvent (MsgIndex indexObject) INDEX_UPDATE_EVENT ;;
     ret true)
    (fun _ => ret false).

(** *** The callbacks of [layer.applyEdits] *)

(** The callback [_reestablishedInternet] passes to [_layerEditManager];
    [date] is the clock's reading. *)
Definition replay_callback (frame : nat) (num : Z) (success : bool) (id : json)
    (date : string) : M unit :=
  let* fr := read (fun w => frames w !! frame) in
  match fr with
  | Some {| fr_item := item; fr_graphic := Some graphic |} =>
      match geometry (dec_graphic graphic) with
      | Some g =>
          let indexObject :=
            {| io_id := id; io_layerId := dec_layer graphic;
               io_type := dec_enumValue graphic; io_success := success;
               io_geometryType := geometry_type g; io_date := date |} in
          let* deleteTempItem :=
            match item with
            | Some item => _deleteItemInLocalStore item
            | None => ret false
            end in
          let* _ := _setItemLocalStoreIndexObject indexObject in
          ret tt
      | None => throw TypeError
      end
  | _ => throw TypeError
  end.

Definition call_mCallback (mCallback : Callback) (num : Z) (success : bool)
    (id : json) (date : string) : M unit :=
  match mCallback with
  | CbLog => ret tt
  | CbReplay frame => replay_callback frame num success id date
  end.

(** The completion callback [_layerEditManager] gives to
    [layer.applyEdits]; a result array is [None] when [undefined]. *)
Definition on_complete (rq : Request)
    (addResult updateResult deleteResult : option (list EditResult))
    (date : string) : M unit :=
  let* count := read count in
  match rq_kind rq with
  | KDelete =>
      match deleteResult with
      | Some (r :: _) =>
          call_mCallback (rq_callback rq) count (er_success r) (er_objectId r) date
      | _ => ret tt
      end
  | KAdd =>
      match addResult with
      | Some (r :: _) =>
          call_mCallback (rq_callback rq) count (er_success r) (er_objectId r) date
      | _ => ret tt
      end
  | KUpdate =>
      match updateResult with
      | None => ret tt
      | Some u =>
          match deleteResult with
          | None => throw TypeError
          | Some [] => ret tt
          | Some (_ :: _) =>
              match u with
              | r :: _ =>
                  call_mCallback (rq_callback rq) count (er_success r)
                                 (er_objectId r) date
              | [] => throw TypeError
              end
          end
      end
  end.

(** The error callback: its argument list reads [deleteResult],
    [addResult] or [updateResult], none of which is in its scope. *)
Definition on_error (rq : Request) : M unit :=
  match rq_kind rq with
  | KDelete => throw ReferenceError
  | KAdd => throw ReferenceError
  | KUpdate => throw ReferenceError
  end.

(** The feature layer replies to the request at position [i]. *)
Definition take_request (i : nat) : M (option Request) :=
  fun w =>
    {| out := Ok (requests w !! i);
       world := with_requests (delete i (requests w)) w;
       effects := [] |}.

Definition backend_completes (i : nat)
    (addResult updateResult deleteResult : option (list EditResult))
    (date : string) : M unit :=
  let* rq := take_request i in
  match rq with
  | Some rq =>
      called_by_browser (on_complete rq addResult updateResult deleteResult date)
  | None => ret tt
  end.

Definition backend_fails (i : nat) : M unit :=
  let* rq := take_request i in
  match rq with
  | Some rq => called_by_browser (on_error rq)
  | None => ret tt
  end.

(** *** Adding to the temporary local store *)

(** The loop of [_updateExistingLocalStore]: some non-empty piece is
    [sub]. *)
Definition is_duplicate (sub : string) (split : list string) : bool :=
  existsb (fun item => Js.nonempty item && String.eqb sub item) split.

Definition _updateExistingLocalStore (serializedGraphic : string)
  : M _duplicateLocalStorageValue :=
  let* localStore := _getTempLocalStore in
  match localStore with
  | None => throw TypeError
  | Some localStore =>
      let split := Js.split TOKEN localStore in
      let sub := Js.drop_last 3 serializedGraphic in
      let dupeFlag := is_duplicate sub split in
      if dupeFlag then
        _dispatchEvent (MsgBool true) EDIT_EVENT_DUPLICATE ;;
        ret {| success := None; duplicate := Some true |}
      else
        let* setValue := _setTempLocalStore (localStore +:+ serializedGraphic) in
        ret {| success := Some setValue; duplicate := Some false |}
  end.

(** [callback(count, arg, id)]: calling [undefined] is a [TypeError]. *)
Definition call_callback (callback : Handler) (count : Z) (arg : CallbackArg)
    (id : Z) : M unit :=
  match callback with
  | Given => emit (CallerCallback count arg id)
  | Omitted => throw TypeError
  end.

Definition _addToLocalStore (graphic : Graphic) (layer : Layer)
    (enumValue : string) (callback : Handler) : M unit :=
  let* arr := _getTempLocalStore in
  let serializedGraphic := _serializeGraphic graphic layer enumValue in
  (match arr with
   | None =>
       let* setAttempt := _setTempLocalStore serializedGraphic in
       call_callback callback 0
         (ArgStored {| success := Some setAttempt; duplicate := Some false |}) 0
   | Some _ =>
       let* setItem := _updateExistingLocalStore serializedGraphic in
       call_callback callback 0 (ArgStored setItem) 0
   end) ;;
  emit (LayerAdd layer graphic).

(** *** Admission *)

Definition Qgt_bool (a b : Q) : bool := negb (Qle_bool a b).

Definition _applyEdits (internet : bool) (graphic : Graphic) (layer : Layer)
    (enumValue : string) (callback : Handler) : M unit :=
  let grSize := apprxGraphicSize graphic in
  let* mb := read getlocalStorageUsed in
  if Qgt_bool (grSize + mb) LOCAL_STORAGE_MAX_LIMIT then
    emit (Alert (GraphicTooBig grSize)) ;;
    call_callback callback 0 ArgFalse 0
  else if Qgt_bool mb LOCAL_STORAGE_MAX_LIMIT then
    emit (Alert AlmostOverLimit) ;;
    call_callback callback 0 ArgFalse 0
  else if negb internet then
    _addToLocalStore graphic layer enumValue callback ;;
    _startOfflineListener
  else
    _layerEditManager graphic (Some layer) (Some (JStr enumValue)) CbLog.

Definition applyEdits (graphic : Graphic) (layer : Layer) (enumValue : string)
    (callback : Handler) : M unit :=
  let* internet := read getInternet in
  _applyEdits internet graphic layer enumValue callback.

(** [getStore]. *)
Fixpoint getStore_from (graphicsArr : list Decoded) (split : list string)
  : result (list Decoded) :=
  match split with
  | [] => Ok graphicsArr
  | item :: split' =>
      if Js.nonempty item then
        rbind (_deserializeGraphic item) (fun graphic =>
        getStore_from (graphicsArr ++ [graphic]) split')
      else getStore_from graphicsArr split'
  end.

Definition getStore : M (option (list Decoded)) :=
  let* data := getItem STORAGE_KEY in
  match data with
  | Some data =>
      let* graphicsArr := lift (getStore_from [] (Js.split TOKEN data)) in
      ret (Some graphicsArr)
  | None => ret None
  end.

End OfflineStore.

(* ================================================================= *)
(** ** The object that the serializers print *)

Section SerializedObject.
Context {codec : AttributeCodec}.

(** The property [attributes] of that object: [null] when the graphic
    has no attributes, the codec's string, or [undefined] when the codec
    threw. *)
Definition attributes_field (graphic : Graphic) : jsval :=
  match attributes graphic with
  | JNull => Some JNull
  | a => try_hydrate_stringify a
  end.

(** The object with its properties assigned. *)
Definition record_json (graphic : Graphic) (layer : Layer) (enumValue : string)
  : json :=
  JObj (props [("layer", Some (layerId layer));
               ("enumValue", Some (JStr enumValue));
               ("geometry", Some (JStr (stringify_geometry (geometry graphic))));
               ("attributes", attributes_field graphic);
               ("date", Some JNull)]).

End SerializedObject.

(** The records of the pending queue as the loops see them: the non-empty
    pieces of the stored string. *)
Definition pending (w : World) : list string :=
  match localStorage w !! STORAGE_KEY with
  | Some data => filter (fun item => Js.nonempty item = true) (Js.split TOKEN data)
  | None => []
  end.

(* ================================================================= *)
(** ** The stored form of a queue *)

(** The string that holds the records [rs]: each followed by the token. *)
Fixpoint blob (rs : list string) : string :=
  match rs with
  | [] => ""
  | r :: rs' => r +:+ TOKEN +:+ blob rs'
  end.

(** [sep] occurs in [s]. *)
Fixpoint occurs (sep s : string) : bool :=
  String.prefix sep s
  || match s with
     | EmptyString => false
     | String _ s' => occurs sep s'
     end.

(** An occurrence of [sep] in [r +:+ sep] starts inside [r]: splitting
    [r +:+ sep] would not give back [r]. *)
Fixpoint starts_early (sep r : string) : bool :=
  match r with
  | EmptyString => false
  | String _ r' => String.prefix sep (r +:+ sep) || starts_early sep r'
  end.

(** A record the queue can hold as one piece: not empty, and delimited by
    the token that follows it. *)
Definition clean (r : string) : bool :=
  Js.nonempty r && negb (starts_early TOKEN r).

(** The world's queue is the records [rs]: the stored string is their
    [blob], or there is no stored string and no record. *)
Definition holds (w : World) (rs : list string) : Prop :=
  Forall (fun r => clean r = true) rs
  /\ (localStorage w !! STORAGE_KEY = Some (blob rs)
      \/ (rs = [] /\ localStorage w !! STORAGE_KEY = None)).

(** A write the substrate refused is among the effects. *)
Definition write_failed (es : list Effect) : bool :=
  existsb (fun e => match e with SetItem _ _ false => true | _ => false end) es.

(** The effects that touch [localStorage]. *)
Definition is_storage_effect (e : Effect) : bool :=
  match e with
  | SetItem _ _ _ | RemoveItem _ => true
  | _ => false
  end.

Definition storage_effects (es : list Effect) : list Effect :=
  filter (fun e => is_storage_effect e = true) es.

(** The effects by which [_applyEdits] turns an edit away. *)
Definition is_rejection (e : Effect) : bool :=
  match e with
  | Alert _ => true
  | CallerCallback _ ArgFalse _ => true
  | _ => false
  end.

(** What [_addToLocalStore] does after its store operation, whose
    outcome is [v]: it calls [callback] and then [layer.add], or throws
    at the call when there is no callback. *)
Definition reported (callback : Handler) (v : _duplicateLocalStorageValue)
    (layer : Layer) (graphic : Graphic) : list Effect :=
  match callback with
  | Given => [CallerCallback 0 (ArgStored v) 0; LayerAdd layer graphic]
  | Omitted => []
  end.

Definition returned (callback : Handler) : result unit :=
  match callback with
  | Given => Ok tt
  | Omitted => Throw TypeError
  end.

(** The alert of the second test of [_applyEdits]. *)
Definition is_almost_over_limit (e : Effect) : bool :=
  match e with
  | Alert AlmostOverLimit => true
  | _ => false
  end.

(* ================================================================= *)
(** ** What a computation leaves alone *)

(** [w'] has the storage of [w] and as many activations. *)
Definition same_store (w w' : World) : Prop :=
  localStorage w' = localStorage w /\ length (frames w') = length (frames w).

(** A computation that keeps the storage and the number of activations. *)
Definition keeps_store {A : Type} (m : M A) : Prop :=
  forall w, same_store w (world (m w)).

(** A computation that keeps what is stored under the queue's key. *)
Definition keeps_queue {A : Type} (m : M A) : Prop :=
  forall w, localStorage (world (m w)) !! STORAGE_KEY = localStorage w !! STORAGE_KEY.

(* ================================================================= *)
(** ** Values that [JSON.stringify] and [JSON.parse] carry faithfully *)

Fixpoint distinct (ks : list string) : bool :=
  match ks with
  | [] => true
  | k :: ks' => negb (existsb (String.eqb k) ks') && distinct ks'
  end.

(** The integers a JavaScript number holds exactly. *)
Definition safe_integer (n : Z) : bool :=
  Z.leb (- (2 ^ 53 - 1)) n && Z.leb n (2 ^ 53 - 1).

(** The numbers are those that JSON carries and the keys of every object
    are distinct. *)
Fixpoint well_formed (v : json) : bool :=
  match v with
  | JNull | JBool _ | JStr _ => true
  | JNum n => json_number n
  | JArr l => forallb well_formed l
  | JObj m => distinct (map fst m) && forallb (fun kv => well_formed (snd kv)) m
  end.

Definition well_formed_value (v : jsval) : bool :=
  match v with
  | Some j => well_formed j
  | None => true
  end.

Definition well_formed_geometry (g : Geometry) : bool :=
  match g with
  | Point x y sr =>
      well_formed_value x && well_formed_value y && well_formed_value (wkid sr)
  | Polyline paths sr => forallb well_formed paths && well_formed_value (wkid sr)
  | Polygon rings sr => forallb well_formed rings && well_formed_value (wkid sr)
  end.

(** The values that [JSON.parse] gives back from their string: a number
    that JSON carries, a boolean or [null].  A string does not come back
    as itself, nor does an array or an object. *)
Definition parses_back (v : json) : bool :=
  match v with
  | JNull | JBool _ => true
  | JNum x => json_number x
  | JStr _ | JArr _ | JObj _ => false
  end.

(** The number of nodes of a value: fuel enough to parse its text. *)
Fixpoint size (v : json) : nat :=
  match v with
  | JArr l => S (list_sum (map size l))
  | JObj m => S (list_sum (map (fun kv => size (snd kv)) m))
  | _ => 1
  end.

(** The text continues with a digit. *)
Definition starts_with_digit (s : string) : bool :=
  match s with
  | String c _ => is_digit c
  | EmptyString => false
  end.

(** The text continues a numeral. *)
Definition continues_numeral (s : string) : bool :=
  match s with
  | String c _ => is_digit c || Ascii.eqb c "." || Ascii.eqb c "e" || Ascii.eqb c "E"
  | EmptyString => false
  end.

(* ================================================================= *)
(** ** Queued edits and the calls of the replay *)

(** An edit as [applyEdits] receives it. *)
Record Edit : Type := {
  ed_graphic : Graphic;
  ed_layer : Layer;
  ed_enumValue : string
}.

Section Records.
Context {codec : AttributeCodec}.

(** The piece of the queue that holds the edit. *)
Definition record (e : Edit) : string :=
  _serializeGraphicNoToken (ed_graphic e) (ed_layer e) (ed_enumValue e).

(** The edit can be read back: its geometry is a well-formed Point,
    Polyline or Polygon, its layer identifier is an integer that a number
    holds exactly, the text the codec gives for its attributes parses, and
    its record does not contain the token.  [d] is what it reads back
    as. *)
Definition reads_back (e : Edit) (d : Decoded) : Prop :=
  exists g (n : Z),
    geometry (ed_graphic e) = Some g
    /\ well_formed_geometry g = true
    /\ layerId (ed_layer e) = JNum n
    /\ safe_integer n = true
    /\ JSON_parse (attributes_field (ed_graphic e)) = Ok (attributes (dec_graphic d))
    /\ occurs TOKEN (record e) = false
    /\ geometry (dec_graphic d) = Some g
    /\ dec_layer d = JNum n
    /\ dec_enumValue d = Some (JStr (ed_enumValue e)).

End Records.

(** The case of the [switch] of [_layerEditManager] that the value
    selects. *)
Definition kind_of (value : jsval) : option EditKind :=
  match value with
  | Some (JStr v) =>
      if String.eqb v DELETE then Some KDelete
      else if String.eqb v ADD then Some KAdd
      else if String.eqb v UPDATE then Some KUpdate
      else None
  | _ => None
  end.

(** [rq] is the call the replay in the activation [frame] makes for the
    decoded edit [d]: the operation is one of the three, and the layer of
    that identifier is among the feature layers. *)
Definition submits (w : World) (frame : nat) (d : Decoded) (rq : Request) : Prop :=
  kind_of (dec_enumValue d) = Some (rq_kind rq)
  /\ getGraphicsLayerById_from (Some (dec_layer d)) (layers w) = Some (rq_layer rq)
  /\ rq_graphic rq = dec_graphic d
  /\ rq_callback rq = CbReplay frame.

(** The world [w] during a replay that started in [w0]: storage and
    layers are those of [w0], the calls [rqs] were added, and the
    activation [frame] exists. *)
Definition submitted (w0 : World) (frame : nat) (rqs : list Request) (w : World)
  : Prop :=
  localStorage w = localStorage w0
  /\ layers w = layers w0
  /\ requests w = requests w0 ++ rqs
  /\ frame < length (frames w).

(** The effects by which [_addToLocalStore] tells its caller and the
    layer. *)
Definition is_notification (e : Effect) : bool :=
  match e with
  | CallerCallback _ _ _ | LayerAdd _ _ => true
  | _ => false
  end.

(* ================================================================= *)
(** ** The code of OfflineStore: the index and its lookups *)

(** [v.hasOwnProperty(k)] for a name [k] that is neither an array index
    nor ["length"]: only an object has such properties of its own, and
    [null] has no methods. *)
Definition hasOwnProperty (v : json) (k : string) : result bool :=
  match v with
  | JNull => Throw TypeError
  | JObj m => Ok (match obj_get k m with Some _ => true | None => false end)
  | _ => Ok false
  end.

(** The loop of [_isItemTempLocalStore], [_isItemLocalStoreIndex] and
    [_getItemLocalStoreIndex]: the first parsed piece that has an [id]
    equal to [objectId].  Every piece is parsed, the empty ones too; the
    test on [typeof item] always holds. *)
Fixpoint index_find (objectId : jsval) (split : list string) : result (option json) :=
  match split with
  | [] => Ok None
  | piece :: split' =>
      rbind (JSON_parse (Some (JStr piece))) (fun item =>
      rbind (hasOwnProperty item "id") (fun own =>
      rbind (if own
             then rbind (get (Some item) "id") (fun id => Ok (loose_eq id objectId))
             else Ok false) (fun found =>
      if found then Ok (Some item) else index_find objectId split')))
  end.

Section OfflineStoreIndex.
Context {substrate : Substrate}.

(** [_isItemTempLocalStore] reads the index, as [_isItemLocalStoreIndex]
    does. *)
Definition _isItemTempLocalStore (objectId : jsval) : M bool :=
  let* localStore := getItem INDEX_KEY in
  match localStore with
  | Some localStore =>
      let* item := lift (index_find objectId (Js.split TOKEN localStore)) in
      ret (match item with Some _ => true | None => false end)
  | None => ret false
  end.

Definition _isItemLocalStoreIndex (objectId : jsval) : M bool :=
  let* localStore := getItem INDEX_KEY in
  match localStore with
  | Some localStore =>
      let* item := lift (index_find objectId (Js.split TOKEN localStore)) in
      ret (match item with Some _ => true | None => false end)
  | None => ret false
  end.

(** [None] is [null]. *)
Definition _getItemLocalStoreIndex (objectId : jsval) : M (option json) :=
  let* localStore := getItem INDEX_KEY in
  match localStore with
  | Some localStore => lift (index_find objectId (Js.split TOKEN localStore))
  | None => ret None
  end.

Definition _deleteLocalStoreIndex : M bool :=
  removeItem INDEX_KEY ;; ret true.

End OfflineStoreIndex.

(** The index holds the texts [ms]: nothing is stored when there is none;
    otherwise the stored string is the texts joined by commas and followed
    by the token, and splits into that one piece. *)
Definition index_holds (w : World) (ms : list string) : Prop :=
  match ms with
  | [] => localStorage w !! INDEX_KEY = None
  | _ :: _ =>
      localStorage w !! INDEX_KEY = Some (Js.join "," ms +:+ TOKEN)
      /\ clean (Js.join "," ms) = true
  end.

(* ================================================================= *)
(** ** The code of OfflineStore: removal by object identifier *)



Section OfflineStoreObjectId.
Context {substrate : Substrate}.


End OfflineStoreObjectId.

(* ================================================================= *)
(** ** The code of OfflineStore: initialisation *)

(** [String.prototype.toLowerCase] on 8-bit characters: the letters [A]
    to [Z] and the capital letters of Latin-1 move by 32. *)
Definition lower (c : ascii) : ascii :=
  let n := nat_of_ascii c in
  if (Nat.leb 65 n && Nat.leb n 90)
     || (Nat.leb 192 n && Nat.leb n 222 && negb (Nat.eqb n 215))
  then ascii_of_nat (n + 32)
  else c.

Fixpoint toLowerCase (s : string) : string :=
  match s with
  | EmptyString => EmptyString
  | String c s' => String (lower c) (toLowerCase s')
  end.

(** A layer of the map as [_parseFeatureLayers] reads it: its own
    property [type] ([None] when it has none), what [isEditable()]
    returns, and the layer as the rest of the code uses it. *)
Record MapLayer : Type := {
  ml_type : jsval;
  ml_isEditable : bool;
  ml_layer : Layer
}.

(** The map: [graphicsLayerIds] and [getLayer], which returns
    [undefined] for an identifier it does not know. *)
Record Map : Type := {
  graphicsLayerIds : list string;
  getLayer : string -> option MapLayer
}.

(** What one turn of the loop of [_parseFeatureLayers] does: it pushes
    the layer, passes, or raises an exception (a [TypeError], or the
    string the [else] branch throws), which the [catch] around the loop
    takes. *)
Inductive Turn : Type :=
| Push (l : Layer)
| Pass
| Raise.

Definition parse_layer (layer : option MapLayer) : Turn :=
  match layer with
  | None => Raise
  | Some layer =>
      match ml_type layer with
      | Some (JStr type) =>
          if String.eqb (toLowerCase type) "feature layer"
          then if ml_isEditable layer then Push (ml_layer layer) else Pass
          else Raise
      | Some _ => Raise
      | None => Raise
      end
  end.

Fixpoint _parseFeatureLayers_from (map : Map) (layerIds : list string)
    (layers : list Layer) : list Layer :=
  match layerIds with
  | [] => layers
  | i :: layerIds' =>
      match parse_layer (getLayer map i) with
      | Push l => _parseFeatureLayers_from map layerIds' (layers ++ [l])
      | Pass => _parseFeatureLayers_from map layerIds' layers
      | Raise => layers
      end
  end.

Definition with_layers (ls : list Layer) (w : World) : World :=
  {| localStorage := localStorage w; layers := ls; online := online w;
     _reestablishedInternetListener := _reestablishedInternetListener w;
     count := count w; frames := frames w; requests := requests w |}.

Definition _parseFeatureLayers (map : Map) : M unit :=
  update (fun w =>
    with_layers (_parseFeatureLayers_from map (graphicsLayerIds map) (layers w)) w).

(** The function [_init] hands to [_loadScripts], which the browser
    calls once the required libraries are loaded; [Offline] is an object
    by then. *)
Definition _init (map : Map) : M unit :=
  called_by_browser
    (_parseFeatureLayers map ;;
     let* arr := _getTempLocalStore in
     let* internet := read getInternet in
     match arr with
     | Some _ => if internet then _reestablishedInternet else _startOfflineListener
     | None => ret tt
     end).

(** The layer a turn of the loop pushes, if any. *)
Definition pushed (map : Map) (i : string) : option Layer :=
  match parse_layer (getLayer map i) with
  | Push l => Some l
  | _ => None
  end.

(* ================================================================= *)
(** ** Auxiliary definitions of the proofs about [split] *)

(** No occurrence of [sep] in [cur +:+ s] starts inside [cur]. *)
Fixpoint no_start (sep cur s : string) : bool :=
  match cur with
  | EmptyString => true
  | String _ cur' => negb (String.prefix sep (cur +:+ s)) && no_start sep cur' s
  end.

(* ================================================================= *)
(** ** Auxiliary definitions of the proofs about [JSON.parse] *)

(** An induction principle that reaches the values inside arrays and
    objects. *)
Section JsonInduction.
Variable P : json -> Prop.
Hypothesis Hnull : P JNull.
Hypothesis Hbool : forall b, P (JBool b).
Hypothesis Hnum : forall n, P (JNum n).
Hypothesis Hstr : forall s, P (JStr s).
Hypothesis Harr : forall l, Forall P l -> P (JArr l).
Hypothesis Hobj : forall m, Forall (fun kv => P (snd kv)) m -> P (JObj m).

Fixpoint json_induction (v : json) : P v :=
  match v with
  | JNull => Hnull
  | JBool b => Hbool b
  | JNum n => Hnum n
  | JStr s => Hstr s
  | JArr l =>
      Harr l ((fix go (l : list json) : Forall P l :=
                 match l with
                 | [] => Forall_nil_2 P
                 | v :: l' => Forall_cons_2 P v l' (json_induction v) (go l')
                 end) l)
  | JObj m =>
      Hobj m ((fix go (m : list (string * json)) : Forall (fun kv => P (snd kv)) m :=
                 match m with
                 | [] => Forall_nil_2 _
                 | kv :: m' =>
                     Forall_cons_2 (fun kv => P (snd kv)) kv m'
                                   (json_induction (snd kv)) (go m')
                 end) m)
  end.
End JsonInduction.

(** The text of one member of an object. *)
Definition member_text (kv : string * json) : string :=
  quote (fst kv) +:+ ":" +:+ stringify (snd kv).

(** The elements after the first, each behind its comma. *)
Fixpoint sep_concat (xs : list string) : string :=
  match xs with
  | [] => ""
  | x :: xs' => "," +:+ x +:+ sep_concat xs'
  end.

(** The text [s] ends with [rest], and the character before [rest] is
    not a bar. *)
Definition reads_to (s rest : string) : Prop :=
  exists pre c, s = pre +:+ String c rest /\ Ascii.eqb c "|" = false.

Definition suffix_of (rest s : string) : Prop := exists pre, s = pre +:+ rest.

Fixpoint ends_with_bar (s : string) : bool :=
  match s with
  | EmptyString => false
  | String c EmptyString => Ascii.eqb c "|"
  | String _ s' => ends_with_bar s'
  end.

(** [parse_value] with [fuel] reads back the text of [v], whatever
    follows it, unless that continues a numeral. *)
Definition parses (fuel : nat) (v : json) : Prop :=
  forall rest, continues_numeral rest = false ->
    parse_value fuel (stringify v +:+ rest) = Some (v, rest).

(* ================================================================= *)
(** ** Sample collaborators, graphics and worlds *)

Module Sample.

(** A substrate that accepts every write, and one that refuses every
    write (storage disabled or full). *)
Definition accepting : Substrate := {| accepts := fun _ _ _ => true |}.
Definition refusing : Substrate := {| accepts := fun _ _ _ => false |}.

(** Attributes that are plain data: the codec's text is their JSON text. *)
Definition json_codec : AttributeCodec :=
  {| hydrate_stringify := fun a => Some (stringify a) |}.

(** Every graphic is estimated at 0.01 MB. *)
Definition small_graphics : OfflineUtils :=
  {| apprxGraphicSize := fun _ => 0.01%Q |}.

Definition web_mercator : SpatialReference := {| wkid := Some (JNum 102100) |}.

Definition hydrant : Graphic :=
  {| geometry := Some (Point (Some (JNum (-13046162))) (Some (JNum 4036345)) web_mercator);
     attributes := JObj [("name", JStr "hydrant")] |}.

Definition valve : Graphic :=
  {| geometry := Some (Point (Some (JNum (-13046170))) (Some (JNum 4036350)) web_mercator);
     attributes := JObj [("name", JStr "valve")] |}.

Definition parcel : Graphic :=
  {| geometry :=
       Some (Polygon [JArr [JArr [JNum 0; JNum 0]; JArr [JNum 10; JNum 0];
                            JArr [JNum 10; JNum 10]; JArr [JNum 0; JNum 0]]]
                     web_mercator);
     attributes := JNull |}.

(** A graphic whose attribute text contains the delimiter. *)
Definition tagged : Graphic :=
  {| geometry := Some (Point (Some (JNum 1)) (Some (JNum 2)) web_mercator);
     attributes := JObj [("note", JStr "a|||b")] |}.

Definition layer0 : Layer := {| layerId := JNum 0 |}.
Definition layer7 : Layer := {| layerId := JNum 7 |}.
Definition roads : Layer := {| layerId := JStr "roads" |}.

(** Offline, nothing stored, one editable feature layer. *)
Definition fresh : World :=
  {| localStorage := ∅; layers := [layer0]; online := false;
     _reestablishedInternetListener := false; count := 3;
     frames := []; requests := [] |}.

(** Another key of the same origin holds 2621440 characters: 5 MB. *)
Definition crowded : World :=
  {| localStorage := {["otherApp" := N.iter 2621440 (String "a"%char) ""]};
     layers := [layer0]; online := false;
     _reestablishedInternetListener := false; count := 3;
     frames := []; requests := [] |}.

Definition added (objectId : Z) (ok : bool) : option (list EditResult) :=
  Some [{| er_success := ok; er_objectId := JNum objectId |}].

Definition none : option (list EditResult) := Some [].

Definition noon : string := "2014-03-01T12:00:00.000Z".

(** The record of a graphic of [layer0] to add, without the token. *)
Definition valve_record : string :=
  @_serializeGraphicNoToken json_codec valve layer0 ADD.
Definition hydrant_record : string :=
  @_serializeGraphicNoToken json_codec hydrant layer0 ADD.

(** The queue after [valve] was added offline to the fresh store. *)
Definition one_queued : World :=
  world (@_addToLocalStore accepting json_codec valve layer0 ADD Given fresh).

(** The queue after one edit was made offline. *)
Definition queued (graphic : Graphic) (layer : Layer) (enumValue : string) : World :=
  world (@applyEdits accepting json_codec small_graphics graphic layer enumValue Given fresh).

(** The queue after [hydrant] and then [valve] were edited offline. *)
Definition two_queued : World :=
  world (@applyEdits accepting json_codec small_graphics valve layer0 ADD Given
           (queued hydrant layer0 ADD)).

(** The outcome record of an added point of [layer0], as the replay
    callback builds it. *)
Definition outcome (id : Z) (ok : bool) : _indexObject :=
  {| io_id := JNum id; io_layerId := JNum 0; io_type := Some (JStr ADD);
     io_success := ok; io_geometryType := "point"; io_date := noon |}.

(** A row of a table: attributes and no geometry. *)
Definition table_row : Graphic :=
  {| geometry := None; attributes := JObj [("objectid", JNum 12)] |}.

(** The edits behind [two_queued], and what they read back as. *)
Definition hydrant_edit : Edit :=
  {| ed_graphic := hydrant; ed_layer := layer0; ed_enumValue := ADD |}.
Definition valve_edit : Edit :=
  {| ed_graphic := valve; ed_layer := layer0; ed_enumValue := ADD |}.
Definition row_edit : Edit :=
  {| ed_graphic := table_row; ed_layer := layer0; ed_enumValue := DELETE |}.

Definition decoded (e : Edit) : Decoded :=
  {| dec_graphic := ed_graphic e; dec_layer := layerId (ed_layer e);
     dec_enumValue := Some (JStr (ed_enumValue e)) |}.

(** The call the replay makes for an edit of [layer0] in the first
    activation. *)
Definition call (kind : EditKind) (graphic : Graphic) : Request :=
  {| rq_kind := kind; rq_layer := layer0; rq_graphic := graphic;
     rq_callback := CbReplay 0 |}.

(** The index after one outcome was recorded, and after a second. *)
Definition recorded : World :=
  world (@_setItemLocalStoreIndexObject accepting (outcome 101 true) fresh).
Definition recorded_twice : World :=
  world (@_setItemLocalStoreIndexObject accepting (outcome 102 true) recorded).

Definition outcome_text (id : Z) (ok : bool) : string :=
  stringify (_indexObject_json (outcome id ok)).

(** A graphic that the server knows: its attributes carry an
    [objectid]. *)
Definition meter : Graphic :=
  {| geometry := Some (Point (Some (JNum 5)) (Some (JNum 6)) web_mercator);
     attributes := JObj [("objectid", JNum 12)] |}.

Definition meter_edit : Edit :=
  {| ed_graphic := meter; ed_layer := layer0; ed_enumValue := UPDATE |}.






(** A surveyed point, with fractional coordinates (-13046162.5,
    4036345.25), and the queue after it and then [valve] were added
    offline. *)
Definition survey : Graphic :=
  {| geometry := Some (Point (Some (JNum (Finite true "130461625" 8)))
                             (Some (JNum (Finite false "403634525" 7))) web_mercator);
     attributes := JObj [("name", JStr "survey")] |}.

Definition survey_edit : Edit :=
  {| ed_graphic := survey; ed_layer := layer0; ed_enumValue := ADD |}.

Definition surveyed : World :=
  world (@applyEdits accepting json_codec small_graphics valve layer0 ADD Given
           (queued survey layer0 ADD)).



(** [valve] added offline after [tagged], whose record contains the
    token. *)
Definition tagged_queue : World :=
  world (@applyEdits accepting json_codec small_graphics valve layer0 ADD Given
           (queued tagged layer0 ADD)).

(** [valve] added offline on a layer the store does not know, between
    two edits of [layer0]. *)
Definition valve7_edit : Edit :=
  {| ed_graphic := valve; ed_layer := layer7; ed_enumValue := ADD |}.

Definition detour : World :=
  world (@applyEdits accepting json_codec small_graphics meter layer0 UPDATE Given
           (world (@applyEdits accepting json_codec small_graphics valve layer7 ADD Given
                     (queued hydrant layer0 ADD)))).

(** A map with an editable feature layer, a read-only one, a graphics
    layer, which has no [type], and another editable feature layer
    behind it. *)
Definition feature (editable : bool) (l : Layer) : MapLayer :=
  {| ml_type := Some (JStr "Feature Layer"); ml_isEditable := editable;
     ml_layer := l |}.

Definition sketch : MapLayer :=
  {| ml_type := None; ml_isEditable := false; ml_layer := roads |}.

Definition town : Map :=
  {| graphicsLayerIds := ["hydrants"; "mains"; "sketch"; "roads"];
     getLayer := fun i =>
       if String.eqb i "hydrants" then Some (feature true layer0)
       else if String.eqb i "mains" then Some (feature false layer7)
       else if String.eqb i "sketch" then Some sketch
       else if String.eqb i "roads" then Some (feature true roads)
       else None |}.

(** A new session, online, over the queue of [two_queued]: no layer is
    registered yet. *)
Definition restart : World := with_layers [] (with_online true two_queued).

(** [parcel] deleted offline after [hydrant] was added. *)
Definition parcel_removal : Edit :=
  {| ed_graphic := parcel; ed_layer := layer0; ed_enumValue := DELETE |}.

Definition mixed : World :=
  world (@applyEdits accepting json_codec small_graphics parcel layer0 DELETE Given
           (queued hydrant layer0 ADD)).

End Sample.
(* ================================================================= *)
(** * Facts about strings *)

Import Sample.

Lemma str_app_nil_l (s : string) : "" +:+ s = s.
Proof. reflexivity. Qed.

Lemma str_app_cons (c : ascii) (s t : string) : String c s +:+ t = String c (s +:+ t).
Proof. reflexivity. Qed.

Lemma str_app_nil_r (s : string) : s +:+ "" = s.
Proof. induction s as [|c s IH]; [reflexivity|]. rewrite str_app_cons, IH. reflexivity. Qed.

Lemma str_app_assoc (s t u : string) : (s +:+ t) +:+ u = s +:+ (t +:+ u).
Proof. induction s as [|c s IH]; [reflexivity|]. rewrite !str_app_cons, IH. reflexivity. Qed.

Lemma str_length_app (s t : string) :
  String.length (s +:+ t) = String.length s + String.length t.
Proof. induction s as [|c s IH]; [reflexivity|]. rewrite str_app_cons. simpl. rewrite IH. reflexivity. Qed.

Lemma str_substring_app (s t : string) : String.substring 0 (String.length s) (s +:+ t) = s.
Proof.
  induction s as [|c s IH].
  - destruct t; reflexivity.
  - rewrite str_app_cons. simpl. rewrite IH. reflexivity.
Qed.

Lemma str_prefix_app (s t : string) : String.prefix s (s +:+ t) = true.
Proof.
  induction s as [|c s IH]; [destruct t; reflexivity|].
  rewrite str_app_cons. simpl. destruct (ascii_dec c c); [exact IH|congruence].
Qed.

Lemma str_prefix_cons (a b : ascii) (p s : string) :
  String.prefix (String a p) (String b s) = Ascii.eqb a b && String.prefix p s.
Proof.
  cbn [String.prefix]. destruct (ascii_dec a b) as [->|Hne].
  - rewrite Ascii.eqb_refl. reflexivity.
  - apply Ascii.eqb_neq in Hne. rewrite Hne. reflexivity.
Qed.

(** A prefix test looks at no more characters than the prefix has. *)
Lemma str_prefix_app_long (p s t : string) :
  String.length p <= String.length s ->
  String.prefix p (s +:+ t) = String.prefix p s.
Proof.
  revert s. induction p as [|a p IH]; intros s Hlen.
  - destruct s; simpl; [destruct t|]; reflexivity.
  - destruct s as [|b s]; simpl in Hlen; [lia|].
    rewrite str_app_cons. simpl. destruct (ascii_dec a b); [|reflexivity].
    apply IH. lia.
Qed.

(** ** [split] *)


Lemma split_from_skip (sep x cur rest : string) :
  Js.split_from sep (String.length x) cur (x +:+ rest) = Js.split_from sep 0 cur rest.
Proof.
  induction x as [|c x IH].
  - destruct rest; reflexivity.
  - rewrite str_app_cons. simpl. exact IH.
Qed.

Lemma split_from_piece (sep r cur rest : string) :
  sep <> "" ->
  starts_early sep r = false ->
  Js.split_from sep 0 cur (r +:+ sep +:+ rest)
  = (cur +:+ r) :: Js.split_from sep 0 "" rest.
Proof.
  intros Hsep. revert cur. induction r as [|c r IH]; intros cur Hr.
  - rewrite str_app_nil_l, str_app_nil_r.
    destruct sep as [|a sep]; [congruence|].
    rewrite str_app_cons. cbn [Js.split_from].
    rewrite <- str_app_cons, str_prefix_app. f_equal.
    replace (String.length (String a sep) - 1) with (String.length sep) by (simpl; lia).
    apply split_from_skip.
  - cbn [starts_early] in Hr. apply orb_false_elim in Hr as [Hp Hr].
    rewrite str_app_cons. cbn [Js.split_from]. rewrite <- str_app_cons.
    rewrite <- str_app_assoc, str_prefix_app_long, Hp.
    2:{ rewrite str_length_app. lia. }
    rewrite (IH _ Hr). f_equal.
    rewrite str_app_assoc. reflexivity.
Qed.

Lemma split_piece (r rest : string) :
  starts_early TOKEN r = false ->
  Js.split TOKEN (r +:+ TOKEN +:+ rest) = r :: Js.split TOKEN rest.
Proof.
  intros Hr. unfold Js.split.
  rewrite split_from_piece by (try assumption; discriminate).
  reflexivity.
Qed.

Lemma clean_nonempty (r : string) : clean r = true -> Js.nonempty r = true.
Proof. unfold clean. intros H. apply andb_true_iff in H. tauto. Qed.

Lemma clean_starts_early (r : string) : clean r = true -> starts_early TOKEN r = false.
Proof.
  unfold clean. intros H. apply andb_true_iff in H as [_ H].
  apply negb_true_iff in H. exact H.
Qed.

(** ** The stored form of a queue *)

Lemma split_blob (rs : list string) :
  Forall (fun r => clean r = true) rs ->
  Js.split TOKEN (blob rs) = rs ++ [""].
Proof.
  induction 1 as [|r rs Hr _ IH]; [reflexivity|].
  cbn [blob]. rewrite split_piece by (apply clean_starts_early, Hr).
  rewrite IH. reflexivity.
Qed.

Lemma blob_app (rs rs' : list string) : blob (rs ++ rs') = blob rs +:+ blob rs'.
Proof.
  induction rs as [|r rs IH]; [reflexivity|].
  cbn [blob app]. rewrite IH, !str_app_assoc. reflexivity.
Qed.

Lemma blob_snoc (rs : list string) (r : string) :
  blob (rs ++ [r]) = blob rs +:+ r +:+ TOKEN.
Proof. rewrite blob_app. cbn [blob]. rewrite str_app_nil_r. reflexivity. Qed.

Lemma filter_nonempty_clean (rs : list string) :
  Forall (fun r => clean r = true) rs ->
  filter (fun item => Js.nonempty item = true) (rs ++ [""]) = rs.
Proof.
  induction 1 as [|r rs Hr _ IH]; [reflexivity|].
  cbn [app]. rewrite filter_cons_True by (apply clean_nonempty, Hr).
  rewrite IH. reflexivity.
Qed.

Lemma pending_stored (w : World) (rs : list string) :
  Forall (fun r => clean r = true) rs ->
  localStorage w !! STORAGE_KEY = Some (blob rs) ->
  pending w = rs.
Proof.
  intros Hrs Hst. unfold pending. rewrite Hst, split_blob by assumption.
  apply filter_nonempty_clean, Hrs.
Qed.

Lemma pending_holds (w : World) (rs : list string) : holds w rs -> pending w = rs.
Proof.
  intros [Hrs [Hst | [-> Hst]]].
  - apply pending_stored; assumption.
  - unfold pending. rewrite Hst. reflexivity.
Qed.

Lemma drop_last_token (s : string) : Js.drop_last 3 (s +:+ TOKEN) = s.
Proof.
  unfold Js.drop_last. rewrite str_length_app.
  replace (String.length s + String.length TOKEN - 3) with (String.length s)
    by (simpl; lia).
  apply str_substring_app.
Qed.

(** A text that ends with a closing brace and does not contain the token
    is delimited by the token that follows it. *)
Lemma starts_early_brace (s : string) :
  occurs TOKEN (s +:+ "}") = false -> starts_early TOKEN (s +:+ "}") = false.
Proof.
  induction s as [|c s IH]; intros Hocc; [reflexivity|].
  rewrite str_app_cons in *. cbn [occurs starts_early] in *.
  apply orb_false_elim in Hocc as [Hp Hocc].
  rewrite (IH Hocc), orb_false_r.
  destruct s as [|c2 s].
  - clear. rewrite str_app_nil_l. unfold TOKEN. rewrite !str_app_cons, str_app_nil_l.
    rewrite !str_prefix_cons. cbn. apply andb_false_r.
  - rewrite str_prefix_app_long; [exact Hp|].
    rewrite str_app_cons. cbn [String.length]. rewrite str_length_app. simpl. lia.
Qed.

Lemma clean_brace (s : string) :
  occurs TOKEN (s +:+ "}") = false -> clean (s +:+ "}") = true.
Proof.
  intros H. unfold clean. rewrite (starts_early_brace _ H).
  destruct s; reflexivity.
Qed.

Lemma stringify_object_brace (m : list (string * json)) :
  exists s, stringify (JObj m) = s +:+ "}".
Proof.
  cbn [stringify]. eexists. rewrite <- str_app_assoc. reflexivity.
Qed.

Lemma clean_object (m : list (string * json)) :
  occurs TOKEN (stringify (JObj m)) = false -> clean (stringify (JObj m)) = true.
Proof.
  destruct (stringify_object_brace m) as [s ->]. apply clean_brace.
Qed.

Section Facts.
Context {substrate : Substrate} {codec : AttributeCodec} {utils : OfflineUtils}.

Lemma serialized_clean (graphic : Graphic) (layer : Layer) (enumValue : string) :
  occurs TOKEN (_serializeGraphicNoToken graphic layer enumValue) = false ->
  clean (_serializeGraphicNoToken graphic layer enumValue) = true.
Proof. apply clean_object. Qed.

(** Both serializers print the object [record_json]. *)
Lemma serialize_text (graphic : Graphic) (layer : Layer) (enumValue : string) :
  _serializeGraphicNoToken graphic layer enumValue
  = stringify (record_json graphic layer enumValue).
Proof.
  unfold _serializeGraphicNoToken, record_json, attributes_field.
  destruct (attributes graphic); reflexivity.
Qed.

Lemma serialize_token_text (graphic : Graphic) (layer : Layer) (enumValue : string) :
  _serializeGraphic graphic layer enumValue
  = stringify (record_json graphic layer enumValue) +:+ TOKEN.
Proof.
  unfold _serializeGraphic, record_json, attributes_field.
  destruct (attributes graphic); reflexivity.
Qed.

(** ** Runs *)

Lemma run_eta {A : Type} (r : Run A) :
  r = {| out := out r; world := world r; effects := effects r |}.
Proof. destruct r; reflexivity. Qed.

Lemma bind_ok {A B : Type} (m : M A) (f : A -> M B) (w w1 : World) (a : A)
    (e1 : list Effect) :
  m w = {| out := Ok a; world := w1; effects := e1 |} ->
  bind m f w
  = {| out := out (f a w1); world := world (f a w1);
       effects := e1 ++ effects (f a w1) |}.
Proof. intros H. unfold bind. rewrite H. reflexivity. Qed.

Lemma bind_ok_then {A B : Type} (m : M A) (f : A -> M B) (w w1 w2 : World) (a : A)
    (e1 e2 : list Effect) (o : result B) :
  m w = {| out := Ok a; world := w1; effects := e1 |} ->
  f a w1 = {| out := o; world := w2; effects := e2 |} ->
  bind m f w = {| out := o; world := w2; effects := e1 ++ e2 |}.
Proof. intros H1 H2. rewrite (bind_ok _ _ _ _ _ _ H1), H2. reflexivity. Qed.

Lemma bind_throw {A B : Type} (m : M A) (f : A -> M B) (w w1 : World) (e : exn)
    (e1 : list Effect) :
  m w = {| out := Throw e; world := w1; effects := e1 |} ->
  bind m f w = {| out := Throw e; world := w1; effects := e1 |}.
Proof. intros H. unfold bind. rewrite H. reflexivity. Qed.

Lemma run_getItem (key : string) (w : World) :
  getItem key w = {| out := Ok (localStorage w !! key); world := w; effects := [] |}.
Proof. reflexivity. Qed.

Lemma run_removeItem (key : string) (w : World) :
  removeItem key w
  = {| out := Ok tt; world := with_localStorage (delete key (localStorage w)) w;
       effects := [RemoveItem key] |}.
Proof. reflexivity. Qed.

(** ** Runs of the storage operations *)

Lemma run_setTemp_accepted (w : World) (v : string) :
  accepts (localStorage w) STORAGE_KEY v = true ->
  _setTempLocalStore v w
  = {| out := Ok true;
       world := with_localStorage (<[STORAGE_KEY := v]> (localStorage w)) w;
       effects := [SetItem STORAGE_KEY v true] |}.
Proof.
  intros H. unfold _setTempLocalStore, try_catch, bind, setItem, ret.
  rewrite H. reflexivity.
Qed.

Lemma run_setTemp_refused (w : World) (v : string) :
  accepts (localStorage w) STORAGE_KEY v = false ->
  _setTempLocalStore v w
  = {| out := Ok false; world := w; effects := [SetItem STORAGE_KEY v false] |}.
Proof.
  intros H. unfold _setTempLocalStore, try_catch, bind, setItem, ret.
  rewrite H. reflexivity.
Qed.

Lemma run_dispatch_duplicate (w : World) :
  _dispatchEvent (MsgBool true) EDIT_EVENT_DUPLICATE w
  = {| out := Ok tt; world := w;
       effects := [Dispatch EDIT_EVENT_DUPLICATE (MsgBool true)] |}.
Proof.
  unfold _dispatchEvent, bind, emit, read. cbn [out world effects].
  destruct (_reestablishedInternetListener w); reflexivity.
Qed.

Lemma is_duplicate_absent (j : string) (rs : list string) :
  j ∉ rs -> is_duplicate j (rs ++ [""]) = false.
Proof.
  intros Hj. unfold is_duplicate. rewrite existsb_app. cbn. rewrite orb_false_r.
  rewrite <- not_true_iff_false, existsb_exists. intros (x & Hx & Hb).
  apply andb_true_iff in Hb as [_ Hb]. apply String.eqb_eq in Hb. subst x.
  apply Hj, list_elem_of_In, Hx.
Qed.

Lemma is_duplicate_present (j : string) (rs : list string) :
  Js.nonempty j = true -> j ∈ rs -> is_duplicate j (rs ++ [""]) = true.
Proof.
  intros Hne Hj. unfold is_duplicate. rewrite existsb_app.
  apply orb_true_iff. left. apply existsb_exists. exists j. split.
  - apply list_elem_of_In, Hj.
  - rewrite Hne, String.eqb_refl. reflexivity.
Qed.

Lemma run_update_new (w : World) (rs : list string) (j : string) (b : bool)
    (w1 : World) (e1 : list Effect) :
  Forall (fun r => clean r = true) rs ->
  localStorage w !! STORAGE_KEY = Some (blob rs) ->
  j ∉ rs ->
  _setTempLocalStore (blob rs +:+ j +:+ TOKEN) w
  = {| out := Ok b; world := w1; effects := e1 |} ->
  _updateExistingLocalStore (j +:+ TOKEN) w
  = {| out := Ok {| success := Some b; duplicate := Some false |};
       world := w1; effects := e1 |}.
Proof.
  intros Hrs Hst Hj Hset. unfold _updateExistingLocalStore, _getTempLocalStore.
  rewrite (bind_ok _ _ _ _ _ _ (run_getItem _ _)), Hst.
  rewrite drop_last_token, split_blob by assumption.
  fold (is_duplicate j (rs ++ [""])). rewrite is_duplicate_absent by assumption.
  rewrite (bind_ok _ _ _ _ _ _ Hset). cbn. rewrite app_nil_r. reflexivity.
Qed.

Lemma run_update_duplicate (w : World) (rs : list string) (j : string) :
  Forall (fun r => clean r = true) rs ->
  localStorage w !! STORAGE_KEY = Some (blob rs) ->
  j ∈ rs ->
  _updateExistingLocalStore (j +:+ TOKEN) w
  = {| out := Ok {| success := None; duplicate := Some true |};
       world := w;
       effects := [Dispatch EDIT_EVENT_DUPLICATE (MsgBool true)] |}.
Proof.
  intros Hrs Hst Hj. unfold _updateExistingLocalStore, _getTempLocalStore.
  rewrite (bind_ok _ _ _ _ _ _ (run_getItem _ _)), Hst.
  rewrite drop_last_token, split_blob by assumption.
  fold (is_duplicate j (rs ++ [""])). rewrite is_duplicate_present; [| |assumption].
  2:{ apply clean_nonempty. rewrite Forall_forall in Hrs.
      apply Hrs, Hj. }
  rewrite (bind_ok _ _ _ _ _ _ (run_dispatch_duplicate _)). reflexivity.
Qed.

(** [_addToLocalStore], once the outcome of its store operation is known. *)
Lemma run_add_existing (w : World) (graphic : Graphic) (layer : Layer)
    (enumValue localStore : string) (callback : Handler)
    (v : _duplicateLocalStorageValue) (w1 : World) (e1 : list Effect) :
  localStorage w !! STORAGE_KEY = Some localStore ->
  _updateExistingLocalStore (_serializeGraphic graphic layer enumValue) w
  = {| out := Ok v; world := w1; effects := e1 |} ->
  _addToLocalStore graphic layer enumValue callback w
  = {| out := returned callback; world := w1;
       effects := e1 ++ reported callback v layer graphic |}.
Proof.
  intros Hst H. unfold _addToLocalStore, _getTempLocalStore.
  rewrite (bind_ok _ _ _ _ _ _ (run_getItem _ _)), Hst.
  unfold bind. rewrite H. cbn [out world effects].
  destruct callback; cbn; rewrite ?app_nil_r, <- ?List.app_assoc; reflexivity.
Qed.

Lemma run_add_first (w : World) (graphic : Graphic) (layer : Layer)
    (enumValue : string) (callback : Handler) (b : bool) (w1 : World)
    (e1 : list Effect) :
  localStorage w !! STORAGE_KEY = None ->
  _setTempLocalStore (_serializeGraphic graphic layer enumValue) w
  = {| out := Ok b; world := w1; effects := e1 |} ->
  _addToLocalStore graphic layer enumValue callback w
  = {| out := returned callback; world := w1;
       effects := e1 ++ reported callback
                          {| success := Some b; duplicate := Some false |}
                          layer graphic |}.
Proof.
  intros Hst H. unfold _addToLocalStore, _getTempLocalStore.
  rewrite (bind_ok _ _ _ _ _ _ (run_getItem _ _)), Hst.
  unfold bind. rewrite H. cbn [out world effects].
  destruct callback; cbn; rewrite ?app_nil_r, <- ?List.app_assoc; reflexivity.
Qed.

Lemma run_add_fresh (w : World) (rs : list string) (graphic : Graphic)
    (layer : Layer) (enumValue : string) (callback : Handler) :
  let j := _serializeGraphicNoToken graphic layer enumValue in
  holds w rs ->
  j ∉ rs ->
  accepts (localStorage w) STORAGE_KEY (blob (rs ++ [j])) = true ->
  _addToLocalStore graphic layer enumValue callback w
  = {| out := returned callback;
       world := with_localStorage
                  (<[STORAGE_KEY := blob (rs ++ [j])]> (localStorage w)) w;
       effects := SetItem STORAGE_KEY (blob (rs ++ [j])) true
                  :: reported callback
                       {| success := Some true; duplicate := Some false |}
                       layer graphic |}.
Proof.
  intros j [Hrs [Hst | [-> Hst]]] Hj Hacc.
  - rewrite blob_snoc in Hacc |- *.
    apply (run_add_existing _ _ _ _ _ _ _ _ [_] Hst).
    apply (run_update_new w rs j); [assumption..|].
    apply run_setTemp_accepted, Hacc.
  - cbn [app blob] in Hacc |- *. rewrite str_app_nil_r in Hacc |- *.
    apply (run_add_first _ _ _ _ _ _ _ [_] Hst).
    apply run_setTemp_accepted, Hacc.
Qed.

Lemma run_add_duplicate (w : World) (rs : list string) (graphic : Graphic)
    (layer : Layer) (enumValue : string) (callback : Handler) :
  let j := _serializeGraphicNoToken graphic layer enumValue in
  Forall (fun r => clean r = true) rs ->
  localStorage w !! STORAGE_KEY = Some (blob rs) ->
  j ∈ rs ->
  _addToLocalStore graphic layer enumValue callback w
  = {| out := returned callback; world := w;
       effects := Dispatch EDIT_EVENT_DUPLICATE (MsgBool true)
                  :: reported callback
                       {| success := None; duplicate := Some true |}
                       layer graphic |}.
Proof.
  intros j Hrs Hst Hj.
  apply (run_add_existing _ _ _ _ _ _ _ _ [_] Hst).
  apply (run_update_duplicate w rs j); assumption.
Qed.

(** C2, amended: let the queue hold the records [rs], let the content [j]
    of the mutation not contain the delimiter and not be queued yet, and
    let the substrate accept the write of the first insert.  After the
    mutation is inserted twice, the queue holds [rs] and then [j] once;
    the second insert calls back with [duplicate = true], and touches
    [localStorage] with neither [setItem] nor [removeItem].  Without a
    callback the queue is the same, and the second insert ends at the
    call it cannot make. *)
Theorem insert_twice_one_entry (w : World) (rs : list string) (graphic : Graphic)
    (layer : Layer) (enumValue : string) (callback : Handler) :
  let j := _serializeGraphicNoToken graphic layer enumValue in
  let first := _addToLocalStore graphic layer enumValue callback w in
  let second := _addToLocalStore graphic layer enumValue callback (world first) in
  occurs TOKEN j = false ->
  holds w rs ->
  j ∉ rs ->
  accepts (localStorage w) STORAGE_KEY (blob (rs ++ [j])) = true ->
  pending (world second) = rs ++ [j]
  /\ effects second
     = match callback with
       | Given =>
           [Dispatch EDIT_EVENT_DUPLICATE (MsgBool true);
            CallerCallback 0
              (ArgStored {| success := None; duplicate := Some true |}) 0;
            LayerAdd layer graphic]
       | Omitted => [Dispatch EDIT_EVENT_DUPLICATE (MsgBool true)]
       end
  /\ storage_effects (effects second) = []
  /\ localStorage (world second) = localStorage (world first).
Proof.
  intros j first second Hfree Hholds Hj Hacc.
  assert (Hrs : Forall (fun r => clean r = true) (rs ++ [j])).
  { apply Forall_app. split; [apply Hholds|].
    constructor; [|constructor]. apply serialized_clean, Hfree. }
  assert (Hfirst : first
    = {| out := returned callback;
         world := with_localStorage
                    (<[STORAGE_KEY := blob (rs ++ [j])]> (localStorage w)) w;
         effects := SetItem STORAGE_KEY (blob (rs ++ [j])) true
                    :: reported callback
                         {| success := Some true; duplicate := Some false |}
                         layer graphic |}).
  { apply run_add_fresh; assumption. }
  assert (Hst : localStorage (world first) !! STORAGE_KEY = Some (blob (rs ++ [j]))).
  { rewrite Hfirst. cbn [world with_localStorage localStorage].
    apply lookup_insert_eq. }
  assert (Hsecond : second
    = {| out := returned callback; world := world first;
         effects := Dispatch EDIT_EVENT_DUPLICATE (MsgBool true)
                    :: reported callback
                         {| success := None; duplicate := Some true |}
                         layer graphic |}).
  { apply (run_add_duplicate _ (rs ++ [j])); [assumption..|].
    apply elem_of_app. right. apply list_elem_of_singleton. reflexivity. }
  rewrite Hsecond. cbn [world effects].
  split; [apply pending_stored; assumption|].
  destruct callback; repeat split.
Qed.

Lemma run_setTemp (w : World) (v : string) :
  _setTempLocalStore v w
  = let b := accepts (localStorage w) STORAGE_KEY v in
    {| out := Ok b;
       world := if b then with_localStorage (<[STORAGE_KEY := v]> (localStorage w)) w
                else w;
       effects := [SetItem STORAGE_KEY v b] |}.
Proof.
  cbv zeta. destruct (accepts (localStorage w) STORAGE_KEY v) eqn:Hacc.
  - apply run_setTemp_accepted, Hacc.
  - apply run_setTemp_refused, Hacc.
Qed.

Lemma run_update (w : World) (localStore serializedGraphic : string) :
  localStorage w !! STORAGE_KEY = Some localStore ->
  _updateExistingLocalStore serializedGraphic w
  = if is_duplicate (Js.drop_last 3 serializedGraphic) (Js.split TOKEN localStore)
    then {| out := Ok {| success := None; duplicate := Some true |};
            world := w;
            effects := [Dispatch EDIT_EVENT_DUPLICATE (MsgBool true)] |}
    else
      let v := localStore +:+ serializedGraphic in
      let b := accepts (localStorage w) STORAGE_KEY v in
      {| out := Ok {| success := Some b; duplicate := Some false |};
         world := if b then with_localStorage (<[STORAGE_KEY := v]> (localStorage w)) w
                  else w;
         effects := [SetItem STORAGE_KEY v b] |}.
Proof.
  intros Hst. unfold _updateExistingLocalStore, _getTempLocalStore.
  rewrite (bind_ok _ _ _ _ _ _ (run_getItem _ _)), Hst.
  fold (is_duplicate (Js.drop_last 3 serializedGraphic) (Js.split TOKEN localStore)).
  destruct (is_duplicate _ _).
  - rewrite (bind_ok _ _ _ _ _ _ (run_dispatch_duplicate _)). reflexivity.
  - rewrite (bind_ok _ _ _ _ _ _ (run_setTemp _ _)). reflexivity.
Qed.

(** The loop of the duplicate check finds [sub] exactly when it is one
    of the non-empty pieces. *)
Lemma is_duplicate_elem (sub : string) (split : list string) :
  is_duplicate sub split = true
  <-> sub ∈ filter (fun item => Js.nonempty item = true) split.
Proof.
  unfold is_duplicate. rewrite existsb_exists, list_elem_of_filter. split.
  - intros (x & Hx & Hb). apply andb_true_iff in Hb as [Hne Heq].
    apply String.eqb_eq in Heq. subst x. split; [exact Hne|].
    apply list_elem_of_In, Hx.
  - intros [Hne Hin]. exists sub. split; [apply list_elem_of_In, Hin|].
    rewrite Hne, String.eqb_refl. reflexivity.
Qed.

(** C10: for every graphic, layer and operation, [_serializeGraphic] is
    [_serializeGraphicNoToken] followed by the token ["|||"]; and the
    duplicate check of [_updateExistingLocalStore], which is given the
    serialization with the token, compares the serialization without the
    token: it reports a duplicate, and writes nothing, exactly when that
    is one of the non-empty pieces of the stored string; otherwise it
    writes the stored string followed by the serialization with the
    token. *)
Theorem serialize_appends_token (graphic : Graphic) (layer : Layer)
    (enumValue : string) (w : World) (localStore : string) :
  let content := _serializeGraphicNoToken graphic layer enumValue in
  let r := _updateExistingLocalStore (_serializeGraphic graphic layer enumValue) w in
  localStorage w !! STORAGE_KEY = Some localStore ->
  _serializeGraphic graphic layer enumValue = content +:+ TOKEN
  /\ (content ∈ pending w ->
      out r = Ok {| success := None; duplicate := Some true |}
      /\ world r = w
      /\ storage_effects (effects r) = [])
  /\ (content ∉ pending w ->
      let v := localStore +:+ content +:+ TOKEN in
      let b := accepts (localStorage w) STORAGE_KEY v in
      out r = Ok {| success := Some b; duplicate := Some false |}
      /\ effects r = [SetItem STORAGE_KEY v b]
      /\ localStorage (world r)
         = if b then <[STORAGE_KEY := v]> (localStorage w) else localStorage w).
Proof.
  intros content r Hst.
  assert (Htoken : _serializeGraphic graphic layer enumValue = content +:+ TOKEN).
  { unfold content. rewrite serialize_token_text, serialize_text. reflexivity. }
  split; [exact Htoken|].
  pose proof (run_update w localStore (_serializeGraphic graphic layer enumValue) Hst)
    as Hrun. fold r in Hrun.
  rewrite Htoken, drop_last_token in Hrun.
  unfold pending. rewrite Hst.
  destruct (is_duplicate content (Js.split TOKEN localStore)) eqn:Hdup.
  - split.
    + intros _. rewrite Hrun. repeat split.
    + intros Hno. exfalso. apply Hno, is_duplicate_elem, Hdup.
  - split.
    + intros Hin. apply is_duplicate_elem in Hin. congruence.
    + intros _. rewrite Hrun. cbv zeta.
      destruct (accepts _ _ _); repeat split.
Qed.

Lemma run_delete (w : World) (entry : string) :
  _deleteItemInLocalStore entry w
  = match localStorage w !! STORAGE_KEY with
    | Some localStore =>
        match index_of_entry entry (Js.split TOKEN localStore) with
        | Some property =>
            let v := _reserializeGraphicsArray
                       (delete property (Js.split TOKEN localStore)) in
            let ls := delete STORAGE_KEY (localStorage w) in
            let b := accepts ls STORAGE_KEY v in
            {| out := Ok b;
               world := with_localStorage
                          (if b then <[STORAGE_KEY := v]> ls else ls) w;
               effects := [RemoveItem STORAGE_KEY; SetItem STORAGE_KEY v b] |}
        | None => {| out := Ok false; world := w; effects := [] |}
        end
    | None => {| out := Ok false; world := w; effects := [] |}
    end.
Proof.
  unfold _deleteItemInLocalStore.
  rewrite (bind_ok _ _ _ _ _ _ (run_getItem _ _)).
  destruct (localStorage w !! STORAGE_KEY) as [localStore|]; [|reflexivity].
  destruct (index_of_entry entry (Js.split TOKEN localStore)) as [property|];
    [|reflexivity].
  cbv zeta.
  rewrite (bind_ok _ _ _ _ _ _ (run_removeItem _ _)).
  rewrite (bind_ok _ _ _ _ _ _ (run_setTemp _ _)).
  cbn [out world effects app with_localStorage localStorage ret].
  destruct (accepts _ _ _); reflexivity.
Qed.

(** X3: what a refused write leaves behind.  An insert during which
    [setItem] throws calls back with [success = false] and leaves
    [localStorage] as it was; a removal during which [setItem] throws
    returns [false] and leaves [localStorage] without the queue key, which
    it deleted before the write.  An insert without a callback leaves
    [localStorage] as it was, too, and ends in a [TypeError]. *)
Theorem refused_write (w : World) (graphic : Graphic) (layer : Layer)
    (enumValue entry : string) (callback : Handler) :
  let ins := _addToLocalStore graphic layer enumValue callback w in
  let del := _deleteItemInLocalStore entry w in
  (write_failed (effects ins) = true ->
   localStorage (world ins) = localStorage w
   /\ match callback with
      | Given =>
          In (CallerCallback 0
                (ArgStored {| success := Some false; duplicate := Some false |}) 0)
             (effects ins)
      | Omitted => out ins = Throw TypeError
      end)
  /\ (write_failed (effects del) = true ->
      out del = Ok false
      /\ localStorage (world del) = delete STORAGE_KEY (localStorage w)).
Proof.
  cbv zeta. split.
  - destruct (localStorage w !! STORAGE_KEY) as [localStore|] eqn:Hst.
    + pose proof (run_update w localStore
                    (_serializeGraphic graphic layer enumValue) Hst) as Hu.
      destruct (is_duplicate _ _).
      * rewrite (run_add_existing _ _ _ _ _ _ _ _ _ Hst Hu).
        destruct callback; cbn; discriminate.
      * cbv zeta in Hu. rewrite (run_add_existing _ _ _ _ _ _ _ _ _ Hst Hu).
        destruct (accepts _ _ _), callback; cbn; try discriminate; auto.
    + rewrite (run_add_first _ _ _ _ _ _ _ _ Hst (run_setTemp _ _)).
      destruct (accepts _ _ _), callback; cbn; try discriminate; auto.
  - rewrite run_delete.
    destruct (localStorage w !! STORAGE_KEY) as [localStore|]; [|cbn; discriminate].
    destruct (index_of_entry _ _); [|cbn; discriminate].
    cbv zeta. destruct (accepts _ _ _); cbn; [discriminate|auto].
Qed.

(** ** Removal *)

Lemma index_of_entry_found (rs tail : list string) (k : nat) (entry : string) :
  NoDup rs ->
  Js.nonempty entry = true ->
  rs !! k = Some entry ->
  index_of_entry entry (rs ++ tail) = Some k.
Proof.
  intros Hnd Hne. revert k. induction Hnd as [|r rs Hr Hnd IH]; intros k Hk.
  - discriminate.
  - destruct k as [|k]; cbn [app index_of_entry].
    + injection Hk as ->. rewrite Hne, String.eqb_refl. reflexivity.
    + cbn in Hk. assert (r <> entry) as Hneq.
      { intros ->. apply Hr. eapply list_elem_of_lookup_2, Hk. }
      apply String.eqb_neq in Hneq. rewrite Hneq, andb_false_r.
      rewrite (IH _ Hk). reflexivity.
Qed.

Lemma delete_app_lt {A : Type} (l l' : list A) (k : nat) :
  k < length l -> delete k (l ++ l') = delete k l ++ l'.
Proof.
  revert k. induction l as [|a l IH]; intros k Hk; cbn in Hk; [lia|].
  destruct k as [|k]; [reflexivity|]. cbn. f_equal. apply IH. lia.
Qed.

Lemma Forall_delete_index {A : Type} (P : A -> Prop) (l : list A) (k : nat) :
  Forall P l -> Forall P (delete k l).
Proof.
  intros H. revert k. induction H as [|a l Ha Hl IH]; intros k; [constructor|].
  destruct k as [|k]; cbn; [assumption|]. constructor; [assumption|apply IH].
Qed.

Lemma reserialize_from_blob (newStr : string) (rs : list string) :
  Forall (fun r => clean r = true) rs ->
  Forall (fun r => is_Some (parse r)) rs ->
  _reserializeGraphicsArray_from newStr (rs ++ [""]) = newStr +:+ blob rs.
Proof.
  intros Hc. revert newStr. induction Hc as [|r rs Hr _ IH]; intros newStr Hp.
  - cbn. rewrite str_app_nil_r. reflexivity.
  - apply Forall_cons in Hp as [[v Hv] Hp].
    cbn [app _reserializeGraphicsArray_from blob].
    rewrite (clean_nonempty _ Hr), Hv. cbn [negb].
    rewrite (IH _ Hp), !str_app_assoc. reflexivity.
Qed.

End Facts.

(** * [JSON.parse] after [JSON.stringify] *)

(** ** Numbers *)

Lemma continues_numeral_digit (s : string) :
  continues_numeral s = false -> starts_with_digit s = false.
Proof.
  destruct s as [|c s]; [reflexivity|]. cbn [continues_numeral starts_with_digit].
  destruct (is_digit c); [discriminate|reflexivity].
Qed.

Lemma span_digits_app (d rest : string) :
  all_digits d = true ->
  starts_with_digit rest = false ->
  span_digits (d +:+ rest) = (d, rest).
Proof.
  intros Hd Hrest. induction d as [|c d IH].
  - rewrite str_app_nil_l. destruct rest as [|c rest]; [reflexivity|].
    cbn [span_digits]. cbn [starts_with_digit] in Hrest. rewrite Hrest. reflexivity.
  - cbn [all_digits] in Hd. apply andb_true_iff in Hd as [Hc Hd].
    rewrite str_app_cons. cbn [span_digits]. rewrite Hc, (IH Hd). reflexivity.
Qed.

Lemma all_digits_app (s t : string) :
  all_digits (s +:+ t) = all_digits s && all_digits t.
Proof.
  induction s as [|c s IH]; [reflexivity|].
  rewrite str_app_cons. cbn [all_digits]. rewrite IH, andb_assoc. reflexivity.
Qed.

Lemma all_digits_zeros (n : nat) : all_digits (zeros n) = true.
Proof. induction n as [|n IH]; [reflexivity|]. cbn [zeros all_digits]. exact IH. Qed.

Lemma length_zeros (n : nat) : String.length (zeros n) = n.
Proof. induction n as [|n IH]; [reflexivity|]. cbn [zeros String.length]. rewrite IH. reflexivity. Qed.

Lemma drop_zeros_zeros (n : nat) (s : string) : drop_zeros (zeros n +:+ s) = drop_zeros s.
Proof. induction n as [|n IH]; [reflexivity|]. cbn [zeros]. rewrite str_app_cons. cbn [drop_zeros]. exact IH. Qed.

Lemma drop_last_zeros_zeros (n : nat) : drop_last_zeros (zeros n) = "".
Proof. induction n as [|n IH]; [reflexivity|]. cbn [zeros drop_last_zeros]. rewrite IH. reflexivity. Qed.

(** Digits that end with a digit other than zero keep their end. *)
Lemma drop_last_zeros_keeps (s : string) :
  s <> "" -> ends_with_zero s = false -> drop_last_zeros s = s.
Proof.
  induction s as [|c s IH]; [congruence|]. intros _ Hz.
  destruct s as [|c' s].
  - cbn in Hz |- *. rewrite Hz. reflexivity.
  - change (ends_with_zero (String c (String c' s))) with (ends_with_zero (String c' s)) in Hz.
    change (drop_last_zeros (String c (String c' s)))
      with (match drop_last_zeros (String c' s) with
            | EmptyString => if Ascii.eqb c "0" then EmptyString else String c EmptyString
            | t => String c t
            end).
    rewrite IH by (congruence || assumption). reflexivity.
Qed.

Lemma drop_last_zeros_app (s : string) (n : nat) :
  s <> "" -> ends_with_zero s = false -> drop_last_zeros (s +:+ zeros n) = s.
Proof.
  induction s as [|c s IH]; [congruence|]. intros _ Hz.
  rewrite str_app_cons.
  change (drop_last_zeros (String c (s +:+ zeros n)))
    with (match drop_last_zeros (s +:+ zeros n) with
          | EmptyString => if Ascii.eqb c "0" then EmptyString else String c EmptyString
          | t => String c t
          end).
  destruct s as [|c' s].
  - rewrite str_app_nil_l, drop_last_zeros_zeros. cbn in Hz. rewrite Hz. reflexivity.
  - change (ends_with_zero (String c (String c' s))) with (ends_with_zero (String c' s)) in Hz.
    rewrite IH by (congruence || assumption). reflexivity.
Qed.

Lemma str_take_drop (n : nat) (s : string) : str_take n s +:+ str_drop n s = s.
Proof.
  revert s. induction n as [|n IH]; intros [|c s]; try reflexivity.
  cbn [str_take str_drop]. rewrite str_app_cons, IH. reflexivity.
Qed.

Lemma length_str_take (n : nat) (s : string) :
  n <= String.length s -> String.length (str_take n s) = n.
Proof.
  revert s. induction n as [|n IH]; intros [|c s] H; cbn in *; try lia.
  rewrite IH by lia. reflexivity.
Qed.

Lemma all_digits_string_of_uint (u : Decimal.uint) :
  all_digits (DecimalString.NilEmpty.string_of_uint u) = true.
Proof. induction u; cbn; auto. Qed.

(** The numeral of a natural number: its digits, of which there is one
    at least. *)
Lemma string_of_Z_digits (a : Z) :
  (0 <= a)%Z ->
  exists u, string_of_Z a = DecimalString.NilEmpty.string_of_uint u
            /\ string_of_Z a <> ""
            /\ Z.of_uint u = a.
Proof.
  intros Ha. unfold string_of_Z. destruct a as [|p|p]; [| |lia].
  - exists (Decimal.D0 Decimal.Nil). repeat split. discriminate.
  - exists (Pos.to_uint p). cbn [Z.to_int DecimalString.NilZero.string_of_int].
    assert (Hne : Pos.to_uint p <> Decimal.Nil).
    { intros H. pose proof (DecimalPos.Unsigned.of_to p) as Hp. rewrite H in Hp.
      discriminate Hp. }
    repeat split.
    + destruct (Pos.to_uint p); try reflexivity. congruence.
    + destruct (Pos.to_uint p); discriminate.
    + unfold Z.of_uint. rewrite DecimalPos.Unsigned.of_to. reflexivity.
Qed.

Lemma parse_exp_none (rest : string) :
  continues_numeral rest = false -> parse_exp rest = Some (0%Z, rest).
Proof.
  destruct rest as [|c rest]; [reflexivity|]. cbn [continues_numeral parse_exp].
  intros H. apply orb_false_elim in H as [H HE]. apply orb_false_elim in H as [H He].
  rewrite He, HE. reflexivity.
Qed.

Lemma parse_frac_none (rest : string) :
  continues_numeral rest = false -> parse_frac rest = Some ("", rest).
Proof.
  destruct rest as [|c rest]; [reflexivity|]. cbn [continues_numeral parse_frac].
  intros H. apply orb_false_elim in H as [H HE]. apply orb_false_elim in H as [H He].
  apply orb_false_elim in H as [H Hd]. rewrite Hd. reflexivity.
Qed.

Lemma parse_exp_text (e : Z) (rest : string) :
  starts_with_digit rest = false ->
  parse_exp ("e" +:+ exponent_text e +:+ rest) = Some (e, rest).
Proof.
  intros Hrest. unfold exponent_text.
  destruct (string_of_Z_digits (Z.abs e) (Z.abs_nonneg e)) as (u & Hu & Hne & Hv).
  rewrite Hu in Hne |- *.
  rewrite !str_app_cons, str_app_nil_l. cbn [parse_exp].
  change (Ascii.eqb "e" "e") with true. cbn [orb].
  assert (Hspan := span_digits_app _ rest (all_digits_string_of_uint u) Hrest).
  destruct (Z.ltb e 0) eqn:Hneg.
  - change (Ascii.eqb "-" "-") with true. cbv iota. rewrite Hspan.
    destruct (DecimalString.NilEmpty.string_of_uint u) eqn:Hs; [congruence|].
    rewrite <- Hs, DecimalString.NilEmpty.usu, Hv.
    apply Z.ltb_lt in Hneg. f_equal. f_equal. lia.
  - change (Ascii.eqb "+" "-") with false. change (Ascii.eqb "+" "+") with true.
    cbv iota. rewrite Hspan.
    destruct (DecimalString.NilEmpty.string_of_uint u) eqn:Hs; [congruence|].
    rewrite <- Hs, DecimalString.NilEmpty.usu, Hv.
    apply Z.ltb_ge in Hneg. f_equal. f_equal. lia.
Qed.

Lemma decimal_normal (negative : bool) (c : ascii) (s : string) (n : Z) :
  Ascii.eqb c "0" = false ->
  ends_with_zero (String c s) = false ->
  decimal negative (String c s) n = Finite negative (String c s) n.
Proof.
  intros Hc Hz. unfold decimal. cbn [drop_zeros]. rewrite Hc. cbv zeta.
  rewrite drop_last_zeros_keeps by (congruence || assumption).
  rewrite Nat.sub_diag, Z.sub_0_r. reflexivity.
Qed.


Lemma parse_int_digits (c : ascii) (d rest : string) :
  all_digits (String c d) = true ->
  Ascii.eqb c "0" = false ->
  starts_with_digit rest = false ->
  parse_int (String c d +:+ rest) = Some (String c d, rest).
Proof.
  intros Hd Hc Hrest. unfold parse_int. rewrite span_digits_app by assumption.
  rewrite Hc. destruct d; reflexivity.
Qed.

Lemma parse_frac_digits (c : ascii) (d rest : string) :
  all_digits (String c d) = true ->
  starts_with_digit rest = false ->
  parse_frac ("." +:+ String c d +:+ rest) = Some (String c d, rest).
Proof.
  intros Hd Hrest. rewrite str_app_cons, str_app_nil_l. cbn [parse_frac].
  change (Ascii.eqb "." ".") with true. cbv iota.
  rewrite span_digits_app by assumption. reflexivity.
Qed.

(** [parse_number] on the numeral of the digits [s] and the point [n]. *)
Lemma parse_numeral (negative : bool) (c : ascii) (s rest : string) (n : Z) :
  all_digits (String c s) = true ->
  Ascii.eqb c "0" = false ->
  ends_with_zero (String c s) = false ->
  continues_numeral rest = false ->
  match parse_int (numeral (String c s) n +:+ rest) with
  | Some (i, s2) =>
      match parse_frac s2 with
      | Some (f, s3) =>
          match parse_exp s3 with
          | Some (e, s4) =>
              Some (decimal negative (i +:+ f) (Z.of_nat (String.length i) + e), s4)
          | None => None
          end
      | None => None
      end
  | None => None
  end = Some (Finite negative (String c s) n, rest).
Proof.
  intros Hd Hc Hz Hrest.
  pose proof (continues_numeral_digit rest Hrest) as Hrd.
  assert (Hcd : is_digit c = true).
  { cbn [all_digits] in Hd. apply andb_true_iff in Hd as [H _]. exact H. }
  pose (k := Z.of_nat (String.length (String c s))).
  unfold numeral. fold k.
  destruct (Z.leb k n && Z.leb n 21) eqn:H1.
  { (* the digits, then zeros *)
    apply andb_true_iff in H1 as [H1 _]. apply Z.leb_le in H1.
    change (String c s +:+ zeros ?m) with (String c (s +:+ zeros m)).
    rewrite parse_int_digits;
      [|cbn [all_digits] in Hd |- *; rewrite all_digits_app, all_digits_zeros, andb_true_r;
        exact Hd|exact Hc|exact Hrd].
    rewrite parse_frac_none, parse_exp_none by exact Hrest.
    rewrite str_app_nil_r, <- str_app_cons.
    unfold decimal. rewrite str_app_cons. cbn [drop_zeros]. rewrite Hc. cbv zeta.
    rewrite <- str_app_cons, drop_last_zeros_app by (congruence || assumption).
    rewrite Nat.sub_diag, str_length_app, length_zeros.
    f_equal. f_equal. f_equal. unfold k in H1. lia. }
  destruct (Z.ltb 0 n && Z.leb n 21) eqn:H2.
  { (* digits, the point, digits *)
    apply andb_true_iff in H2 as [H2 H2']. apply Z.ltb_lt in H2.
    assert (Hlt : (n < k)%Z).
    { apply andb_false_iff in H1 as [H1|H1]; [apply Z.leb_gt in H1; lia|].
      rewrite H2' in H1. discriminate. }
    destruct (Z.to_nat n) as [|m] eqn:Hm; [lia|].
    pose proof (str_take_drop (S m) (String c s)) as Htd.
    assert (Hlen : String.length (str_take (S m) (String c s)) = S m).
    { apply length_str_take. unfold k in Hlt. lia. }
    destruct (str_drop (S m) (String c s)) as [|c' d] eqn:Hdrop.
    { rewrite str_app_nil_r in Htd. rewrite Htd in Hlen. unfold k in Hlt. lia. }
    assert (Hall : all_digits (str_take (S m) (String c s)) = true
                   /\ all_digits (String c' d) = true).
    { rewrite <- Htd, all_digits_app in Hd. apply andb_true_iff in Hd. exact Hd. }
    destruct Hall as [Ht Hdr].
    cbn [str_take] in Hlen, Htd, Ht |- *.
    rewrite !str_app_assoc.
    rewrite parse_int_digits by (assumption || reflexivity).
    rewrite parse_frac_digits by assumption.
    rewrite parse_exp_none by exact Hrest.
    rewrite Htd, decimal_normal by assumption.
    f_equal. f_equal. f_equal. lia. }
  destruct (Z.ltb (-6) n && Z.leb n 0) eqn:H3.
  { (* zero, the point, zeros, the digits *)
    apply andb_true_iff in H3 as [_ H3]. apply Z.leb_le in H3.
    rewrite !str_app_assoc.
    change (parse_int ("0." +:+ ?x)) with (Some ("0", "." +:+ x)). cbv iota beta.
    rewrite <- (str_app_assoc (zeros _) (String c s) rest).
    destruct (zeros (Z.to_nat (- n)) +:+ String c s) as [|c' d] eqn:Hzs.
    { destruct (zeros (Z.to_nat (- n))); discriminate Hzs. }
    rewrite parse_frac_digits;
      [|rewrite <- Hzs, all_digits_app, Hd, all_digits_zeros; reflexivity|exact Hrd].
    rewrite parse_exp_none by exact Hrest. rewrite <- Hzs.
    unfold decimal. rewrite str_app_cons, str_app_nil_l.
    change (drop_zeros (String "0" (zeros (Z.to_nat (- n)) +:+ String c s)))
      with (drop_zeros (zeros (Z.to_nat (- n)) +:+ String c s)).
    rewrite drop_zeros_zeros. cbn [drop_zeros]. rewrite Hc. cbv zeta.
    rewrite drop_last_zeros_keeps by (congruence || assumption).
    f_equal. f_equal. f_equal.
    change (String.length (String "0" (zeros (Z.to_nat (- n)) +:+ String c s)))
      with (S (String.length (zeros (Z.to_nat (- n)) +:+ String c s))).
    rewrite str_length_app, length_zeros. cbn [String.length]. lia. }
  (* the exponent form *)
  destruct s as [|c' s].
  - change (parse_int (String c ("e" +:+ exponent_text (n - 1)) +:+ rest))
      with (parse_int (String c "" +:+ ("e" +:+ exponent_text (n - 1) +:+ rest))).
    rewrite parse_int_digits; [|exact Hd|exact Hc|reflexivity].
    change (parse_frac ("e" +:+ ?x)) with (Some ("", "e" +:+ x)). cbv iota beta.
    rewrite parse_exp_text by exact Hrd.
    rewrite str_app_nil_r, decimal_normal by assumption.
    f_equal. f_equal. f_equal. cbn [String.length]. lia.
  - change (parse_int (String c ("." +:+ String c' s +:+ "e" +:+ exponent_text (n - 1))
                       +:+ rest))
      with (parse_int (String c "" +:+ ("." +:+ (String c' s +:+ "e" +:+ exponent_text (n - 1))
                                            +:+ rest))).
    assert (Hs : all_digits (String c' s) = true).
    { cbn [all_digits] in Hd. apply andb_true_iff in Hd as [_ H]. exact H. }
    rewrite parse_int_digits; [|cbn; rewrite Hcd; reflexivity|exact Hc|reflexivity].
    rewrite !str_app_assoc.
    rewrite parse_frac_digits; [|exact Hs|reflexivity].
    rewrite parse_exp_text by exact Hrd.
    change (String c "" +:+ String c' s) with (String c (String c' s)).
    rewrite decimal_normal by assumption.
    f_equal. f_equal. f_equal. cbn [String.length]. lia.
Qed.

Lemma parse_int_head (s : string) (x : string * string) :
  parse_int s = Some x -> exists c r, s = String c r /\ is_digit c = true.
Proof.
  unfold parse_int. destruct s as [|c r]; [discriminate|]. cbn [span_digits].
  destruct (is_digit c) eqn:Hc; [eauto|discriminate].
Qed.

Lemma is_digit_not_minus (c : ascii) : is_digit c = true -> Ascii.eqb c "-" = false.
Proof.
  intros H. destruct (Ascii.eqb c "-") eqn:E; [|reflexivity].
  apply Ascii.eqb_eq in E. subst c. discriminate H.
Qed.

(** [parse_number] reads back the numeral of a number that JSON
    carries. *)
Lemma parse_number_text (x : number) (rest : string) :
  json_number x = true ->
  continues_numeral rest = false ->
  parse_number (Number_toString x +:+ rest) = Some (x, rest).
Proof.
  intros Hx Hrest. destruct x as [| |negative [|c s] n]; try discriminate Hx.
  - cbn [json_number] in Hx. apply andb_true_iff in Hx as [Hneg Hn].
    apply negb_true_iff in Hneg. apply Z.eqb_eq in Hn. subst negative n.
    pose proof (continues_numeral_digit rest Hrest) as Hrd.
    cbn [Number_toString].
    assert (Hi : parse_int ("0" +:+ rest) = Some ("0", rest)).
    { unfold parse_int. rewrite span_digits_app by (reflexivity || assumption).
      reflexivity. }
    unfold parse_number. change ("0" +:+ rest) with (String "0" rest) in Hi |- *.
    cbv beta iota. change (Ascii.eqb "0" "-") with false. cbv beta iota.
    rewrite Hi, parse_frac_none, parse_exp_none by exact Hrest. reflexivity.
  - cbn [json_number] in Hx. apply andb_true_iff in Hx as [Hx Hz].
    apply andb_true_iff in Hx as [Hd Hc].
    apply negb_true_iff in Hc, Hz.
    pose proof (parse_numeral negative c s rest n Hd Hc Hz Hrest) as H.
    cbn [Number_toString]. unfold parse_number. destruct negative.
    + rewrite str_app_assoc, str_app_cons, str_app_nil_l.
      change (Ascii.eqb "-" "-") with true. cbv iota. exact H.
    + rewrite str_app_nil_l.
      destruct (parse_int (numeral (String c s) n +:+ rest)) as [x|] eqn:Hi;
        [|discriminate H].
      destruct (parse_int_head _ _ Hi) as (c' & r & Htext & Hc').
      rewrite Htext in Hi |- *. rewrite (is_digit_not_minus c' Hc'), Hi. exact H.
Qed.

Lemma Number_toString_nonempty (x : number) : 1 <= String.length (Number_toString x).
Proof.
  destruct x as [|[]|negative [|c s] n]; cbn [Number_toString String.length]; try lia.
  rewrite str_length_app. unfold numeral.
  repeat match goal with
         | |- context [if ?b then _ else _] => destruct b
         end;
    rewrite ?str_length_app; cbn [String.length]; lia.
Qed.

(** ** Numbers made from digits *)

Lemma all_digits_drop_zeros (d : string) :
  all_digits d = true -> all_digits (drop_zeros d) = true.
Proof.
  induction d as [|c d IH]; [reflexivity|]. cbn [all_digits drop_zeros].
  intros H. apply andb_true_iff in H as [Hc Hd].
  destruct (Ascii.eqb c "0"); [apply IH, Hd|]. cbn [all_digits]. rewrite Hc, Hd. reflexivity.
Qed.

Lemma drop_zeros_head (d : string) :
  match drop_zeros d with
  | EmptyString => True
  | String c _ => Ascii.eqb c "0" = false
  end.
Proof.
  induction d as [|c d IH]; [exact I|]. cbn [drop_zeros].
  destruct (Ascii.eqb c "0") eqn:E; [exact IH|exact E].
Qed.

Lemma drop_last_zeros_spec (s : string) :
  all_digits s = true ->
  all_digits (drop_last_zeros s) = true
  /\ ends_with_zero (drop_last_zeros s) = false
  /\ match s with
     | EmptyString => True
     | String c _ =>
         Ascii.eqb c "0" = false -> exists t, drop_last_zeros s = String c t
     end.
Proof.
  induction s as [|c s IH]; [repeat split|]. cbn [all_digits]. intros H.
  apply andb_true_iff in H as [Hc Hs]. destruct (IH Hs) as (Hd & Hz & _).
  cbn [drop_last_zeros]. destruct (drop_last_zeros s) as [|c' t] eqn:Ht.
  - destruct (Ascii.eqb c "0") eqn:E.
    + repeat split. discriminate.
    + cbn [all_digits ends_with_zero]. rewrite Hc, E. repeat split. eauto.
  - cbn [all_digits] in Hd |- *. rewrite Hc, Hd.
    change (ends_with_zero (String c (String c' t))) with (ends_with_zero (String c' t)).
    repeat split; eauto.
Qed.

(** A number made from digits is in the representation that JSON
    carries, the negative zero apart. *)
Lemma json_number_decimal (negative : bool) (d : string) (point : Z) :
  all_digits d = true ->
  negative = false \/ drop_zeros d <> "" ->
  json_number (decimal negative d point) = true.
Proof.
  intros Hd Hnz. unfold decimal.
  pose proof (all_digits_drop_zeros d Hd) as Hd'.
  pose proof (drop_zeros_head d) as Hh.
  destruct (drop_zeros d) as [|c t] eqn:Hdz.
  - cbn. destruct Hnz as [-> | Hnz]; [reflexivity|congruence].
  - destruct (drop_last_zeros_spec _ Hd') as (Ha & Hz & Hex).
    destruct (Hex Hh) as [t' Ht']. rewrite Ht' in Ha, Hz |- *. cbv zeta.
    cbn [json_number]. rewrite Ha, Hh, Hz. reflexivity.
Qed.

Lemma to_uint_normal (p : positive) : Decimal.unorm (Pos.to_uint p) = Pos.to_uint p.
Proof.
  rewrite <- DecimalPos.Unsigned.to_of, DecimalPos.Unsigned.of_to. reflexivity.
Qed.

(** A numeral without leading zeros. *)
Lemma normal_uint_cases (u : Decimal.uint) :
  Decimal.unorm u = u ->
  u = Decimal.D0 Decimal.Nil
  \/ (u <> Decimal.Nil /\ forall d, u <> Decimal.D0 d).
Proof.
  intros Hu. destruct u; try (right; split; intros; discriminate).
  left. rewrite DecimalFacts.unorm_D0 in Hu. unfold Decimal.unorm in Hu.
  destruct (Decimal.nzhead u) eqn:Hnz; try (exfalso; revert Hu; rewrite <- Hnz;
    apply DecimalFacts.nzhead_nonzero).
  injection Hu as <-. reflexivity.
Qed.

Lemma string_of_pos_head (p : positive) :
  exists c t, string_of_Z (Z.pos p) = String c t
              /\ all_digits (String c t) = true
              /\ Ascii.eqb c "0" = false.
Proof.
  unfold string_of_Z. cbn [Z.to_int DecimalString.NilZero.string_of_int].
  pose proof (all_digits_string_of_uint (Pos.to_uint p)) as Hd.
  assert (Hne : Pos.to_uint p <> Decimal.D0 Decimal.Nil).
  { intros H. pose proof (DecimalPos.Unsigned.of_to p) as Hp. rewrite H in Hp.
    discriminate Hp. }
  destruct (normal_uint_cases _ (to_uint_normal p)) as [H | [Hnil Hd0]]; [congruence|].
  destruct (Pos.to_uint p) as [|u|u|u|u|u|u|u|u|u|u]; try congruence;
    try (eexists _, _; split; [reflexivity|split; [exact Hd|reflexivity]]);
    exfalso; eapply Hd0; reflexivity.
Qed.

Lemma json_number_of_Z (n : Z) : json_number (of_Z n) = true.
Proof.
  unfold of_Z. destruct n as [|p|p]; [reflexivity| |];
    change (Z.abs (Z.neg p)) with (Z.pos p); change (Z.abs (Z.pos p)) with (Z.pos p);
    cbv zeta; destruct (string_of_pos_head p) as (c & t & -> & Hd & Hc);
    (apply json_number_decimal; [exact Hd|]); right; cbn [drop_zeros];
    rewrite Hc; discriminate.
Qed.

(** ** Strings *)

Lemma parse_quote_char (c : ascii) (tail : string) :
  parse_string_body (quote_char c +:+ tail) = cons_char c (parse_string_body tail).
Proof. destruct c as [[] [] [] [] [] [] [] []]; reflexivity. Qed.

Lemma parse_quote_body (s rest : string) :
  parse_string_body (quote_body s +:+ String Js.dquote rest) = Some (s, rest).
Proof.
  induction s as [|c s IH]; [reflexivity|].
  cbn [quote_body]. rewrite str_app_assoc, parse_quote_char, IH. reflexivity.
Qed.

Lemma quote_app (s rest : string) :
  quote s +:+ rest = String Js.dquote (quote_body s +:+ String Js.dquote rest).
Proof. unfold quote. rewrite str_app_cons, str_app_assoc. reflexivity. Qed.

(** ** Literals *)

Lemma substring_full (s : string) : String.substring 0 (String.length s) s = s.
Proof. induction s as [|c s IH]; [reflexivity|]. cbn. rewrite IH. reflexivity. Qed.

Lemma substring_skip (p r : string) (m : nat) :
  String.substring (String.length p) m (p +:+ r) = String.substring 0 m r.
Proof. induction p as [|c p IH]; [reflexivity|]. rewrite str_app_cons. cbn. exact IH. Qed.

Lemma expect_ok (lit rest : string) (v : json) :
  expect lit v (lit +:+ rest) = Some (v, rest).
Proof.
  unfold expect. rewrite str_prefix_app, substring_skip, str_length_app.
  replace (String.length lit + String.length rest - String.length lit)
    with (String.length rest) by lia.
  rewrite substring_full. reflexivity.
Qed.

(** ** The first character of a value *)

Lemma parse_value_head (fuel : nat) (s : string) (x : json * string) :
  parse_value fuel s = Some x ->
  exists c r, skip_ws s = String c r
              /\ Ascii.eqb c "]" = false /\ is_ws c = false.
Proof.
  destruct fuel as [|fuel]; [discriminate|]. cbn [parse_value].
  destruct (skip_ws s) as [|c r] eqn:Hs; [discriminate|]. intros H.
  exists c, r. split; [reflexivity|]. split.
  - destruct (Ascii.eqb c "]") eqn:E; [|reflexivity].
    apply Ascii.eqb_eq in E. subst c. cbv in H. discriminate.
  - clear H. revert c r Hs. induction s as [|a s IH]; intros c r Hs; [discriminate|].
    cbn [skip_ws] in Hs. destruct (is_ws a) eqn:Ha.
    + eapply IH, Hs.
    + injection Hs as -> ->. exact Ha.
Qed.

Lemma skip_ws_head (c : ascii) (r : string) :
  is_ws c = false -> skip_ws (String c r) = String c r.
Proof. intros H. cbn [skip_ws]. rewrite H. reflexivity. Qed.

Lemma parse_value_number (fuel : nat) (s rest : string) (n : number) :
  parse_number s = Some (n, rest) ->
  parse_value (S fuel) s = Some (JNum n, rest).
Proof.
  destruct s as [|c s]; [discriminate|]. intros H.
  assert (Hc : is_digit c || Ascii.eqb c "-" = true).
  { destruct (is_digit c || Ascii.eqb c "-") eqn:E; [reflexivity|].
    apply orb_false_elim in E as [Ed Em].
    unfold parse_number in H. rewrite Em in H.
    assert (parse_int (String c s) = None) as Hnone.
    { unfold parse_int. cbn [span_digits]. rewrite Ed. reflexivity. }
    rewrite Hnone in H. discriminate. }
  cbn [parse_value].
  destruct c as [[] [] [] [] [] [] [] []]; try discriminate Hc;
    cbn [skip_ws]; (change (is_ws _) with false); cbv iota;
    (repeat (change (Ascii.eqb _ _) with false; cbv iota));
    rewrite H; reflexivity.
Qed.

(** ** Arrays and objects *)

Lemma join_cons (x : string) (xs : list string) :
  Js.join "," (x :: xs) = x +:+ sep_concat xs.
Proof.
  unfold Js.join. revert x. induction xs as [|y ys IH]; intros x.
  - cbn. rewrite str_app_nil_r. reflexivity.
  - change (String.concat "," (x :: y :: ys))
      with (x +:+ "," +:+ String.concat "," (y :: ys)).
    rewrite (IH y). reflexivity.
Qed.

Lemma sep_concat_no_digit (xs : list string) (close rest : string) :
  continues_numeral (close +:+ rest) = false ->
  continues_numeral (sep_concat xs +:+ close +:+ rest) = false.
Proof. destruct xs; [intros H; exact H|reflexivity]. Qed.

Lemma parse_elements_ok (f : nat) (l : list json) :
  Forall (parses f) l ->
  forall fuel acc rest,
    length l < fuel ->
    parse_elements (parse_value f) fuel acc
      (sep_concat (map stringify l) +:+ "]" +:+ rest)
    = Some (JArr (rev acc ++ l), rest).
Proof.
  induction 1 as [|v l Hv _ IH]; intros fuel acc rest Hfuel.
  - destruct fuel as [|fuel]; [cbn in Hfuel; lia|].
    cbn. rewrite app_nil_r. reflexivity.
  - destruct fuel as [|fuel]; [cbn in Hfuel; lia|].
    cbn [map sep_concat]. rewrite !str_app_assoc.
    rewrite str_app_cons, str_app_nil_l. cbn [parse_elements].
    rewrite skip_ws_head by reflexivity.
    change (Ascii.eqb "," "]") with false. change (Ascii.eqb "," ",") with true.
    cbv iota. rewrite Hv by (apply sep_concat_no_digit; reflexivity).
    rewrite IH by (cbn in Hfuel; lia).
    cbn [rev]. rewrite <- List.app_assoc. reflexivity.
Qed.

Lemma distinct_NoDup (ks : list string) : distinct ks = true <-> NoDup ks.
Proof.
  induction ks as [|k ks IH]; cbn [distinct].
  - split; [constructor|reflexivity].
  - rewrite andb_true_iff, negb_true_iff, IH, NoDup_cons.
    apply and_iff_compat_r. rewrite <- not_true_iff_false, existsb_exists.
    split.
    + intros Hn Hin. apply Hn. exists k. split; [apply list_elem_of_In, Hin|].
      apply String.eqb_refl.
    + intros Hn (x & Hx & Heq). apply String.eqb_eq in Heq. subst x.
      apply Hn, list_elem_of_In, Hx.
Qed.

Lemma obj_set_fresh (k : string) (v : json) (m : list (string * json)) :
  k ∉ map fst m -> obj_set k v m = m ++ [(k, v)].
Proof.
  induction m as [|[k' v'] m IH]; intros Hk; [reflexivity|].
  cbn [obj_set map fst] in *. apply not_elem_of_cons in Hk as [Hne Hk].
  apply String.eqb_neq in Hne. rewrite Hne, (IH Hk). reflexivity.
Qed.

Lemma parse_members_ok (f : nat) (m : list (string * json)) :
  Forall (fun kv => parses f (snd kv)) m ->
  forall fuel acc kv rest,
    parses f (snd kv) ->
    length (kv :: m) <= fuel ->
    NoDup (map fst (acc ++ kv :: m)) ->
    parse_members (parse_value f) fuel acc
      (member_text kv +:+ sep_concat (map member_text m) +:+ "}" +:+ rest)
    = Some (JObj (acc ++ kv :: m), rest).
Proof.
  induction 1 as [|kv' m Hkv' _ IH]; intros fuel acc [k v] rest Hkv Hfuel Hnd;
    (destruct fuel as [|fuel]; [cbn in Hfuel; lia|]);
    unfold member_text at 1; cbn [fst snd] in *;
    rewrite !str_app_assoc, quote_app; cbn [parse_members];
    rewrite skip_ws_head by reflexivity;
    change (Ascii.eqb Js.dquote Js.dquote) with true; cbv iota;
    rewrite parse_quote_body;
    rewrite str_app_cons, str_app_nil_l;
    rewrite skip_ws_head by reflexivity;
    change (Ascii.eqb ":" ":") with true; cbv iota.
  - rewrite Hkv by reflexivity. cbn [map sep_concat]. rewrite str_app_nil_l.
    rewrite str_app_cons, str_app_nil_l, skip_ws_head by reflexivity.
    change (Ascii.eqb "}" ",") with false. change (Ascii.eqb "}" "}") with true.
    cbv iota. rewrite obj_set_fresh; [reflexivity|].
    rewrite map_app in Hnd. apply NoDup_app in Hnd as (_ & Hnd & _).
    intros Hin. apply (Hnd _ Hin). cbn. left.
  - rewrite Hkv by reflexivity. cbn [map sep_concat].
    rewrite !str_app_assoc, str_app_cons, str_app_nil_l, skip_ws_head by reflexivity.
    change (Ascii.eqb "," ",") with true. cbv iota.
    assert (Hk : k ∉ map fst acc).
    { rewrite map_app in Hnd. apply NoDup_app in Hnd as (_ & Hnd & _).
      intros Hin. apply (Hnd _ Hin). cbn. left. }
    rewrite obj_set_fresh by exact Hk.
    rewrite (IH fuel (acc ++ [(k, v)]) kv' rest Hkv').
    + rewrite <- List.app_assoc. reflexivity.
    + cbn in Hfuel |- *. lia.
    + rewrite <- List.app_assoc. exact Hnd.
Qed.

(** ** The round trip *)

Lemma size_pos (v : json) : 1 <= size v.
Proof. destruct v; cbn; lia. Qed.

Lemma length_le_list_sum {A : Type} (f : A -> nat) (l : list A) :
  (forall a, 1 <= f a) -> length l <= list_sum (map f l).
Proof.
  intros Hf. induction l as [|a l IH]; [reflexivity|].
  change (list_sum (map f (a :: l))) with (f a + list_sum (map f l)).
  cbn [length]. specialize (Hf a). lia.
Qed.

Lemma elem_le_list_sum {A : Type} (f : A -> nat) (l : list A) (a : A) :
  a ∈ l -> f a <= list_sum (map f l).
Proof.
  induction l as [|b l IH]; intros Hin.
  - apply elem_of_nil in Hin. destruct Hin.
  - change (list_sum (map f (b :: l))) with (f b + list_sum (map f l)).
    apply elem_of_cons in Hin as [->|Hin]; [lia|].
    specialize (IH Hin). lia.
Qed.

(** [parse_value] reads back the text of a well-formed value, given fuel
    for its size. *)
Theorem parse_value_stringify (v : json) :
  well_formed v = true ->
  forall fuel, size v <= fuel -> parses fuel v.
Proof.
  induction v as [|b|n|s|l IH|m IH] using json_induction;
    intros Hwf fuel Hfuel rest Hrest;
    (destruct fuel as [|f];
     [match type of Hfuel with size ?v <= _ => pose proof (size_pos v) end; lia|]).
  - cbn [stringify]. rewrite str_app_cons. cbn [parse_value].
    rewrite skip_ws_head by reflexivity. apply (expect_ok "ull").
  - destruct b; cbn [stringify]; rewrite str_app_cons; cbn [parse_value];
      rewrite skip_ws_head by reflexivity.
    + apply (expect_ok "rue").
    + apply (expect_ok "alse").
  - change (well_formed (JNum n)) with (json_number n) in Hwf.
    apply parse_value_number.
    destruct n as [| |negative digits point]; try discriminate Hwf.
    apply parse_number_text; assumption.
  - cbn [stringify]. rewrite quote_app. cbn [parse_value].
    rewrite skip_ws_head by reflexivity.
    change (Ascii.eqb Js.dquote "n") with false.
    change (Ascii.eqb Js.dquote "t") with false.
    change (Ascii.eqb Js.dquote "f") with false.
    change (Ascii.eqb Js.dquote Js.dquote) with true. cbv iota.
    rewrite parse_quote_body. reflexivity.
  - change (size (JArr l)) with (S (list_sum (map size l))) in Hfuel.
    change (well_formed (JArr l)) with (forallb well_formed l) in Hwf.
    cbn [stringify].
    assert (Hl : Forall (parses f) l).
    { rewrite Forall_forall in IH |- *. intros x Hx. apply IH; [exact Hx| |].
      - rewrite forallb_forall in Hwf. apply Hwf, list_elem_of_In, Hx.
      - apply le_S_n in Hfuel. etransitivity; [|exact Hfuel].
        apply (elem_le_list_sum size l x Hx). }
    pose proof (length_le_list_sum size l size_pos) as Hlen.
    rewrite !str_app_assoc, str_app_cons, str_app_nil_l. cbn [parse_value].
    rewrite skip_ws_head by reflexivity.
    change (Ascii.eqb "[" "n") with false. change (Ascii.eqb "[" "t") with false.
    change (Ascii.eqb "[" "f") with false.
    change (Ascii.eqb "[" Js.dquote) with false.
    change (Ascii.eqb "[" "[") with true. cbv iota.
    destruct l as [|x l].
    + reflexivity.
    + cbn [map]. rewrite join_cons, !str_app_assoc.
      apply Forall_cons in Hl as [Hx Hl].
      pose proof (Hx (sep_concat (map stringify l) +:+ "]" +:+ rest)
                     (sep_concat_no_digit _ "]" rest eq_refl)) as Hparse.
      destruct (parse_value_head _ _ _ Hparse) as (c & r & -> & Hc & _).
      rewrite Hc, Hparse. rewrite parse_elements_ok; [reflexivity|exact Hl|].
      apply le_S_n in Hfuel. eapply Nat.lt_le_trans; [|exact Hfuel].
      eapply Nat.lt_le_trans; [|exact Hlen]. cbn [length]. lia.
  - change (size (JObj m))
      with (S (list_sum (map (fun kv => size (snd kv)) m))) in Hfuel.
    change (well_formed (JObj m))
      with (distinct (map fst m) && forallb (fun kv => well_formed (snd kv)) m) in Hwf.
    cbn [stringify].
    apply andb_true_iff in Hwf as [Hkeys Hwf].
    assert (Hm : Forall (fun kv => parses f (snd kv)) m).
    { rewrite Forall_forall in IH |- *. intros x Hx. apply IH; [exact Hx| |].
      - rewrite forallb_forall in Hwf. apply Hwf, list_elem_of_In, Hx.
      - apply le_S_n in Hfuel. etransitivity; [|exact Hfuel].
        apply (elem_le_list_sum (fun kv => size (snd kv)) m x Hx). }
    pose proof (length_le_list_sum (fun kv => size (snd kv)) m
                  (fun kv => size_pos (snd kv))) as Hlen.
    rewrite !str_app_assoc, str_app_cons, str_app_nil_l. cbn [parse_value].
    rewrite skip_ws_head by reflexivity.
    change (Ascii.eqb "{" "n") with false. change (Ascii.eqb "{" "t") with false.
    change (Ascii.eqb "{" "f") with false.
    change (Ascii.eqb "{" Js.dquote) with false.
    change (Ascii.eqb "{" "[") with false.
    change (Ascii.eqb "{" "{") with true. cbv iota.
    destruct m as [|kv m].
    + reflexivity.
    + cbn [map]. rewrite join_cons, !str_app_assoc.
      apply Forall_cons in Hm as [Hkv Hm].
      fold (member_text kv). 
      change (map (fun kv0 => quote (fst kv0) +:+ ":" +:+ stringify (snd kv0)) m)
        with (map member_text m).
      pose proof (parse_members_ok f m Hm f [] kv rest Hkv) as Hparse.
      unfold member_text at 1 in Hparse. rewrite !str_app_assoc in Hparse.
      rewrite quote_app, skip_ws_head by reflexivity.
      change (Ascii.eqb Js.dquote "}") with false. cbv iota.
      rewrite <- quote_app.
      apply Hparse; [|apply distinct_NoDup, Hkeys].
      apply le_S_n in Hfuel. etransitivity; [exact Hlen|exact Hfuel].
Qed.

Lemma length_sep_concat (xs : list string) :
  list_sum (map String.length xs) <= String.length (sep_concat xs).
Proof.
  induction xs as [|x xs IH]; [reflexivity|].
  change (list_sum (map String.length (x :: xs)))
    with (String.length x + list_sum (map String.length xs)).
  cbn [sep_concat]. rewrite !str_length_app. lia.
Qed.

Lemma length_join (xs : list string) :
  list_sum (map String.length xs) <= String.length (Js.join "," xs).
Proof.
  destruct xs as [|x xs]; [reflexivity|]. rewrite join_cons, str_length_app.
  change (list_sum (map String.length (x :: xs)))
    with (String.length x + list_sum (map String.length xs)).
  pose proof (length_sep_concat xs). lia.
Qed.

Lemma list_sum_le {A : Type} (f g : A -> nat) (l : list A) :
  Forall (fun a => f a <= g a) l -> list_sum (map f l) <= list_sum (map g l).
Proof.
  induction 1 as [|a l Ha _ IH]; [reflexivity|].
  change (list_sum (map f (a :: l))) with (f a + list_sum (map f l)).
  change (list_sum (map g (a :: l))) with (g a + list_sum (map g l)).
  lia.
Qed.

Lemma size_le_length (v : json) : size v <= String.length (stringify v).
Proof.
  induction v as [|b|n|s|l IH|m IH] using json_induction.
  - cbn. lia.
  - destruct b; cbn; lia.
  - change (size (JNum n)) with 1. destruct n as [|b|negative digits point].
    + cbn. lia.
    + cbn. lia.
    + apply (Number_toString_nonempty (Finite negative digits point)).
  - cbn. lia.
  - change (size (JArr l)) with (S (list_sum (map size l))).
    cbn [stringify]. rewrite !str_length_app.
    pose proof (length_join (map stringify l)) as Hj.
    rewrite map_map in Hj.
    pose proof (list_sum_le size (fun x => String.length (stringify x)) l IH).
    cbn [String.length]. lia.
  - change (size (JObj m)) with (S (list_sum (map (fun kv => size (snd kv)) m))).
    cbn [stringify]. rewrite !str_length_app.
    pose proof (length_join
                  (map (fun kv => quote (fst kv) +:+ ":" +:+ stringify (snd kv)) m)) as Hj.
    rewrite map_map in Hj.
    assert (Hle : Forall (fun kv : string * json =>
                            size (snd kv)
                            <= String.length (quote (fst kv) +:+ ":" +:+ stringify (snd kv))) m).
    { eapply Forall_impl; [exact IH|]. intros kv Hkv. cbn beta in Hkv.
      rewrite !str_length_app. lia. }
    pose proof (list_sum_le _ _ m Hle).
    cbn [String.length]. lia.
Qed.

(** The fuel [parse] gives is enough for the text of a value. *)
Lemma parse_text (v : json) :
  well_formed v = true -> parse (stringify v) = Some v.
Proof.
  intros Hwf. unfold parse.
  pose proof (parse_value_stringify v Hwf (S (String.length (stringify v)))) as H.
  rewrite <- (str_app_nil_r (stringify v)) at 2.
  rewrite H; [reflexivity| |reflexivity].
  pose proof (size_le_length v). lia.
Qed.

(** X1: [JSON.parse(JSON.stringify(v))] is [v], for every value whose
    numbers are finite and not the negative zero, and whose objects have
    distinct keys. *)
Theorem parse_stringify (v : json) :
  well_formed v = true -> parse (stringify v) = Some v.
Proof.
  intros Hwf. unfold parse.
  pose proof (parse_value_stringify v Hwf (S (String.length (stringify v)))) as H.
  rewrite <- (str_app_nil_r (stringify v)) at 2.
  rewrite H; [reflexivity| |reflexivity].
  pose proof (size_le_length v). lia.
Qed.

(** * The last character of a text that parses *)

Lemma reads_to_suffix (s rest : string) : reads_to s rest -> suffix_of rest s.
Proof.
  intros (pre & c & -> & _). exists (pre +:+ String c "").
  rewrite str_app_assoc. reflexivity.
Qed.

Lemma suffix_of_refl (s : string) : suffix_of s s.
Proof. exists "". reflexivity. Qed.

Lemma suffix_of_trans (a b c : string) : suffix_of a b -> suffix_of b c -> suffix_of a c.
Proof. intros [p ->] [q ->]. exists (q +:+ p). rewrite str_app_assoc. reflexivity. Qed.

Lemma suffix_of_cons (c : ascii) (s : string) : suffix_of s (String c s).
Proof. exists (String c ""). reflexivity. Qed.

Lemma reads_to_trans (a b c : string) : reads_to b a -> suffix_of b c -> reads_to c a.
Proof.
  intros (pre & x & -> & Hx) [q ->]. exists (q +:+ pre), x.
  rewrite str_app_assoc. auto.
Qed.

Lemma reads_to_char (c : ascii) (rest : string) :
  Ascii.eqb c "|" = false -> reads_to (String c rest) rest.
Proof. intros H. exists "", c. auto. Qed.

Lemma skip_ws_suffix (s : string) : suffix_of (skip_ws s) s.
Proof.
  induction s as [|c s IH]; [apply suffix_of_refl|]. cbn [skip_ws].
  destruct (is_ws c); [|apply suffix_of_refl].
  eapply suffix_of_trans; [exact IH|apply suffix_of_cons].
Qed.

Lemma prefix_split (lit s : string) :
  String.prefix lit s = true ->
  s = lit +:+ String.substring (String.length lit) (String.length s - String.length lit) s.
Proof.
  revert s. induction lit as [|c lit IH]; intros s H.
  - cbn. rewrite Nat.sub_0_r, substring_full. reflexivity.
  - destruct s as [|c' s]; [discriminate|]. cbn in H.
    destruct (ascii_dec c c') as [->|]; [|discriminate].
    rewrite str_app_cons. cbn. f_equal. apply IH, H.
Qed.

Lemma expect_reads (lit : string) (v v' : json) (s rest : string) (c : ascii) :
  Ascii.eqb c "|" = false ->
  expect (lit +:+ String c "") v s = Some (v', rest) -> reads_to s rest.
Proof.
  intros Hc. unfold expect. destruct (String.prefix _ s) eqn:Hp; [|discriminate].
  intros H. injection H as _ <-. apply prefix_split in Hp.
  exists lit, c. split; [|exact Hc]. rewrite Hp at 1. rewrite str_app_assoc. reflexivity.
Qed.

Lemma cons_char_inv (c : ascii) (r : option (string * string)) (x : string * string) :
  cons_char c r = Some x -> exists y, r = Some y /\ snd y = snd x.
Proof. destruct r as [[s rest]|]; [|discriminate]. intros H. injection H as <-. eauto. Qed.

Lemma parse_string_body_reads (n : nat) (s : string) (x : string * string) :
  String.length s <= n ->
  parse_string_body s = Some x -> reads_to s (snd x).
Proof.
  revert s x. induction n as [|n IH]; intros s x Hn.
  - destruct s; [discriminate|cbn in Hn; lia].
  - destruct s as [|c s]; [discriminate|]. cbn [parse_string_body]. cbn in Hn.
    destruct (Ascii.eqb c Js.dquote) eqn:Hq.
    { intros H. injection H as <-. cbn [snd]. apply reads_to_char.
      apply Ascii.eqb_eq in Hq. subst c. reflexivity. }
    destruct (Ascii.eqb c Js.backslash).
    + destruct s as [|e s]; [discriminate|]. cbn in Hn.
      destruct (unescape e).
      * intros H. apply cons_char_inv in H as (y & Hy & <-).
        eapply reads_to_trans; [apply (IH s y); [lia|exact Hy]|].
        eapply suffix_of_trans; apply suffix_of_cons.
      * destruct (Ascii.eqb e "u"); [|discriminate].
        destruct s as [|h1 [|h2 [|h3 [|h4 r]]]]; try discriminate.
        destruct (unescape_u h1 h2 h3 h4); [|discriminate].
        intros H. apply cons_char_inv in H as (y & Hy & <-). cbn in Hn.
        eapply reads_to_trans; [apply (IH r y); [lia|exact Hy]|].
        repeat (eapply suffix_of_trans; [|apply suffix_of_cons]).
        apply suffix_of_refl.
    + destruct (Nat.ltb _ 32); [discriminate|].
      intros H. apply cons_char_inv in H as (y & Hy & <-).
      eapply reads_to_trans; [apply (IH s y); [lia|exact Hy]|apply suffix_of_cons].
Qed.

Lemma span_digits_split (s : string) :
  s = fst (span_digits s) +:+ snd (span_digits s)
  /\ all_digits (fst (span_digits s)) = true.
Proof.
  induction s as [|c s [IH1 IH2]]; [split; reflexivity|]. cbn [span_digits].
  destruct (is_digit c) eqn:Hc; [|split; reflexivity].
  destruct (span_digits s) as [d r]. cbn [fst snd] in *.
  rewrite str_app_cons, <- IH1. cbn [all_digits]. rewrite Hc, IH2. auto.
Qed.

Lemma is_digit_not_bar (c : ascii) : is_digit c = true -> Ascii.eqb c "|" = false.
Proof.
  intros H. destruct (Ascii.eqb c "|") eqn:E; [|reflexivity].
  apply Ascii.eqb_eq in E. subst c. discriminate H.
Qed.

(** Digits, of which there is one at least, before [rest]. *)
Lemma digits_read (d rest : string) :
  d <> "" -> all_digits d = true -> reads_to (d +:+ rest) rest.
Proof.
  induction d as [|c d IH]; [congruence|]. intros _ H. cbn [all_digits] in H.
  apply andb_true_iff in H as [Hc Hd]. rewrite str_app_cons.
  destruct d as [|c' d].
  - rewrite str_app_nil_l. apply reads_to_char, is_digit_not_bar, Hc.
  - eapply reads_to_trans; [apply IH; [discriminate|exact Hd]|apply suffix_of_cons].
Qed.

Lemma span_digits_reads (s d rest : string) :
  span_digits s = (d, rest) -> d <> "" -> reads_to s rest.
Proof.
  intros H Hd. destruct (span_digits_split s) as [Hs Hall]. rewrite H in Hs, Hall.
  cbn [fst snd] in *. rewrite Hs. apply digits_read; assumption.
Qed.

Lemma parse_int_reads (s : string) (x : string * string) :
  parse_int s = Some x -> reads_to s (snd x).
Proof.
  unfold parse_int. destruct (span_digits s) as [d rest] eqn:Hs.
  destruct d as [|c [|c' d]]; [discriminate| |].
  - intros H. injection H as <-. eapply span_digits_reads; [exact Hs|discriminate].
  - destruct (Ascii.eqb c "0"); [discriminate|].
    intros H. injection H as <-. eapply span_digits_reads; [exact Hs|discriminate].
Qed.

Lemma parse_frac_reads (s : string) (x : string * string) :
  parse_frac s = Some x -> snd x = s \/ reads_to s (snd x).
Proof.
  unfold parse_frac. destruct s as [|c r]; [intros H; injection H as <-; auto|].
  destruct (Ascii.eqb c ".").
  - destruct (span_digits r) as [d rest] eqn:Hs. destruct d as [|c' d]; [discriminate|].
    intros H. injection H as <-. right. cbn [snd].
    eapply reads_to_trans; [eapply span_digits_reads; [exact Hs|discriminate]|].
    apply suffix_of_cons.
  - intros H. injection H as <-. auto.
Qed.

Lemma parse_exp_reads (s : string) (x : Z * string) :
  parse_exp s = Some x -> snd x = s \/ reads_to s (snd x).
Proof.
  unfold parse_exp. destruct s as [|c r]; [intros H; injection H as <-; auto|].
  destruct (Ascii.eqb c "e" || Ascii.eqb c "E"); [|intros H; injection H as <-; auto].
  set (p := match r with
            | String c' r' =>
                if Ascii.eqb c' "-" then (true, r')
                else if Ascii.eqb c' "+" then (false, r') else (false, r)
            | EmptyString => (false, r)
            end).
  assert (Hp : suffix_of (snd p) r).
  { unfold p. destruct r as [|c' r']; [apply suffix_of_refl|].
    destruct (Ascii.eqb c' "-"); [apply suffix_of_cons|].
    destruct (Ascii.eqb c' "+"); [apply suffix_of_cons|apply suffix_of_refl]. }
  destruct p as [negative r']. cbn [snd] in Hp.
  destruct (span_digits r') as [d rest] eqn:Hs. destruct d as [|c' d]; [discriminate|].
  destruct (DecimalString.NilEmpty.uint_of_string _); [|discriminate].
  intros H. injection H as <-. right. cbn [snd].
  eapply reads_to_trans; [eapply span_digits_reads; [exact Hs|discriminate]|].
  eapply suffix_of_trans; [exact Hp|apply suffix_of_cons].
Qed.

Lemma parse_number_reads (s : string) (x : number * string) :
  parse_number s = Some x -> reads_to s (snd x).
Proof.
  unfold parse_number.
  set (p := match s with
            | String c r => if Ascii.eqb c "-" then (true, r) else (false, s)
            | EmptyString => (false, s)
            end).
  assert (Hp : suffix_of (snd p) s).
  { unfold p. destruct s as [|c r]; [apply suffix_of_refl|].
    destruct (Ascii.eqb c "-"); [apply suffix_of_cons|apply suffix_of_refl]. }
  destruct p as [negative s1]. cbn [snd] in Hp.
  destruct (parse_int s1) as [[i s2]|] eqn:Hi; [|discriminate].
  destruct (parse_frac s2) as [[f s3]|] eqn:Hf; [|discriminate].
  destruct (parse_exp s3) as [[e s4]|] eqn:He; [|discriminate].
  intros H. injection H as <-. cbn [snd].
  apply parse_int_reads in Hi. apply parse_frac_reads in Hf. apply parse_exp_reads in He.
  cbn [snd] in *.
  assert (H3 : reads_to s1 s3).
  { destruct Hf as [-> | Hf]; [exact Hi|].
    eapply reads_to_trans; [exact Hf|apply reads_to_suffix, Hi]. }
  assert (H4 : reads_to s1 s4).
  { destruct He as [-> | He]; [exact H3|].
    eapply reads_to_trans; [exact He|apply reads_to_suffix, H3]. }
  eapply reads_to_trans; [exact H4|exact Hp].
Qed.

Section Parser.
Variable pv : string -> option (json * string).
Hypothesis pv_suffix : forall s x, pv s = Some x -> suffix_of (snd x) s.

Lemma parse_elements_reads (fuel : nat) (acc : list json) (s : string)
    (x : json * string) :
  parse_elements pv fuel acc s = Some x -> reads_to s (snd x).
Proof.
  revert acc s. induction fuel as [|fuel IH]; intros acc s; [discriminate|].
  cbn [parse_elements]. pose proof (skip_ws_suffix s) as Hws.
  destruct (skip_ws s) as [|c r]; [discriminate|].
  destruct (Ascii.eqb c "]") eqn:Hc.
  { intros H. injection H as <-. cbn [snd].
    eapply reads_to_trans; [|exact Hws]. apply reads_to_char.
    apply Ascii.eqb_eq in Hc. subst c. reflexivity. }
  destruct (Ascii.eqb c ","); [|discriminate].
  destruct (pv r) as [[v r']|] eqn:Hv; [|discriminate].
  intros H. apply IH in H. apply pv_suffix in Hv. cbn [snd] in Hv.
  eapply reads_to_trans; [exact H|].
  eapply suffix_of_trans; [exact Hv|].
  eapply suffix_of_trans; [apply suffix_of_cons|exact Hws].
Qed.

Lemma parse_members_reads (fuel : nat) (acc : list (string * json)) (s : string)
    (x : json * string) :
  parse_members pv fuel acc s = Some x -> reads_to s (snd x).
Proof.
  revert acc s. induction fuel as [|fuel IH]; intros acc s; [discriminate|].
  cbn [parse_members]. pose proof (skip_ws_suffix s) as Hws.
  destruct (skip_ws s) as [|c r]; [discriminate|].
  destruct (Ascii.eqb c Js.dquote); [|discriminate].
  destruct (parse_string_body r) as [[k r1]|] eqn:Hk; [|discriminate].
  apply (parse_string_body_reads (String.length r) r _ (le_n _)), reads_to_suffix in Hk.
  cbn [snd] in Hk.
  pose proof (skip_ws_suffix r1) as Hws1.
  destruct (skip_ws r1) as [|c2 r2]; [discriminate|].
  destruct (Ascii.eqb c2 ":"); [|discriminate].
  destruct (pv r2) as [[v r3]|] eqn:Hv; [|discriminate].
  apply pv_suffix in Hv. cbn [snd] in Hv.
  pose proof (skip_ws_suffix r3) as Hws3.
  destruct (skip_ws r3) as [|c3 r4]; [discriminate|].
  assert (Hr4 : suffix_of (String c3 r4) s).
  { eapply suffix_of_trans; [exact Hws3|].
    eapply suffix_of_trans; [exact Hv|].
    eapply suffix_of_trans; [apply suffix_of_cons|].
    eapply suffix_of_trans; [exact Hws1|].
    eapply suffix_of_trans; [exact Hk|].
    eapply suffix_of_trans; [apply suffix_of_cons|exact Hws]. }
  destruct (Ascii.eqb c3 ",").
  { intros H. apply IH in H. eapply reads_to_trans; [exact H|].
    eapply suffix_of_trans; [apply suffix_of_cons|exact Hr4]. }
  destruct (Ascii.eqb c3 "}") eqn:Hc3; [|discriminate].
  intros H. injection H as <-. cbn [snd].
  eapply reads_to_trans; [|exact Hr4]. apply reads_to_char.
  apply Ascii.eqb_eq in Hc3. subst c3. reflexivity.
Qed.

End Parser.

Lemma parse_value_reads (fuel : nat) (s : string) (x : json * string) :
  parse_value fuel s = Some x -> reads_to s (snd x).
Proof.
  revert s x. induction fuel as [|fuel IH]; intros s x; [discriminate|].
  cbn [parse_value]. pose proof (skip_ws_suffix s) as Hws.
  destruct (skip_ws s) as [|c r] eqn:Hs; [discriminate|].
  assert (Hr : suffix_of r s).
  { eapply suffix_of_trans; [apply suffix_of_cons|exact Hws]. }
  assert (Hpv : forall s x, parse_value fuel s = Some x -> suffix_of (snd x) s).
  { intros s' x' H. apply reads_to_suffix, IH, H. }
  destruct (Ascii.eqb c "n").
  { intros H. eapply reads_to_trans; [|exact Hr].
    destruct x as [v rest]. apply (expect_reads "ul" JNull v r rest "l" eq_refl H). }
  destruct (Ascii.eqb c "t").
  { intros H. eapply reads_to_trans; [|exact Hr].
    destruct x as [v rest]. apply (expect_reads "ru" (JBool true) v r rest "e" eq_refl H). }
  destruct (Ascii.eqb c "f").
  { intros H. eapply reads_to_trans; [|exact Hr].
    destruct x as [v rest].
    apply (expect_reads "als" (JBool false) v r rest "e" eq_refl H). }
  destruct (Ascii.eqb c Js.dquote).
  { destruct (parse_string_body r) as [[str r']|] eqn:Hb; [|discriminate].
    intros H. injection H as <-. cbn [snd].
    eapply reads_to_trans; [|exact Hr].
    apply (parse_string_body_reads (String.length r) r _ (le_n _) Hb). }
  destruct (Ascii.eqb c "[").
  { pose proof (skip_ws_suffix r) as Hws'.
    destruct (skip_ws r) as [|c' r']; [discriminate|].
    destruct (Ascii.eqb c' "]") eqn:Hc'.
    - intros H. injection H as <-. cbn [snd].
      eapply reads_to_trans; [|eapply suffix_of_trans; [exact Hws'|exact Hr]].
      apply reads_to_char. apply Ascii.eqb_eq in Hc'. subst c'. reflexivity.
    - destruct (parse_value fuel r) as [[v r'']|] eqn:Hv; [|discriminate].
      intros H. apply (parse_elements_reads _ Hpv) in H.
      apply Hpv in Hv. cbn [snd] in Hv.
      eapply reads_to_trans; [exact H|].
      eapply suffix_of_trans; [exact Hv|exact Hr]. }
  destruct (Ascii.eqb c "{").
  { pose proof (skip_ws_suffix r) as Hws'.
    destruct (skip_ws r) as [|c' r']; [discriminate|].
    destruct (Ascii.eqb c' "}") eqn:Hc'.
    - intros H. injection H as <-. cbn [snd].
      eapply reads_to_trans; [|eapply suffix_of_trans; [exact Hws'|exact Hr]].
      apply reads_to_char. apply Ascii.eqb_eq in Hc'. subst c'. reflexivity.
    - intros H. apply (parse_members_reads _ Hpv) in H.
      eapply reads_to_trans; [exact H|exact Hr]. }
  destruct (parse_number (String c r)) as [[n r']|] eqn:Hn; [|discriminate].
  intros H. injection H as <-. cbn [snd].
  eapply reads_to_trans; [apply (parse_number_reads _ _ Hn)|exact Hws].
Qed.

Lemma is_ws_not_bar (c : ascii) : is_ws c = true -> Ascii.eqb c "|" = false.
Proof.
  intros H. destruct (Ascii.eqb c "|") eqn:E; [|reflexivity].
  apply Ascii.eqb_eq in E. subst c. discriminate H.
Qed.

Lemma ends_with_bar_ws (c : ascii) (rest : string) :
  Ascii.eqb c "|" = false -> skip_ws rest = "" -> ends_with_bar (String c rest) = false.
Proof.
  revert c. induction rest as [|c' rest IH]; intros c Hc Hws; [exact Hc|].
  cbn [skip_ws] in Hws. destruct (is_ws c') eqn:Hc'; [|discriminate].
  change (ends_with_bar (String c (String c' rest))) with (ends_with_bar (String c' rest)).
  apply IH; [apply is_ws_not_bar, Hc'|exact Hws].
Qed.

Lemma ends_with_bar_app (pre s : string) :
  s <> "" -> ends_with_bar (pre +:+ s) = ends_with_bar s.
Proof.
  intros Hs. induction pre as [|c pre IH]; [reflexivity|]. rewrite str_app_cons.
  destruct (pre +:+ s) eqn:E.
  - destruct pre; [rewrite str_app_nil_l in E; congruence|discriminate E].
  - rewrite <- IH. reflexivity.
Qed.

(** A text that [JSON.parse] accepts does not end with a bar. *)
Lemma parse_no_bar (text : string) (v : json) :
  parse text = Some v -> ends_with_bar text = false.
Proof.
  unfold parse.
  destruct (parse_value _ text) as [[v' rest]|] eqn:Hv; [|discriminate].
  destruct (skip_ws rest) eqn:Hws; [|discriminate]. intros _.
  apply parse_value_reads in Hv as (pre & c & -> & Hc). cbn [snd].
  rewrite ends_with_bar_app by discriminate. apply ends_with_bar_ws; assumption.
Qed.

(** A text without the token that does not end with a bar is delimited
    by the token that follows it. *)
Lemma starts_early_no_bar (r : string) :
  occurs TOKEN r = false -> ends_with_bar r = false -> starts_early TOKEN r = false.
Proof.
  induction r as [|c r IH]; intros Hocc Hbar; [reflexivity|].
  cbn [occurs starts_early] in *.
  apply orb_false_elim in Hocc as [Hp Hocc].
  destruct r as [|c2 r].
  - cbn [starts_early]. rewrite orb_false_r. cbn [ends_with_bar] in Hbar.
    unfold TOKEN. rewrite str_app_cons, str_app_nil_l, str_prefix_cons.
    destruct (Ascii.eqb "|" c) eqn:E; [|reflexivity].
    apply Ascii.eqb_eq in E. subst c. discriminate Hbar.
  - change (ends_with_bar (String c (String c2 r))) with (ends_with_bar (String c2 r))
      in Hbar.
    rewrite (IH Hocc Hbar), orb_false_r.
    destruct r as [|c3 r].
    + cbn [ends_with_bar] in Hbar. unfold TOKEN.
      rewrite !str_app_cons, str_app_nil_l, !str_prefix_cons.
      destruct (Ascii.eqb "|" c); [|reflexivity].
      destruct (Ascii.eqb "|" c2) eqn:E; [|reflexivity].
      apply Ascii.eqb_eq in E. subst c2. discriminate Hbar.
    + rewrite str_prefix_app_long; [exact Hp|]. cbn. lia.
Qed.

(** A record that [JSON.parse] accepts and that does not contain the
    token is stored as one piece. *)
Lemma parse_clean (r : string) :
  is_Some (parse r) -> occurs TOKEN r = false -> clean r = true.
Proof.
  intros [v Hv] Hocc. unfold clean.
  rewrite (starts_early_no_bar r Hocc (parse_no_bar r v Hv)).
  destruct r; [discriminate Hv|reflexivity].
Qed.

(** * Deserializing what was serialized *)

Lemma JSON_parse_text (v : json) :
  well_formed v = true -> JSON_parse (Some (JStr (stringify v))) = Ok v.
Proof.
  intros Hwf. unfold JSON_parse. cbn [ToString to_string].
  rewrite (parse_text v Hwf). reflexivity.
Qed.

(** ToString of a number that JSON carries is the numeral
    [JSON.stringify] prints. *)
Lemma JSON_parse_json_number (x : number) :
  json_number x = true -> JSON_parse (Some (JNum x)) = Ok (JNum x).
Proof.
  intros Hx. unfold JSON_parse. cbn [ToString to_string].
  replace (Number_toString x) with (stringify (JNum x))
    by (destruct x; try discriminate Hx; reflexivity).
  rewrite (parse_text (JNum x) Hx). reflexivity.
Qed.

Lemma JSON_parse_number (n : Z) : JSON_parse (Some (JNum n)) = Ok (JNum n).
Proof. apply JSON_parse_json_number, json_number_of_Z. Qed.

Lemma well_formed_geometry_json (g : Geometry) :
  well_formed_geometry g = true -> well_formed (geometry_json g) = true.
Proof.
  destruct g as [x y [w]|paths [w]|rings [w]]; cbn [well_formed_geometry wkid];
    intros H; repeat (apply andb_true_iff in H as [H ?]).
  - destruct x, y, w; cbn in *; rewrite ?H, ?H0, ?H1; reflexivity.
  - destruct w; cbn in *; rewrite ?H, ?H0; reflexivity.
  - destruct w; cbn in *; rewrite ?H, ?H0; reflexivity.
Qed.

Section Codec.
Context {codec : AttributeCodec}.

Lemma attributes_field_cases (graphic : Graphic) :
  attributes_field graphic = Some JNull
  \/ (exists q, attributes_field graphic = Some (JStr q))
  \/ attributes_field graphic = None.
Proof.
  unfold attributes_field, try_hydrate_stringify.
  destruct (attributes graphic); auto;
    match goal with |- context [hydrate_stringify ?a] =>
      destruct (hydrate_stringify a) end; eauto.
Qed.

Lemma well_formed_record (graphic : Graphic) (layer : Layer) (enumValue : string) :
  well_formed (layerId layer) = true ->
  well_formed (record_json graphic layer enumValue) = true.
Proof.
  intros Hl. unfold record_json.
  destruct (attributes_field_cases graphic) as [-> | [[q ->] | ->]];
    cbn; rewrite Hl; reflexivity.
Qed.

(** Rebuilding the geometry from its parsed text. *)
Lemma decode_geometry {A : Type} (g : Geometry) (k : option Geometry -> result A) :
  rbind (get (Some (geometry_json g)) "type") (fun type =>
  rbind
    (match type with
     | Some (JStr "polyline") =>
         rbind (new_SpatialReference (geometry_json g)) (fun sr =>
         rbind (get (Some (geometry_json g)) "paths") (fun paths =>
         Ok (Some (Polyline (for_in_values paths) sr))))
     | Some (JStr "point") =>
         rbind (get (Some (geometry_json g)) "x") (fun x =>
         rbind (get (Some (geometry_json g)) "y") (fun y =>
         rbind (new_SpatialReference (geometry_json g)) (fun sr =>
         Ok (Some (Point x y sr)))))
     | Some (JStr "polygon") =>
         rbind (new_SpatialReference (geometry_json g)) (fun sr =>
         rbind (get (Some (geometry_json g)) "rings") (fun rings =>
         Ok (Some (Polygon (for_in_values rings) sr))))
     | _ => Ok None
     end) k) = k (Some g).
Proof.
  destruct g as [x y [w]|paths [w]|rings [w]].
  - destruct x, y, w; reflexivity.
  - destruct w; reflexivity.
  - destruct w; reflexivity.
Qed.

Lemma parses_back_well_formed (v : json) :
  parses_back v = true -> well_formed v = true.
Proof. destruct v; try discriminate; intros H; try reflexivity. exact H. Qed.

Lemma JSON_parse_back (v : json) :
  parses_back v = true -> JSON_parse (Some v) = Ok v.
Proof.
  destruct v as [|[]|x| | |]; try discriminate; intros H; try reflexivity.
  apply JSON_parse_json_number, H.
Qed.

(** C4, amended: for a Point, a Polyline or a Polygon whose coordinates
    are values that JSON carries (of the numbers: the finite ones, the
    negative zero apart), a layer identifier that is such a number, a
    boolean or [null], any operation, and attributes whose text from the
    codec parses as JSON, [_deserializeGraphic] applied to the
    serialization without the token (the piece the queue holds) gives
    back the geometry, the layer identifier and the operation. *)
Theorem deserialize_serialized (g : Geometry) (attrs a' : json) (layer : Layer)
    (enumValue : string) :
  let graphic := {| geometry := Some g; attributes := attrs |} in
  parses_back (layerId layer) = true ->
  well_formed_geometry g = true ->
  JSON_parse (attributes_field graphic) = Ok a' ->
  _deserializeGraphic (_serializeGraphicNoToken graphic layer enumValue)
  = Ok {| dec_graphic := {| geometry := Some g; attributes := a' |};
          dec_layer := layerId layer;
          dec_enumValue := Some (JStr enumValue) |}.
Proof.
  intros graphic Hl Hg Ha.
  unfold _deserializeGraphic. rewrite serialize_text.
  rewrite JSON_parse_text by (apply well_formed_record, parses_back_well_formed, Hl).
  cbn [rbind]. unfold record_json.
  destruct (attributes_field graphic) as [a|] eqn:Hattr; [|discriminate Ha].
  cbn [props geometry graphic stringify_geometry].
  match goal with |- context [get (Some ?r) "geometry"] => set (record := r) end.
  change (get (Some record) "geometry")
    with (Ok (A := jsval) (Some (JStr (stringify (geometry_json g))))).
  change (get (Some record) "attributes") with (Ok (A := jsval) (Some a)).
  change (get (Some record) "enumValue") with (Ok (A := jsval) (Some (JStr enumValue))).
  change (get (Some record) "layer") with (Ok (A := jsval) (Some (layerId layer))).
  cbn [rbind].
  rewrite JSON_parse_text by (apply well_formed_geometry_json, Hg).
  cbn [rbind]. rewrite Ha. cbn [rbind].
  rewrite (JSON_parse_back _ Hl). cbn [rbind].
  rewrite decode_geometry. reflexivity.
Qed.

End Codec.

(** * Admission *)

Section Admission.
Context {substrate : Substrate} {codec : AttributeCodec} {utils : OfflineUtils}.

Lemma add_no_rejection (graphic : Graphic) (layer : Layer) (enumValue : string)
    (callback : Handler) (w : World) :
  existsb is_rejection
          (effects (_addToLocalStore graphic layer enumValue callback w)) = false.
Proof.
  destruct (localStorage w !! STORAGE_KEY) as [localStore|] eqn:Hst.
  - pose proof (run_update w localStore
                  (_serializeGraphic graphic layer enumValue) Hst) as Hu.
    destruct (is_duplicate _ _); cbv zeta in Hu;
      rewrite (run_add_existing _ _ _ _ _ _ _ _ _ Hst Hu);
      destruct callback; reflexivity.
  - rewrite (run_add_first _ _ _ _ _ _ _ _ Hst (run_setTemp _ _)).
    destruct callback; reflexivity.
Qed.

Lemma layerEditManager_no_rejection (graphic : Graphic) (layer : Layer)
    (enumValue : string) (cb : Callback) (w : World) :
  existsb is_rejection
    (effects (_layerEditManager graphic (Some layer) (Some (JStr enumValue)) cb w))
  = false.
Proof.
  unfold _layerEditManager.
  destruct (String.eqb enumValue DELETE); [reflexivity|].
  destruct (String.eqb enumValue ADD); [reflexivity|].
  destruct (String.eqb enumValue UPDATE); reflexivity.
Qed.

Lemma startOfflineListener_effects (w : World) :
  effects (_startOfflineListener w) = [].
Proof.
  unfold _startOfflineListener, bind, read. cbn [out world effects].
  destruct (_reestablishedInternetListener w); reflexivity.
Qed.

Lemma Qgt_bool_iff (a b : Q) : Qgt_bool a b = true <-> (b < a)%Q.
Proof.
  unfold Qgt_bool. rewrite negb_true_iff, <- not_true_iff_false, Qle_bool_iff.
  split; [apply Qnot_le_lt|apply Qlt_not_le].
Qed.

(** The occupancy alone does not exceed the limit when the occupancy
    with the candidate does not. *)
Lemma occupancy_within (graphic : Graphic) (w : World) :
  (0 <= apprxGraphicSize graphic)%Q ->
  Qgt_bool (apprxGraphicSize graphic + getlocalStorageUsed w)
           LOCAL_STORAGE_MAX_LIMIT = false ->
  Qgt_bool (getlocalStorageUsed w) LOCAL_STORAGE_MAX_LIMIT = false.
Proof.
  intros Hsize Hsum.
  apply not_true_iff_false. intros Hocc. apply Qgt_bool_iff in Hocc.
  apply not_true_iff_false in Hsum. apply Hsum, Qgt_bool_iff.
  eapply Qlt_le_trans; [exact Hocc|].
  rewrite <- (Qplus_0_l (getlocalStorageUsed w)) at 1.
  apply Qplus_le_compat; [exact Hsize|apply Qle_refl].
Qed.

(** An edit that passed both tests is not turned away. *)
Lemma admitted_no_rejection (internet : bool) (graphic : Graphic) (layer : Layer)
    (enumValue : string) (callback : Handler) (w : World) :
  existsb is_rejection
    (effects ((if negb internet
               then _addToLocalStore graphic layer enumValue callback ;;
                    _startOfflineListener
               else _layerEditManager graphic (Some layer) (Some (JStr enumValue))
                                      CbLog) w)) = false.
Proof.
  destruct internet; cbn [negb].
  - apply layerEditManager_no_rejection.
  - unfold bind.
    pose proof (add_no_rejection graphic layer enumValue callback w) as Hadd.
    destruct (out (_addToLocalStore graphic layer enumValue callback w));
      cbn [out world effects]; [|exact Hadd].
    rewrite startOfflineListener_effects, app_nil_r. exact Hadd.
Qed.

(** X2: an edit that is turned away leaves no trace.  Whenever
    [_applyEdits] alerts the user or calls back with [false], that is all
    it does: one alert, then the call of the callback with
    [(0, false, 0)], or a [TypeError] in its place when there is no
    callback.  Nothing is stored, no call goes to the feature layer, the
    graphic is not added to the layer and no listener is registered: the
    store is as it was before. *)
Theorem rejected_edit_leaves_no_trace (internet : bool) (graphic : Graphic)
    (layer : Layer) (enumValue : string) (callback : Handler) (w : World) :
  let r := _applyEdits internet graphic layer enumValue callback w in
  existsb is_rejection (effects r) = true ->
  world r = w
  /\ out r = match callback with Given => Ok tt | Omitted => Throw TypeError end
  /\ exists m,
       effects r
       = Alert m :: match callback with
                    | Given => [CallerCallback 0 ArgFalse 0]
                    | Omitted => []
                    end.
Proof.
  intros r.
  assert (Hr : r
    = if Qgt_bool (apprxGraphicSize graphic + getlocalStorageUsed w)
                  LOCAL_STORAGE_MAX_LIMIT
      then {| out := returned callback; world := w;
              effects := Alert (GraphicTooBig (apprxGraphicSize graphic))
                         :: match callback with
                            | Given => [CallerCallback 0 ArgFalse 0]
                            | Omitted => []
                            end |}
      else if Qgt_bool (getlocalStorageUsed w) LOCAL_STORAGE_MAX_LIMIT
      then {| out := returned callback; world := w;
              effects := Alert AlmostOverLimit
                         :: match callback with
                            | Given => [CallerCallback 0 ArgFalse 0]
                            | Omitted => []
                            end |}
      else (if negb internet
            then _addToLocalStore graphic layer enumValue callback ;;
                 _startOfflineListener
            else _layerEditManager graphic (Some layer) (Some (JStr enumValue))
                                   CbLog) w).
  { unfold r, _applyEdits, bind at 1, read. cbn [out world effects].
    destruct (Qgt_bool (apprxGraphicSize graphic + getlocalStorageUsed w)
                       LOCAL_STORAGE_MAX_LIMIT); [destruct callback; reflexivity|].
    destruct (Qgt_bool (getlocalStorageUsed w) LOCAL_STORAGE_MAX_LIMIT);
      [destruct callback; reflexivity|].
    destruct (if negb internet then _ else _) as [o w' es]. reflexivity. }
  rewrite Hr. clear Hr r.
  destruct (Qgt_bool (apprxGraphicSize graphic + getlocalStorageUsed w)
                     LOCAL_STORAGE_MAX_LIMIT).
  { intros _. cbn [out world effects]. destruct callback; repeat split; eexists;
      reflexivity. }
  destruct (Qgt_bool (getlocalStorageUsed w) LOCAL_STORAGE_MAX_LIMIT).
  { intros _. cbn [out world effects]. destruct callback; repeat split; eexists;
      reflexivity. }
  rewrite admitted_no_rejection. discriminate.
Qed.

(** X4: a candidate of size [S >= 0] is never turned away by the second
    test, the one on the occupancy alone. *)
Theorem almost_over_limit_unreachable (internet : bool) (graphic : Graphic)
    (layer : Layer) (enumValue : string) (callback : Handler) (w : World) :
  (0 <= apprxGraphicSize graphic)%Q ->
  existsb is_almost_over_limit
          (effects (_applyEdits internet graphic layer enumValue callback w)) = false.
Proof.
  intros Hsize. unfold _applyEdits, bind at 1, read. cbn [out world effects].
  destruct (Qgt_bool (apprxGraphicSize graphic + getlocalStorageUsed w)
                     LOCAL_STORAGE_MAX_LIMIT) eqn:Hsum.
  { destruct callback; reflexivity. }
  rewrite (occupancy_within graphic w Hsize Hsum). cbn [app].
  pose proof (admitted_no_rejection internet graphic layer enumValue callback w)
    as Hrej.
  apply not_true_iff_false. intros H. apply not_true_iff_false in Hrej.
  apply Hrej. apply existsb_exists in H as (e & He & Hal).
  apply existsb_exists. exists e. split; [exact He|].
  destruct e as [[]| | | | | | |]; try discriminate Hal. reflexivity.
Qed.

End Admission.

(** * Replay *)

Section Replay.
Context {substrate : Substrate} {codec : AttributeCodec} {utils : OfflineUtils}.

Lemma bind_assoc {A B C : Type} (m : M A) (f : A -> M B) (g : B -> M C) (w : World) :
  bind (bind m f) g w = bind m (fun a => bind (f a) g) w.
Proof.
  unfold bind. destruct (out (m w)); cbn [out world effects]; [|reflexivity].
  destruct (out (f a (world (m w)))); cbn [out world effects];
    rewrite ?List.app_assoc; reflexivity.
Qed.

Lemma bind_ext {A B : Type} (m : M A) (f g : A -> M B) (w : World) :
  (forall a w', f a w' = g a w') -> bind m f w = bind m g w.
Proof.
  intros H. unfold bind. destruct (out (m w)); [|reflexivity].
  rewrite H. reflexivity.
Qed.

Lemma for_each_app {A : Type} (l l' : list A) (body : A -> M unit) (w : World) :
  for_each (l ++ l') body w = bind (for_each l body) (fun _ => for_each l' body) w.
Proof.
  revert w. induction l as [|a l IH]; intros w.
  - cbn [app for_each]. unfold bind, ret. cbn [out world effects].
    apply run_eta.
  - cbn [app for_each]. rewrite bind_assoc. apply bind_ext. intros _. exact IH.
Qed.

(** ** What a turn of the loop leaves alone *)

Lemma same_store_refl (w : World) : same_store w w.
Proof. split; reflexivity. Qed.

Lemma same_store_trans (w1 w2 w3 : World) :
  same_store w1 w2 -> same_store w2 w3 -> same_store w1 w3.
Proof. intros [H1 H2] [H3 H4]. split; congruence. Qed.

Lemma keeps_bind {A B : Type} (m : M A) (f : A -> M B) :
  keeps_store m -> (forall a, keeps_store (f a)) -> keeps_store (bind m f).
Proof.
  intros Hm Hf w. unfold bind. destruct (out (m w)); cbn [world]; [|apply Hm].
  eapply same_store_trans; [apply Hm|apply Hf].
Qed.

Lemma keeps_ret {A : Type} (a : A) : keeps_store (ret a).
Proof. intros w. apply same_store_refl. Qed.

Lemma keeps_throw {A : Type} (e : exn) : keeps_store (throw (A := A) e).
Proof. intros w. apply same_store_refl. Qed.

Lemma keeps_lift {A : Type} (r : result A) : keeps_store (lift r).
Proof. intros w. apply same_store_refl. Qed.

Lemma keeps_read {A : Type} (f : World -> A) : keeps_store (read f).
Proof. intros w. apply same_store_refl. Qed.

Lemma keeps_emit (e : Effect) : keeps_store (emit e).
Proof. intros w. apply same_store_refl. Qed.

Lemma keeps_assign_item (frame : nat) (item : string) :
  keeps_store (assign_item frame item).
Proof. intros w. split; [reflexivity|]. cbn. apply length_alter. Qed.

Lemma keeps_assign_graphic (frame : nat) (graphic : Decoded) :
  keeps_store (assign_graphic frame graphic).
Proof. intros w. split; [reflexivity|]. cbn. apply length_alter. Qed.

Lemma keeps_layerEditManager (graphic : Graphic) (layer : option Layer)
    (value : jsval) (cb : Callback) :
  keeps_store (_layerEditManager graphic layer value cb).
Proof.
  assert (H : forall kind, keeps_store (layer_applyEdits layer kind graphic cb)).
  { intros kind. unfold layer_applyEdits. destruct layer; [|apply keeps_throw].
    apply keeps_bind; [|intros; apply keeps_emit].
    intros w. split; reflexivity. }
  unfold _layerEditManager. destruct value as [[]|]; try apply keeps_ret.
  destruct (String.eqb s DELETE); [apply H|].
  destruct (String.eqb s ADD); [apply H|].
  destruct (String.eqb s UPDATE); [apply H|apply keeps_ret].
Qed.

Lemma keeps_replay_item (frame : nat) (item : string) :
  keeps_store (replay_item frame item).
Proof.
  unfold replay_item. apply keeps_bind; [apply keeps_assign_item|]. intros _.
  destruct (Js.nonempty item); [|apply keeps_ret].
  apply keeps_bind; [apply keeps_lift|]. intros graphic.
  apply keeps_bind; [apply keeps_assign_graphic|]. intros _.
  apply keeps_bind; [apply keeps_read|]. intros layer.
  apply keeps_layerEditManager.
Qed.

Lemma keeps_for_each {A : Type} (l : list A) (body : A -> M unit) :
  (forall a, keeps_store (body a)) -> keeps_store (for_each l body).
Proof.
  intros Hbody. induction l as [|a l IH]; [apply keeps_ret|].
  cbn [for_each]. apply keeps_bind; [apply Hbody|]. intros _. exact IH.
Qed.

(** ** What a completion leaves alone *)

Lemma keeps_queue_bind {A B : Type} (m : M A) (f : A -> M B) :
  keeps_queue m -> (forall a, keeps_queue (f a)) -> keeps_queue (bind m f).
Proof.
  intros Hm Hf w. unfold bind. destruct (out (m w)); cbn [world]; [|apply Hm].
  rewrite Hf. apply Hm.
Qed.

Lemma keeps_queue_try_catch {A : Type} (m : M A) (h : exn -> M A) :
  keeps_queue m -> (forall e, keeps_queue (h e)) -> keeps_queue (try_catch m h).
Proof.
  intros Hm Hh w. unfold try_catch. destruct (out (m w)); cbn [world]; [apply Hm|].
  rewrite Hh. apply Hm.
Qed.

Lemma keeps_queue_ret {A : Type} (a : A) : keeps_queue (ret a).
Proof. intros w. reflexivity. Qed.

Lemma keeps_queue_throw {A : Type} (e : exn) : keeps_queue (throw (A := A) e).
Proof. intros w. reflexivity. Qed.

Lemma keeps_queue_read {A : Type} (f : World -> A) : keeps_queue (read f).
Proof. intros w. reflexivity. Qed.

Lemma keeps_queue_emit (e : Effect) : keeps_queue (emit e).
Proof. intros w. reflexivity. Qed.

Lemma keeps_queue_called_by_browser (m : M unit) :
  keeps_queue m -> keeps_queue (called_by_browser m).
Proof.
  intros Hm. apply keeps_queue_try_catch; [exact Hm|].
  intros e. apply keeps_queue_emit.
Qed.

Lemma keeps_queue_setItem_index (value : string) :
  keeps_queue (setItem INDEX_KEY value).
Proof.
  intros w. unfold setItem. destruct (accepts _ _ _); cbn [world]; [|reflexivity].
  cbn [with_localStorage localStorage]. apply lookup_insert_ne. discriminate.
Qed.

Lemma keeps_queue_dispatch_index (o : _indexObject) (event : string) :
  keeps_queue (_dispatchEvent (MsgIndex o) event).
Proof.
  unfold _dispatchEvent. apply keeps_queue_bind; [apply keeps_queue_emit|].
  intros _. apply keeps_queue_bind; [apply keeps_queue_read|].
  intros [|]; [|apply keeps_queue_ret].
  apply keeps_queue_called_by_browser. apply keeps_queue_ret.
Qed.

Lemma keeps_queue_setItemLocalStoreIndexObject (o : _indexObject) :
  keeps_queue (_setItemLocalStoreIndexObject o).
Proof.
  unfold _setItemLocalStoreIndexObject.
  apply keeps_queue_bind; [apply keeps_queue_read|]. intros localStore.
  apply keeps_queue_try_catch; [|intros; apply keeps_queue_ret].
  apply keeps_queue_bind.
  - destruct localStore; apply keeps_queue_setItem_index.
  - intros _. apply keeps_queue_bind; [apply keeps_queue_dispatch_index|].
    intros _. apply keeps_queue_ret.
Qed.

(** No piece of the store is deleted for the empty string. *)
Lemma index_of_entry_empty (splitStore : list string) :
  index_of_entry "" splitStore = None.
Proof.
  induction splitStore as [|test l IH]; [reflexivity|].
  cbn [index_of_entry]. rewrite IH.
  destruct test; reflexivity.
Qed.

Lemma keeps_queue_delete_empty : keeps_queue (_deleteItemInLocalStore "").
Proof.
  unfold _deleteItemInLocalStore.
  apply keeps_queue_bind; [apply keeps_queue_read|].
  intros [localStore|]; [|apply keeps_queue_ret].
  rewrite index_of_entry_empty. apply keeps_queue_ret.
Qed.

(** The callback of a replay whose activation holds the empty string in
    [item] leaves the queue as it is. *)
Lemma replay_callback_keeps_queue (frame : nat) (num : Z) (success : bool)
    (id : json) (date : string) (fr : Frame) (w : World) :
  frames w !! frame = Some fr ->
  fr_item fr = Some "" ->
  localStorage (world (replay_callback frame num success id date w)) !! STORAGE_KEY
  = localStorage w !! STORAGE_KEY.
Proof.
  intros Hfr Hitem. unfold replay_callback.
  rewrite bind_ok with (a := Some fr) (w1 := w) (e1 := []);
    [|unfold read; rewrite Hfr; reflexivity].
  cbn [world]. destruct fr as [item [graphic|]]; [|reflexivity].
  cbn [fr_item] in Hitem. subst item.
  destruct (geometry (dec_graphic graphic)); [|reflexivity].
  apply keeps_queue_bind; [apply keeps_queue_delete_empty|]. intros _.
  apply keeps_queue_bind; [apply keeps_queue_setItemLocalStoreIndexObject|].
  intros _. apply keeps_queue_ret.
Qed.

(** A replay that runs to its end leaves the empty string in [item]: the
    last piece of the split store. *)
Lemma replay_last_item (w : World) (rs : list string) :
  Forall (fun r => clean r = true) rs ->
  localStorage w !! STORAGE_KEY = Some (blob rs) ->
  out (_reestablishedInternet w) = Ok tt ->
  localStorage (world (_reestablishedInternet w)) = localStorage w /\
  exists fr, frames (world (_reestablishedInternet w)) !! length (frames w) = Some fr /\
             fr_item fr = Some "".
Proof.
  intros Hrs Hst. unfold _reestablishedInternet.
  rewrite (bind_ok _ _ _ _ _ _ (run_getItem STORAGE_KEY w)), Hst.
  rewrite split_blob by exact Hrs. cbn [out world].
  set (frame := length (frames w)).
  set (w0 := with_frames (frames w ++ [{| fr_item := None; fr_graphic := None |}]) w).
  rewrite bind_ok with (a := frame) (w1 := w0) (e1 := []) by reflexivity.
  cbn [out world]. rewrite for_each_app.
  pose proof (keeps_for_each rs (replay_item frame) (keeps_replay_item frame) w0)
    as [Hls Hlen].
  unfold bind at 1 2 3.
  destruct (out (for_each rs (replay_item frame) w0)) as [[]|e]; [|discriminate].
  cbn [out world]. set (w1 := world (for_each rs (replay_item frame) w0)) in *.
  intros _. split; [exact Hls|].
  assert (Hlt : frame < length (frames w1)).
  { rewrite Hlen. unfold w0. cbn [with_frames frames]. rewrite length_app.
    cbn [length]. unfold frame. lia. }
  apply lookup_lt_is_Some_2 in Hlt. destruct Hlt as [fr0 Hfr0].
  exists {| fr_item := Some ""; fr_graphic := fr_graphic fr0 |}.
  split; [|reflexivity].
  cbn. rewrite list_lookup_alter_eq, Hfr0. reflexivity.
Qed.

(** X5: a replay that runs to its end removes no record, whichever of
    its calls completes and whatever the result: the completion callback
    deletes the piece of the store equal to [item], and [item] is the
    empty string, the last piece of the split store, by then. *)
Theorem replay_completion_keeps_queue (w : World) (rs : list string) (i : nat)
    (rq : Request) (addResult updateResult deleteResult : option (list EditResult))
    (date : string) :
  Forall (fun r => clean r = true) rs ->
  localStorage w !! STORAGE_KEY = Some (blob rs) ->
  out (_reestablishedInternet w) = Ok tt ->
  requests (world (_reestablishedInternet w)) !! i = Some rq ->
  rq_callback rq = CbReplay (length (frames w)) ->
  pending (world (backend_completes i addResult updateResult deleteResult date
                    (world (_reestablishedInternet w)))) = rs.
Proof.
  intros Hrs Hst Hout Hrq Hcb.
  destruct (replay_last_item w rs Hrs Hst Hout) as [Hls [fr [Hfr Hitem]]].
  set (up := world (_reestablishedInternet w)) in *.
  rewrite <- (pending_stored w rs Hrs Hst). unfold pending.
  replace (localStorage w !! STORAGE_KEY) with (localStorage up !! STORAGE_KEY)
    by (rewrite Hls; reflexivity).
  match goal with |- match ?a with _ => _ end = match ?b with _ => _ end =>
    replace a with b; [reflexivity|] end.
  symmetry. unfold backend_completes.
  set (w1 := with_requests (delete i (requests up)) up).
  rewrite bind_ok with (a := Some rq) (w1 := w1) (e1 := [])
    by (unfold take_request; rewrite Hrq; reflexivity).
  cbn [world].
  change (localStorage up) with (localStorage w1).
  assert (Hcall : forall num success id,
    localStorage (world (call_mCallback (rq_callback rq) num success id date w1))
      !! STORAGE_KEY = localStorage w1 !! STORAGE_KEY).
  { intros. rewrite Hcb. cbn [call_mCallback].
    apply replay_callback_keeps_queue with (fr := fr); [exact Hfr|exact Hitem]. }
  unfold called_by_browser, try_catch.
  assert (Hon : localStorage (world (on_complete rq addResult updateResult
                                        deleteResult date w1)) !! STORAGE_KEY
                = localStorage w1 !! STORAGE_KEY).
  { unfold on_complete.
    rewrite bind_ok with (a := count w1) (w1 := w1) (e1 := []) by reflexivity.
    cbn [world].
    destruct (rq_kind rq).
    - destruct deleteResult as [[|r l]|]; try reflexivity. apply Hcall.
    - destruct addResult as [[|r l]|]; try reflexivity. apply Hcall.
    - destruct updateResult as [u|]; [|reflexivity].
      destruct deleteResult as [[|d l]|]; try reflexivity.
      destruct u as [|r u]; [reflexivity|]. apply Hcall. }
  destruct (out (on_complete rq addResult updateResult deleteResult date w1));
    cbn [world]; exact Hon.
Qed.
End Replay.

(** * What the replay submits *)

Section Decoding.
Context {codec : AttributeCodec}.

Lemma getStore_from_acc (acc : list Decoded) (split : list string) :
  getStore_from acc split
  = rbind (getStore_from [] split) (fun ds => Ok (acc ++ ds)).
Proof.
  revert acc. induction split as [|item split IH]; intros acc.
  - cbn. rewrite app_nil_r. reflexivity.
  - cbn [getStore_from]. destruct (Js.nonempty item); [|apply IH].
    destruct (_deserializeGraphic item) as [d|e]; [|reflexivity].
    cbn [rbind]. rewrite (IH (acc ++ [d])), (IH ([] ++ [d])).
    destruct (getStore_from [] split) as [ds|e]; [|reflexivity].
    cbn [rbind]. rewrite <- List.app_assoc. reflexivity.
Qed.


(** [_deserializeGraphic] on the record of a graphic of a numbered layer
    whose attributes parse: the graphic comes back, unless it has no
    geometry, where reading [geometry.type] fails. *)
Lemma deserialize_record (graphic : Graphic) (a' : json) (layer : Layer)
    (enumValue : string) (n : Z) :
  layerId layer = JNum n ->
  safe_integer n = true ->
  match geometry graphic with
  | Some g => well_formed_geometry g = true
  | None => True
  end ->
  JSON_parse (attributes_field graphic) = Ok a' ->
  _deserializeGraphic (_serializeGraphicNoToken graphic layer enumValue)
  = match geometry graphic with
    | Some g => Ok {| dec_graphic := {| geometry := Some g; attributes := a' |};
                      dec_layer := JNum n;
                      dec_enumValue := Some (JStr enumValue) |}
    | None => Throw TypeError
    end.
Proof.
  intros Hl Hn Hg Ha.
  unfold _deserializeGraphic. rewrite serialize_text.
  rewrite JSON_parse_text
    by (apply well_formed_record; rewrite Hl; apply (json_number_of_Z n)).
  cbn [rbind]. unfold record_json. rewrite Hl.
  destruct (attributes_field graphic) as [a|] eqn:Hattr; [|discriminate Ha].
  cbn [props].
  match goal with |- context [get (Some ?r) "geometry"] => set (rec := r) end.
  change (get (Some rec) "geometry")
    with (Ok (A := jsval) (Some (JStr (stringify_geometry (geometry graphic))))).
  change (get (Some rec) "attributes") with (Ok (A := jsval) (Some a)).
  change (get (Some rec) "enumValue") with (Ok (A := jsval) (Some (JStr enumValue))).
  change (get (Some rec) "layer") with (Ok (A := jsval) (Some (JNum n))).
  cbn [rbind]. destruct (geometry graphic) as [g|]; cbn [stringify_geometry].
  - rewrite JSON_parse_text by (apply well_formed_geometry_json, Hg).
    cbn [rbind]. rewrite Ha. cbn [rbind].
    rewrite (JSON_parse_number n). cbn [rbind].
    rewrite decode_geometry. reflexivity.
  - change (JSON_parse (Some (JStr "null"))) with (Ok JNull).
    cbn [rbind]. rewrite Ha. cbn [rbind].
    rewrite (JSON_parse_number n). reflexivity.
Qed.

Lemma reads_back_clean (e : Edit) (d : Decoded) :
  reads_back e d -> clean (record e) = true.
Proof.
  intros (g & n & _ & _ & _ & _ & _ & Hfree & _). apply clean_object, Hfree.
Qed.

Lemma reads_back_deserialize (e : Edit) (d : Decoded) :
  reads_back e d -> _deserializeGraphic (record e) = Ok d.
Proof.
  intros (g & n & Hg & Hwf & Hl & Hn & Ha & _ & Hdg & Hdl & Hde).
  unfold record.
  rewrite (deserialize_record _ (attributes (dec_graphic d)) _ _ n Hl Hn);
    [|rewrite Hg; exact Hwf|exact Ha].
  rewrite Hg. destruct d as [[dg da] dl de]. cbn in *. subst. reflexivity.
Qed.

Lemma getStore_from_records (es : list Edit) (ds : list Decoded) :
  Forall2 reads_back es ds ->
  getStore_from [] (map record es ++ [""]) = Ok ds.
Proof.
  induction 1 as [|e d es ds Hed _ IH]; [reflexivity|].
  cbn [map app getStore_from].
  rewrite (clean_nonempty _ (reads_back_clean e d Hed)).
  rewrite (reads_back_deserialize e d Hed). cbn [rbind].
  rewrite getStore_from_acc, IH. reflexivity.
Qed.

Lemma run_getStore (w : World) (es : list Edit) (ds : list Decoded) :
  Forall2 reads_back es ds ->
  localStorage w !! STORAGE_KEY = Some (blob (map record es)) ->
  getStore w = {| out := Ok (Some ds); world := w; effects := [] |}.
Proof.
  intros Hes Hst. unfold getStore.
  rewrite (bind_ok _ _ _ _ _ _ (run_getItem STORAGE_KEY w)), Hst.
  rewrite split_blob.
  2:{ apply Forall_map. eapply Forall2_Forall_l; [exact Hes|].
      apply Forall_forall. intros d _ e He. cbn. exact (reads_back_clean e d He). }
  rewrite (getStore_from_records es ds Hes). reflexivity.
Qed.

(** X7: [getStore] on a queue whose edits can be read back lists them
    decoded, in the order of the queue, and changes nothing.  An edit can
    be read back when its geometry is a Point, a Polyline or a Polygon
    whose coordinates JSON carries (finite numbers, fractional ones
    included), its layer identifier is an integer, the text the codec
    gives for its attributes parses, and its record does not contain the
    token. *)
Theorem getStore_lists_queue (w : World) (es : list Edit) (ds : list Decoded) :
  Forall2 reads_back es ds ->
  localStorage w !! STORAGE_KEY = Some (blob (map record es)) ->
  getStore w = {| out := Ok (Some ds); world := w; effects := [] |}.
Proof.
  intros Hes Hst.
  assert (Hc : Forall (fun r => clean r = true) (map record es)).
  { apply Forall_map. eapply Forall2_Forall_l; [exact Hes|].
    apply Forall_forall. intros d _ e He. exact (reads_back_clean e d He). }
  unfold getStore.
  rewrite (bind_ok _ _ _ _ _ _ (run_getItem STORAGE_KEY w)), Hst.
  rewrite (split_blob _ Hc), (getStore_from_records es ds Hes). reflexivity.
Qed.

(** The record of a graphic without geometry: [JSON.parse] of its
    geometry text is [null], and [geometry.type] cannot be read. *)
Lemma deserialize_no_geometry (e : Edit) :
  geometry (ed_graphic e) = None ->
  well_formed (layerId (ed_layer e)) = true ->
  exists x, _deserializeGraphic (record e) = Throw x.
Proof.
  intros Hg Hl. unfold record, _deserializeGraphic. rewrite serialize_text.
  rewrite JSON_parse_text by (apply well_formed_record, Hl).
  cbn [rbind]. unfold record_json. rewrite Hg.
  destruct (attributes_field (ed_graphic e)) as [a|] eqn:Hattr.
  - cbn [props stringify_geometry].
    match goal with |- context [get (Some ?r) "geometry"] => set (rec := r) end.
    change (get (Some rec) "geometry") with (Ok (A := jsval) (Some (JStr "null"))).
    change (get (Some rec) "attributes") with (Ok (A := jsval) (Some a)).
    change (get (Some rec) "enumValue")
      with (Ok (A := jsval) (Some (JStr (ed_enumValue e)))).
    change (get (Some rec) "layer")
      with (Ok (A := jsval) (Some (layerId (ed_layer e)))).
    cbn [rbind]. change (JSON_parse (Some (JStr "null"))) with (Ok JNull).
    cbn [rbind]. destruct (JSON_parse (Some a)); [|eexists; reflexivity].
    cbn [rbind]. destruct (JSON_parse (Some (layerId (ed_layer e))));
      eexists; reflexivity.
  - cbn [props stringify_geometry].
    match goal with |- context [get (Some ?r) "geometry"] => set (rec := r) end.
    change (get (Some rec) "geometry") with (Ok (A := jsval) (Some (JStr "null"))).
    change (get (Some rec) "attributes") with (Ok (A := jsval) None).
    cbn [rbind]. change (JSON_parse (Some (JStr "null"))) with (Ok JNull).
    cbn [rbind]. eexists. reflexivity.
Qed.

Lemma getStore_from_throws (acc : list Decoded) (rs : list string) (r : string)
    (tail : list string) :
  Js.nonempty r = true ->
  (exists x, _deserializeGraphic r = Throw x) ->
  r ∈ rs ->
  exists x, getStore_from acc (rs ++ tail) = Throw x.
Proof.
  intros Hne [x Hx] Hin. revert acc.
  induction rs as [|a rs IH]; intros acc; [inversion Hin|].
  cbn [app getStore_from]. destruct (Js.nonempty a) eqn:Ha.
  - destruct (_deserializeGraphic a) as [d|y] eqn:Hd; [|eexists; reflexivity].
    cbn [rbind]. apply elem_of_cons in Hin as [->|Hin]; [congruence|].
    apply IH, Hin.
  - apply elem_of_cons in Hin as [->|Hin]; [congruence|]. apply IH, Hin.
Qed.

End Decoding.

Section ReplaySubmits.
Context {substrate : Substrate} {codec : AttributeCodec} {utils : OfflineUtils}.

(** A call of [_layerEditManager] for a decoded edit that names an
    operation and a known layer. *)
Lemma run_layerEditManager (graphic : Graphic) (layer : Layer) (value : jsval)
    (cb : Callback) (kind : EditKind) (w : World) :
  kind_of value = Some kind ->
  let rq := {| rq_kind := kind; rq_layer := layer; rq_graphic := graphic;
               rq_callback := cb |} in
  _layerEditManager graphic (Some layer) value cb w
  = {| out := Ok tt; world := with_requests (requests w ++ [rq]) w;
       effects := [ApplyEdits rq] |}.
Proof.
  unfold kind_of, _layerEditManager. destruct value as [[| | |v| |]|]; try discriminate.
  destruct (String.eqb v DELETE); [intros [= <-]; reflexivity|].
  destruct (String.eqb v ADD); [intros [= <-]; reflexivity|].
  destruct (String.eqb v UPDATE); [intros [= <-]; reflexivity|discriminate].
Qed.

Lemma run_replay_items (w0 : World) (frame : nat) (split : list string) :
  forall (ds : list Decoded) (rqs done : list Request) (w : World),
  getStore_from [] split = Ok ds ->
  Forall2 (submits w0 frame) ds rqs ->
  submitted w0 frame done w ->
  exists w',
    for_each split (replay_item frame) w
    = {| out := Ok tt; world := w'; effects := map ApplyEdits rqs |}
    /\ submitted w0 frame (done ++ rqs) w'.
Proof.
  induction split as [|item split IH]; intros ds rqs done w Hds Hsub Hw.
  - cbn in Hds. injection Hds as <-. inversion Hsub; subst.
    exists w. rewrite app_nil_r. auto.
  - cbn [getStore_from] in Hds. cbn [for_each]. unfold replay_item at 1.
    rewrite bind_assoc.
    set (w1 := with_frames
                 (alter (fun fr => {| fr_item := Some item; fr_graphic := fr_graphic fr |})
                        frame (frames w)) w).
    rewrite bind_ok with (a := tt) (w1 := w1) (e1 := []) by reflexivity.
    assert (Hw1 : submitted w0 frame done w1).
    { destruct Hw as (H1 & H2 & H3 & H4). repeat split; try assumption.
      unfold w1. cbn. rewrite length_alter. exact H4. }
    cbn [app]. clearbody w1. clear w Hw.
    destruct (Js.nonempty item).
    + destruct (_deserializeGraphic item) as [d|e] eqn:Hd; [|discriminate Hds].
      cbn [rbind] in Hds. rewrite getStore_from_acc in Hds.
      destruct (getStore_from [] split) as [ds'|e] eqn:Hds'; [|discriminate Hds].
      cbn in Hds. injection Hds as <-.
      apply Forall2_cons_inv_l in Hsub as (rq & rqs' & Hrq & Hsub & ->).
      destruct Hrq as (Hkind & Hlayer & Hgr & Hcb).
      rewrite !bind_assoc.
      rewrite bind_ok with (a := d) (w1 := w1) (e1 := [])
        by (unfold lift; reflexivity).
      rewrite !bind_assoc.
      set (w2 := with_frames
                   (alter (fun fr => {| fr_item := fr_item fr; fr_graphic := Some d |})
                          frame (frames w1)) w1).
      rewrite bind_ok with (a := tt) (w1 := w2) (e1 := []) by reflexivity.
      assert (Hw2 : submitted w0 frame done w2).
      { destruct Hw1 as (H1 & H2 & H3 & H4). repeat split; try assumption.
        unfold w2. cbn. rewrite length_alter. exact H4. }
      clearbody w2. clear w1 Hw1.
      rewrite !bind_assoc.
      rewrite bind_ok with (a := Some (rq_layer rq)) (w1 := w2) (e1 := []).
      2:{ unfold getGraphicsLayerById, read. destruct Hw2 as (_ & -> & _).
          rewrite Hlayer. reflexivity. }
      set (rq' := {| rq_kind := rq_kind rq; rq_layer := rq_layer rq;
                     rq_graphic := dec_graphic d; rq_callback := CbReplay frame |}).
      assert (Hrq' : rq' = rq).
      { unfold rq'. destruct rq. cbn in *. congruence. }
      rewrite bind_ok with (a := tt) (w1 := with_requests (requests w2 ++ [rq']) w2)
                           (e1 := [ApplyEdits rq'])
        by (apply run_layerEditManager, Hkind).
      rewrite Hrq'. clear rq' Hrq'.
      cbn [app].
      destruct (IH ds' rqs' (done ++ [rq])
                   (with_requests (requests w2 ++ [rq]) w2) eq_refl Hsub)
        as (w' & Hrun & Hs).
      { destruct Hw2 as (H1 & H2 & H3 & H4). repeat split; try assumption.
        cbn. rewrite H3, <- List.app_assoc. reflexivity. }
      exists w'. rewrite Hrun. cbn [out world effects map].
      rewrite <- List.app_assoc in Hs. auto.
    + rewrite bind_ok with (a := tt) (w1 := w1) (e1 := []) by reflexivity.
      cbn [app].
      destruct (IH ds rqs done w1 Hds Hsub Hw1) as (w' & Hrun & Hs).
      exists w'. rewrite Hrun. auto.
Qed.

(** The replay of a queue that [getStore] lists. *)
Lemma run_reestablishedInternet (w : World) (ds : list Decoded) (rqs : list Request) :
  out (getStore w) = Ok (Some ds) ->
  Forall2 (submits w (length (frames w))) ds rqs ->
  exists w',
    _reestablishedInternet w
    = {| out := Ok tt; world := w'; effects := map ApplyEdits rqs |}
    /\ submitted w (length (frames w)) rqs w'.
Proof.
  intros Hstore Hsub. unfold getStore in Hstore. unfold _reestablishedInternet.
  rewrite (bind_ok _ _ _ _ _ _ (run_getItem STORAGE_KEY w)) in Hstore.
  rewrite (bind_ok _ _ _ _ _ _ (run_getItem STORAGE_KEY w)).
  cbn [out world effects app] in Hstore |- *.
  destruct (localStorage w !! STORAGE_KEY) as [data|]; [|discriminate Hstore].
  unfold bind at 1, lift in Hstore. cbn [out world effects] in Hstore.
  destruct (getStore_from [] (Js.split TOKEN data)) as [ds'|e] eqn:Hds;
    [|discriminate Hstore].
  cbn in Hstore. injection Hstore as <-.
  set (w0 := with_frames (frames w ++ [{| fr_item := None; fr_graphic := None |}]) w).
  rewrite bind_ok with (a := length (frames w)) (w1 := w0) (e1 := []) by reflexivity.
  destruct (run_replay_items w (length (frames w)) (Js.split TOKEN data)
              ds' rqs [] w0 Hds Hsub) as (w' & Hrun & Hs).
  { repeat split; try reflexivity.
    - cbn. rewrite app_nil_r. reflexivity.
    - unfold w0. cbn. rewrite length_app. cbn. lia. }
  exists w'. rewrite Hrun. cbn [out world effects app]. auto.
Qed.

(** X6: the replay submits what [getStore] lists.  When every queued
    record decodes, names one of the three operations and a layer among
    the feature layers, [_reestablishedInternet] calls [applyEdits] once
    for each, in the order of the queue, with the decoded graphic on the
    layer of that identifier; it ends without an exception and leaves
    [localStorage] as it was. *)
Theorem replay_submits_store (w : World) (ds : list Decoded) (rqs : list Request) :
  out (getStore w) = Ok (Some ds) ->
  Forall2 (submits w (length (frames w))) ds rqs ->
  out (_reestablishedInternet w) = Ok tt
  /\ effects (_reestablishedInternet w) = map ApplyEdits rqs
  /\ requests (world (_reestablishedInternet w)) = requests w ++ rqs
  /\ localStorage (world (_reestablishedInternet w)) = localStorage w.
Proof.
  intros Hstore Hsub.
  destruct (run_reestablishedInternet w ds rqs Hstore Hsub)
    as (w' & -> & H1 & _ & H3 & _).
  cbn [out world effects]. auto.
Qed.

Lemma replay_items_throw (frame : nat) (rs : list string) (r : string)
    (tail : list string) (w : World) :
  Js.nonempty r = true ->
  (exists x, _deserializeGraphic r = Throw x) ->
  r ∈ rs ->
  exists x, out (for_each (rs ++ tail) (replay_item frame) w) = Throw x.
Proof.
  intros Hne [x Hx] Hin. revert w.
  induction rs as [|a rs IH]; intros w; [inversion Hin|].
  cbn [app for_each]. unfold bind at 1.
  destruct (out (replay_item frame a w)) as [[]|y] eqn:Ha; [|eexists; reflexivity].
  cbn [out]. apply elem_of_cons in Hin as [<-|Hin]; [|apply IH, Hin].
  exfalso. revert Ha. unfold replay_item.
  rewrite bind_ok with (a := tt)
    (w1 := with_frames
             (alter (fun fr => {| fr_item := Some r; fr_graphic := fr_graphic fr |})
                    frame (frames w)) w) (e1 := []) by reflexivity.
  rewrite Hne. cbn [out]. unfold bind at 1, lift. cbn [out]. rewrite Hx.
  discriminate.
Qed.

(** X8: an edit without geometry can be queued but not read back.  When
    the queue holds its record, [getStore] throws and so does the replay:
    [_deserializeGraphic] reads [geometry.type] of [null]. *)
Theorem no_geometry_blocks_queue (w : World) (rs : list string) (e : Edit) :
  geometry (ed_graphic e) = None ->
  well_formed (layerId (ed_layer e)) = true ->
  Forall (fun r => clean r = true) rs ->
  record e ∈ rs ->
  localStorage w !! STORAGE_KEY = Some (blob rs) ->
  (exists x, _deserializeGraphic (record e) = Throw x)
  /\ (exists x, out (getStore w) = Throw x)
  /\ (exists x, out (_reestablishedInternet w) = Throw x).
Proof.
  intros Hg Hl Hrs Hin Hst.
  pose proof (deserialize_no_geometry e Hg Hl) as Hthrow.
  assert (Hne : Js.nonempty (record e) = true).
  { apply clean_nonempty. rewrite Forall_forall in Hrs. apply Hrs, Hin. }
  split; [exact Hthrow|]. split.
  - unfold getStore.
    rewrite (bind_ok _ _ _ _ _ _ (run_getItem STORAGE_KEY w)), Hst.
    rewrite split_blob by exact Hrs. cbn [out].
    destruct (getStore_from_throws [] rs (record e) [""] Hne Hthrow Hin) as [x Hx].
    exists x. unfold bind, lift. cbn [out]. rewrite Hx. reflexivity.
  - unfold _reestablishedInternet.
    rewrite (bind_ok _ _ _ _ _ _ (run_getItem STORAGE_KEY w)), Hst.
    rewrite split_blob by exact Hrs. cbn [out].
    set (w0 := with_frames (frames w ++ [{| fr_item := None; fr_graphic := None |}]) w).
    rewrite bind_ok with (a := length (frames w)) (w1 := w0) (e1 := []) by reflexivity.
    cbn [out].
    apply (replay_items_throw _ rs (record e) [""] w0 Hne Hthrow Hin).
Qed.

End ReplaySubmits.

(** * Offline and online edits *)

Section Edits.
Context {substrate : Substrate} {codec : AttributeCodec} {utils : OfflineUtils}.

(** X9: what [_addToLocalStore] does, whatever the store holds.  When
    the serialized edit, without its token, is one of the non-empty
    pieces of the stored string, nothing is written and the outcome is
    [duplicate = true]; otherwise the former stored string (nothing, when
    there was none) followed by the serialized edit is written, and the
    outcome has [success] as the substrate took the write, which changes
    the store only then.  With a callback, [_addToLocalStore] calls it
    once, with that outcome, then calls [layer.add] once, and returns.
    Without one it throws a [TypeError] at the call, after the store
    operation, and never reaches [layer.add]. *)
Theorem add_reports_outcome (w : World) (graphic : Graphic) (layer : Layer)
    (enumValue : string) (callback : Handler) :
  let r := _addToLocalStore graphic layer enumValue callback w in
  let content := _serializeGraphicNoToken graphic layer enumValue in
  let value := default "" (localStorage w !! STORAGE_KEY) +:+ content +:+ TOKEN in
  let b := accepts (localStorage w) STORAGE_KEY value in
  let v := if bool_decide (content ∈ pending w)
           then {| success := None; duplicate := Some true |}
           else {| success := Some b; duplicate := Some false |} in
  out r = match callback with Given => Ok tt | Omitted => Throw TypeError end
  /\ effects r
     = (if bool_decide (content ∈ pending w)
        then [Dispatch EDIT_EVENT_DUPLICATE (MsgBool true)]
        else [SetItem STORAGE_KEY value b])
       ++ match callback with
          | Given => [CallerCallback 0 (ArgStored v) 0; LayerAdd layer graphic]
          | Omitted => []
          end
  /\ localStorage (world r)
     = if bool_decide (content ∈ pending w) then localStorage w
       else if b then <[STORAGE_KEY := value]> (localStorage w)
       else localStorage w.
Proof.
  intros r content value b v.
  assert (Htoken : _serializeGraphic graphic layer enumValue = content +:+ TOKEN).
  { unfold content. rewrite serialize_token_text, serialize_text. reflexivity. }
  unfold v, b, value, r. clear v b value r. unfold pending.
  destruct (localStorage w !! STORAGE_KEY) as [localStore|] eqn:Hst.
  - pose proof (run_update w localStore
                  (_serializeGraphic graphic layer enumValue) Hst) as Hu.
    rewrite Htoken, drop_last_token in Hu. cbn [default].
    pose proof (is_duplicate_elem content (Js.split TOKEN localStore)) as Hdup.
    destruct (is_duplicate content (Js.split TOKEN localStore)).
    + rewrite bool_decide_eq_true_2 by (apply Hdup; reflexivity).
      rewrite (run_add_existing _ _ _ _ _ _ _ _ _ Hst Hu).
      destruct callback; repeat split.
    + rewrite bool_decide_eq_false_2
        by (intros Hin; apply Hdup in Hin; discriminate).
      cbv zeta in Hu. rewrite (run_add_existing _ _ _ _ _ _ _ _ _ Hst Hu).
      rewrite <- Htoken.
      destruct (accepts _ _ _), callback; repeat split.
  - rewrite bool_decide_eq_false_2 by apply not_elem_of_nil.
    rewrite (run_add_first _ _ _ _ _ _ _ _ Hst (run_setTemp _ _)).
    cbn [default]. rewrite str_app_nil_l, <- Htoken.
    destruct (accepts _ _ _), callback; repeat split.
Qed.

Lemma run_startOfflineListener (w : World) :
  _startOfflineListener w
  = {| out := Ok tt; world := with_listener true w; effects := [] |}
  \/ (_reestablishedInternetListener w = true
      /\ _startOfflineListener w = {| out := Ok tt; world := w; effects := [] |}).
Proof.
  unfold _startOfflineListener, bind, read. cbn [out world effects].
  destruct (_reestablishedInternetListener w); auto.
Qed.

(** [_applyEdits] for an edit that passes the admission tests. *)
Lemma run_applyEdits_admitted (internet : bool) (graphic : Graphic) (layer : Layer)
    (enumValue : string) (callback : Handler) (w : World) :
  (0 <= apprxGraphicSize graphic)%Q ->
  (apprxGraphicSize graphic + getlocalStorageUsed w <= LOCAL_STORAGE_MAX_LIMIT)%Q ->
  _applyEdits internet graphic layer enumValue callback w
  = (if negb internet
     then _addToLocalStore graphic layer enumValue callback ;; _startOfflineListener
     else _layerEditManager graphic (Some layer) (Some (JStr enumValue)) CbLog) w.
Proof.
  intros Hsize Hsum.
  assert (Hfirst : Qgt_bool (apprxGraphicSize graphic + getlocalStorageUsed w)
                            LOCAL_STORAGE_MAX_LIMIT = false).
  { apply not_true_iff_false. intros H. apply Qgt_bool_iff in H.
    apply (Qlt_not_le _ _ H), Hsum. }
  unfold _applyEdits, bind at 1, read. cbn [out world effects].
  rewrite Hfirst, (occupancy_within graphic w Hsize Hfirst).
  destruct (if negb internet then _ else _) as [o w' es]. reflexivity.
Qed.

(** X10: an edit made offline that passes the admission tests, is not
    queued yet and whose write is accepted goes to the end of the queue.
    With a callback, the caller hears [success = true], the graphic is
    added to the layer and the listener for the return of connectivity is
    registered.  Without a callback the edit is queued all the same, but
    the [TypeError] of the missing callback ends [_applyEdits]: the
    graphic is not added to the layer and no listener is registered. *)
Theorem offline_edit_is_queued (w : World) (rs : list string) (e : Edit)
    (callback : Handler) :
  let r := _applyEdits false (ed_graphic e) (ed_layer e) (ed_enumValue e)
                       callback w in
  (0 <= apprxGraphicSize (ed_graphic e))%Q ->
  (apprxGraphicSize (ed_graphic e) + getlocalStorageUsed w
   <= LOCAL_STORAGE_MAX_LIMIT)%Q ->
  holds w rs ->
  occurs TOKEN (record e) = false ->
  record e ∉ rs ->
  accepts (localStorage w) STORAGE_KEY (blob (rs ++ [record e])) = true ->
  holds (world r) (rs ++ [record e])
  /\ pending (world r) = rs ++ [record e]
  /\ match callback with
     | Given =>
         out r = Ok tt
         /\ _reestablishedInternetListener (world r) = true
         /\ effects r
            = [SetItem STORAGE_KEY (blob (rs ++ [record e])) true;
               CallerCallback 0
                 (ArgStored {| success := Some true; duplicate := Some false |}) 0;
               LayerAdd (ed_layer e) (ed_graphic e)]
     | Omitted =>
         out r = Throw TypeError
         /\ _reestablishedInternetListener (world r)
            = _reestablishedInternetListener w
         /\ effects r = [SetItem STORAGE_KEY (blob (rs ++ [record e])) true]
     end.
Proof.
  intros r Hsize Hsum Hholds Hfree Hnew Hacc. unfold r.
  rewrite run_applyEdits_admitted by assumption. cbn [negb].
  set (w1 := with_localStorage
               (<[STORAGE_KEY := blob (rs ++ [record e])]> (localStorage w)) w).
  assert (Hadd : _addToLocalStore (ed_graphic e) (ed_layer e) (ed_enumValue e)
                                  callback w
                 = {| out := returned callback; world := w1;
                      effects := SetItem STORAGE_KEY (blob (rs ++ [record e])) true
                                 :: reported callback
                                      {| success := Some true;
                                         duplicate := Some false |}
                                      (ed_layer e) (ed_graphic e) |})
    by (apply (run_add_fresh w rs); assumption).
  assert (Hst : forall w', localStorage w' = localStorage w1 ->
                           holds w' (rs ++ [record e])).
  { intros w' Hw'. split.
    - apply Forall_app. split; [apply Hholds|].
      constructor; [|constructor]. apply serialized_clean, Hfree.
    - left. rewrite Hw'. unfold w1. cbn. apply lookup_insert_eq. }
  destruct callback.
  - rewrite (bind_ok _ _ _ _ _ _ Hadd).
    destruct (run_startOfflineListener w1) as [Hl | [Hreg Hl]]; rewrite Hl;
      cbn [out world effects reported]; rewrite app_nil_r.
    + split; [apply Hst; reflexivity|].
      split; [apply pending_holds, Hst; reflexivity|]. repeat split.
    + split; [apply Hst; reflexivity|].
      split; [apply pending_holds, Hst; reflexivity|].
      split; [reflexivity|]. split; [exact Hreg|reflexivity].
  - rewrite (bind_throw _ _ _ _ _ _ Hadd). cbn [out world effects reported].
    split; [apply Hst; reflexivity|].
    split; [apply pending_holds, Hst; reflexivity|]. repeat split.
Qed.

(** The completion of a call whose callback is the logging one. *)
Lemma log_completion (w : World) (i : nat)
    (addResult updateResult deleteResult : option (list EditResult)) (date : string) :
  (forall rq, requests w !! i = Some rq -> rq_callback rq = CbLog) ->
  localStorage (world (backend_completes i addResult updateResult deleteResult
                         date w)) = localStorage w
  /\ storage_effects (effects (backend_completes i addResult updateResult
                                 deleteResult date w)) = [].
Proof.
  intros Hcb. unfold backend_completes.
  rewrite bind_ok with (a := requests w !! i)
                       (w1 := with_requests (delete i (requests w)) w) (e1 := [])
    by reflexivity.
  destruct (requests w !! i) as [rq|]; [|split; reflexivity].
  specialize (Hcb rq eq_refl).
  unfold called_by_browser, try_catch, on_complete.
  rewrite bind_ok with (a := count w)
                       (w1 := with_requests (delete i (requests w)) w) (e1 := [])
    by reflexivity.
  rewrite Hcb. cbn [call_mCallback].
  destruct (rq_kind rq).
  - destruct deleteResult as [[|r l]|]; split; reflexivity.
  - destruct addResult as [[|r l]|]; split; reflexivity.
  - destruct updateResult as [u|]; [|split; reflexivity].
    destruct deleteResult as [[|d l]|]; [| |split; reflexivity];
      [split; reflexivity|].
    destruct u; split; reflexivity.
Qed.

(** X11: an edit made online that passes the admission tests never
    touches [localStorage]: it is handed to [layer.applyEdits] when its
    operation is one of the three and dropped without a trace otherwise,
    and the completion of the call, whatever the results, writes neither
    the queue nor the index. *)
Theorem online_edit_bypasses_storage (w : World) (e : Edit) (callback : Handler)
    (addResult updateResult deleteResult : option (list EditResult)) (date : string) :
  let r := _applyEdits true (ed_graphic e) (ed_layer e) (ed_enumValue e)
                       callback w in
  let done := backend_completes (length (requests w)) addResult updateResult
                                deleteResult date (world r) in
  (0 <= apprxGraphicSize (ed_graphic e))%Q ->
  (apprxGraphicSize (ed_graphic e) + getlocalStorageUsed w
   <= LOCAL_STORAGE_MAX_LIMIT)%Q ->
  out r = Ok tt
  /\ effects r
     = match kind_of (Some (JStr (ed_enumValue e))) with
       | Some kind => [ApplyEdits {| rq_kind := kind; rq_layer := ed_layer e;
                                     rq_graphic := ed_graphic e;
                                     rq_callback := CbLog |}]
       | None => []
       end
  /\ localStorage (world r) = localStorage w
  /\ localStorage (world done) = localStorage w
  /\ storage_effects (effects done) = [].
Proof.
  intros r done Hsize Hsum. unfold done, r. clear done r.
  rewrite run_applyEdits_admitted by assumption. cbn [negb].
  assert (Hrun : exists w',
    _layerEditManager (ed_graphic e) (Some (ed_layer e))
                      (Some (JStr (ed_enumValue e))) CbLog w
    = {| out := Ok tt; world := w';
         effects := match kind_of (Some (JStr (ed_enumValue e))) with
                    | Some kind => [ApplyEdits {| rq_kind := kind;
                                                  rq_layer := ed_layer e;
                                                  rq_graphic := ed_graphic e;
                                                  rq_callback := CbLog |}]
                    | None => []
                    end |}
    /\ localStorage w' = localStorage w
    /\ forall rq, requests w' !! length (requests w) = Some rq ->
                  rq_callback rq = CbLog).
  { destruct (kind_of (Some (JStr (ed_enumValue e)))) as [kind|] eqn:Hkind.
    - eexists. split; [apply run_layerEditManager, Hkind|].
      split; [reflexivity|]. cbn [requests with_requests]. intros rq Hrq.
      rewrite lookup_app_r, Nat.sub_diag in Hrq by lia.
      injection Hrq as <-. reflexivity.
    - exists w. split.
      + revert Hkind. unfold kind_of, _layerEditManager.
        destruct (String.eqb _ DELETE); [discriminate|].
        destruct (String.eqb _ ADD); [discriminate|].
        destruct (String.eqb _ UPDATE); [discriminate|reflexivity].
      + split; [reflexivity|]. intros rq Hrq.
        apply lookup_lt_Some in Hrq. lia. }
  destruct Hrun as (w' & -> & Hls & Hcb). cbn [out world effects].
  destruct (log_completion w' (length (requests w)) addResult updateResult
              deleteResult date Hcb) as [H1 H2].
  rewrite H1, H2, Hls. auto.
Qed.

Lemma run_try_getTemp (w : World) :
  try_catch _getTempLocalStore (fun _ => ret None) w
  = {| out := Ok (localStorage w !! STORAGE_KEY); world := w; effects := [] |}.
Proof. reflexivity. Qed.

(** X12: a dispatched event starts no replay unless it is the internet
    status event with the message [true], the listener is registered and
    the queue's key exists; in every other case [_dispatchEvent] only
    dispatches. *)
Theorem dispatch_without_replay (msg : Message) (event : string) (w : World) :
  msg <> MsgBool true
  \/ event <> INTERNET_STATUS_EVENT
  \/ _reestablishedInternetListener w = false
  \/ localStorage w !! STORAGE_KEY = None ->
  _dispatchEvent msg event w
  = {| out := Ok tt; world := w; effects := [Dispatch event msg] |}.
Proof.
  intros H. unfold _dispatchEvent.
  rewrite bind_ok with (a := tt) (w1 := w) (e1 := [Dispatch event msg])
    by reflexivity.
  rewrite bind_ok with (a := _reestablishedInternetListener w) (w1 := w) (e1 := [])
    by reflexivity.
  destruct (_reestablishedInternetListener w) eqn:Hl; [|reflexivity].
  unfold called_by_browser, try_catch, onlineStatusHandler.
  destruct msg as [[|]|o]; try reflexivity.
  destruct (String.eqb event INTERNET_STATUS_EVENT) eqn:Hev; [|reflexivity].
  apply String.eqb_eq in Hev.
  destruct H as [H | [H | [H | H]]]; try congruence.
  rewrite (bind_ok _ _ _ _ _ _ (run_try_getTemp w)), H. reflexivity.
Qed.

(** X13: when connectivity returns, the queue is sent.  With the listener
    registered and a queue whose edits read back, name one of the three
    operations and a known layer, the handler of the "up" event dispatches
    the status event and calls [applyEdits] once for each queued edit, in
    order; the queue itself is left as it was. *)
Theorem up_event_sends_queue (w : World) (es : list Edit) (ds : list Decoded)
    (rqs : list Request) :
  let up := _offlineMonitor true w in
  _reestablishedInternetListener w = true ->
  Forall2 reads_back es ds ->
  Forall2 (submits w (length (frames w))) ds rqs ->
  localStorage w !! STORAGE_KEY = Some (blob (map record es)) ->
  out up = Ok tt
  /\ effects up = Dispatch INTERNET_STATUS_EVENT (MsgBool true) :: map ApplyEdits rqs
  /\ requests (world up) = requests w ++ rqs
  /\ pending (world up) = map record es.
Proof.
  intros up Hl Hes Hsub Hst. unfold up, _offlineMonitor. clear up.
  set (w1 := with_online true w).
  rewrite bind_ok with (a := tt) (w1 := w1) (e1 := []) by reflexivity.
  unfold _dispatchEvent.
  rewrite bind_ok with (a := tt) (w1 := w1)
                       (e1 := [Dispatch INTERNET_STATUS_EVENT (MsgBool true)])
    by reflexivity.
  rewrite bind_ok with (a := true) (w1 := w1) (e1 := [])
    by (unfold read; cbn; rewrite Hl; reflexivity).
  unfold called_by_browser, try_catch, onlineStatusHandler.
  rewrite String.eqb_refl.
  rewrite (bind_ok _ _ _ _ _ _ (run_try_getTemp w1)).
  change (localStorage w1) with (localStorage w). rewrite Hst.
  destruct (run_reestablishedInternet w1 ds rqs) as (w' & Hrun & Hs).
  { rewrite (run_getStore w1 es ds Hes Hst). reflexivity. }
  { exact Hsub. }
  rewrite Hrun. cbn [out world effects app].
  destruct Hs as (H1 & H2 & H3 & H4).
  split; [reflexivity|]. split; [reflexivity|]. split; [exact H3|].
  apply pending_stored.
  - apply Forall_map. eapply Forall2_Forall_l; [exact Hes|].
    apply Forall_forall. intros d _ e He. cbn. exact (reads_back_clean e d He).
  - rewrite H1. exact Hst.
Qed.

End Edits.

(** * The index of completed edits *)

Section Index.
Context {substrate : Substrate}.

Lemma split_single (e : string) :
  clean e = true -> Js.split TOKEN (e +:+ TOKEN) = [e; ""].
Proof.
  intros He. apply (split_blob [e]). constructor; [exact He|constructor].
Qed.

Lemma join_snoc (m : string) (ms : list string) :
  ms <> [] -> Js.join "," (ms ++ [m]) = Js.join "," ms +:+ "," +:+ m.
Proof.
  intros Hms. destruct ms as [|x ms]; [congruence|]. clear Hms.
  cbn [app]. rewrite !join_cons, str_app_assoc. f_equal.
  induction ms as [|y ms IH]; [cbn; rewrite str_app_nil_r; reflexivity|].
  cbn [app sep_concat]. rewrite IH, !str_app_assoc. reflexivity.
Qed.

Lemma run_getLocalStoreIndex (w : World) :
  getLocalStoreIndex w
  = {| out := Ok (option_map (Js.split TOKEN) (localStorage w !! INDEX_KEY));
       world := w; effects := [] |}.
Proof.
  unfold getLocalStoreIndex.
  rewrite (bind_ok _ _ _ _ _ _ (run_getItem INDEX_KEY w)).
  destruct (localStorage w !! INDEX_KEY); reflexivity.
Qed.

Lemma run_dispatch_index (o : _indexObject) (w : World) :
  _dispatchEvent (MsgIndex o) INDEX_UPDATE_EVENT w
  = {| out := Ok tt; world := w;
       effects := [Dispatch INDEX_UPDATE_EVENT (MsgIndex o)] |}.
Proof.
  unfold _dispatchEvent, bind, emit, read. cbn [out world effects].
  destruct (_reestablishedInternetListener w); reflexivity.
Qed.

(** The string [_setItemLocalStoreIndexObject] writes over the index
    [ms]. *)
Lemma index_write_text (w : World) (ms : list string) (m : string) :
  index_holds w ms ->
  match option_map (Js.split TOKEN) (localStorage w !! INDEX_KEY) with
  | None => m +:+ TOKEN
  | Some a => Js.join "," a +:+ m +:+ TOKEN
  end = Js.join "," (ms ++ [m]) +:+ TOKEN.
Proof.
  destruct ms as [|x ms]; cbn [index_holds].
  - intros ->. reflexivity.
  - intros [-> Hc]. cbn [option_map]. rewrite (split_single _ Hc).
    rewrite join_snoc by discriminate.
    change (Js.join "," [Js.join "," (x :: ms); ""])
      with (Js.join "," (x :: ms) +:+ "," +:+ "").
    rewrite !str_app_assoc. reflexivity.
Qed.

(** The text of an outcome is delimited by the token behind it. *)
Lemma index_text_clean (ms : list string) (o : _indexObject) :
  let m := stringify (_indexObject_json o) in
  occurs TOKEN (Js.join "," (ms ++ [m])) = false ->
  clean (Js.join "," (ms ++ [m])) = true.
Proof.
  intros m Hfree.
  destruct (stringify_object_brace
              (props [("id", Some (io_id o)); ("layerId", Some (io_layerId o));
                      ("type", io_type o); ("success", Some (JBool (io_success o)));
                      ("geometryType", Some (JStr (io_geometryType o)));
                      ("date", Some (JStr (io_date o)))])) as [s Hs].
  change (stringify (JObj _)) with m in Hs.
  destruct ms as [|x ms].
  - cbn [app] in Hfree |- *. unfold Js.join in *. cbn [String.concat] in *.
    rewrite Hs in Hfree |- *. apply clean_brace, Hfree.
  - rewrite join_snoc in Hfree |- * by discriminate.
    rewrite Hs, <- !str_app_assoc in Hfree |- *. apply clean_brace, Hfree.
Qed.

(** An accepted write of the index. *)
Lemma run_setIndex (w : World) (ms : list string) (o : _indexObject) :
  let v := Js.join "," (ms ++ [stringify (_indexObject_json o)]) +:+ TOKEN in
  index_holds w ms ->
  accepts (localStorage w) INDEX_KEY v = true ->
  _setItemLocalStoreIndexObject o w
  = {| out := Ok true;
       world := with_localStorage (<[INDEX_KEY := v]> (localStorage w)) w;
       effects := [SetItem INDEX_KEY v true;
                   Dispatch INDEX_UPDATE_EVENT (MsgIndex o)] |}.
Proof.
  intros v Hidx Hacc. unfold _setItemLocalStoreIndexObject.
  rewrite (bind_ok _ _ _ _ _ _ (run_getLocalStoreIndex w)).
  pose proof (index_write_text w ms (stringify (_indexObject_json o)) Hidx) as Htext.
  fold v in Htext.
  assert (Hset : (match option_map (Js.split TOKEN) (localStorage w !! INDEX_KEY) with
                  | Some a => setItem INDEX_KEY
                                (Js.join "," a +:+ stringify (_indexObject_json o)
                                 +:+ TOKEN)
                  | None => setItem INDEX_KEY (stringify (_indexObject_json o) +:+ TOKEN)
                  end) w
                 = {| out := Ok tt;
                      world := with_localStorage (<[INDEX_KEY := v]> (localStorage w)) w;
                      effects := [SetItem INDEX_KEY v true] |}).
  { destruct (option_map _ _); rewrite Htext; unfold setItem; rewrite Hacc;
      reflexivity. }
  unfold try_catch.
  rewrite (bind_ok _ _ _ _ _ _ Hset).
  rewrite (bind_ok _ _ _ _ _ _ (run_dispatch_index o _)).
  reflexivity.
Qed.

(** The index after an accepted write. *)
Lemma index_holds_written (w : World) (ms : list string) (m : string)
    (ls : gmap string string) :
  clean (Js.join "," (ms ++ [m])) = true ->
  index_holds
    (with_localStorage (<[INDEX_KEY := Js.join "," (ms ++ [m]) +:+ TOKEN]> ls) w)
    (ms ++ [m]).
Proof.
  intros Hclean.
  destruct (ms ++ [m]) as [|x l] eqn:Hl; [destruct ms; discriminate Hl|].
  split; [apply lookup_insert_eq|exact Hclean].
Qed.

(** X14: the index is one entry.  Recording an outcome over an index that
    holds the texts [ms] stores the texts of [ms] and the new text joined
    by commas, followed by one token: [getLocalStoreIndex] then returns
    that single piece and the empty string, however many outcomes were
    recorded. *)
Theorem index_joins_entries (w : World) (ms : list string) (o : _indexObject) :
  let m := stringify (_indexObject_json o) in
  let r := _setItemLocalStoreIndexObject o w in
  index_holds w ms ->
  occurs TOKEN (Js.join "," (ms ++ [m])) = false ->
  accepts (localStorage w) INDEX_KEY (Js.join "," (ms ++ [m]) +:+ TOKEN) = true ->
  out r = Ok true
  /\ index_holds (world r) (ms ++ [m])
  /\ out (getLocalStoreIndex (world r)) = Ok (Some [Js.join "," (ms ++ [m]); ""])
  /\ localStorage (world r) !! STORAGE_KEY = localStorage w !! STORAGE_KEY.
Proof.
  intros m r Hidx Hfree Hacc.
  pose proof (index_text_clean ms o Hfree) as Hclean. fold m in Hclean.
  unfold r. rewrite (run_setIndex w ms o Hidx Hacc). fold m.
  cbn [out world effects].
  split; [reflexivity|]. split; [apply index_holds_written, Hclean|]. split.
  - rewrite run_getLocalStoreIndex.
    cbn [out world with_localStorage localStorage]. rewrite lookup_insert_eq.
    cbn [option_map]. rewrite (split_single _ Hclean). reflexivity.
  - apply lookup_insert_ne. discriminate.
Qed.

(** A text followed by anything but white space or the continuation of
    a numeral does not parse. *)
Lemma parse_trailing (v : json) (c : ascii) (rest : string) :
  well_formed v = true ->
  continues_numeral (String c rest) = false ->
  is_ws c = false ->
  parse (stringify v +:+ String c rest) = None.
Proof.
  intros Hwf Hd Hws. unfold parse.
  rewrite (parse_value_stringify v Hwf); [|rewrite str_length_app;
    pose proof (size_le_length v); lia|exact Hd].
  rewrite skip_ws_head by exact Hws. reflexivity.
Qed.

Lemma well_formed_indexObject (o : _indexObject) :
  well_formed (io_id o) = true ->
  well_formed (io_layerId o) = true ->
  well_formed_value (io_type o) = true ->
  well_formed (_indexObject_json o) = true.
Proof.
  intros H1 H2 H3. unfold _indexObject_json.
  destruct (io_type o); cbn in *; rewrite H1, H2, ?H3; reflexivity.
Qed.


(** The loop over an index of two entries or more. *)
Lemma index_find_many (v : json) (m : string) (ms : list string) (objectId : jsval) :
  well_formed v = true ->
  index_find objectId [Js.join "," (stringify v :: m :: ms); ""] = Throw SyntaxError.
Proof.
  intros Hwf. cbn [index_find]. unfold JSON_parse. cbn [ToString to_string].
  rewrite join_cons. cbn [sep_concat]. rewrite str_app_cons, str_app_nil_l.
  rewrite (parse_trailing v "," _ Hwf) by reflexivity. reflexivity.
Qed.

Lemma run_lookups (w : World) (localStore : string) (objectId : jsval) :
  localStorage w !! INDEX_KEY = Some localStore ->
  let found := index_find objectId (Js.split TOKEN localStore) in
  _getItemLocalStoreIndex objectId w = lift found w
  /\ _isItemLocalStoreIndex objectId w
     = lift (rbind found (fun item =>
               Ok (match item with Some _ => true | None => false end))) w
  /\ _isItemTempLocalStore objectId w
     = lift (rbind found (fun item =>
               Ok (match item with Some _ => true | None => false end))) w.
Proof.
  intros Hst found.
  unfold _getItemLocalStoreIndex, _isItemLocalStoreIndex, _isItemTempLocalStore.
  rewrite !(bind_ok _ _ _ _ _ _ (run_getItem INDEX_KEY w)), Hst. fold found.
  unfold bind, lift, ret. cbn [out world effects].
  destruct found as [[item|]|e]; repeat split; reflexivity.
Qed.


(** X16: with two recorded outcomes or more, every lookup throws a
    [SyntaxError], whatever [objectId] is: the index is one piece, the
    texts joined by commas, which is not JSON. *)
Theorem index_lookup_many (w : World) (v : json) (m : string) (ms : list string)
    (objectId : jsval) :
  well_formed v = true ->
  index_holds w (stringify v :: m :: ms) ->
  _getItemLocalStoreIndex objectId w = throw SyntaxError w
  /\ _isItemLocalStoreIndex objectId w = throw SyntaxError w
  /\ _isItemTempLocalStore objectId w = throw SyntaxError w.
Proof.
  intros Hwf [Hst Hc].
  destruct (run_lookups w _ objectId Hst) as (H1 & H2 & H3).
  rewrite (split_single _ Hc) in H1, H2, H3.
  rewrite (index_find_many v m ms objectId Hwf) in H1, H2, H3.
  rewrite H1, H2, H3. repeat split; reflexivity.
Qed.

(** X17: [_deleteLocalStoreIndex] returns [true] and removes the index
    and nothing else: afterwards [getLocalStoreIndex] returns [null], the
    lookups return [false] and [null] for every [objectId], and every
    other key of [localStorage], the queue's among them, is as before. *)
Theorem deleteLocalStoreIndex_clears (w : World) (objectId : jsval) :
  let r := _deleteLocalStoreIndex w in
  out r = Ok true
  /\ effects r = [RemoveItem INDEX_KEY]
  /\ index_holds (world r) []
  /\ out (getLocalStoreIndex (world r)) = Ok None
  /\ out (_getItemLocalStoreIndex objectId (world r)) = Ok None
  /\ out (_isItemLocalStoreIndex objectId (world r)) = Ok false
  /\ out (_isItemTempLocalStore objectId (world r)) = Ok false
  /\ (forall key, key <> INDEX_KEY ->
                  localStorage (world r) !! key = localStorage w !! key).
Proof.
  intros r.
  assert (Hr : r = {| out := Ok true;
                      world := with_localStorage (delete INDEX_KEY (localStorage w)) w;
                      effects := [RemoveItem INDEX_KEY] |}) by reflexivity.
  rewrite Hr. cbn [out world effects].
  set (w1 := with_localStorage _ w).
  assert (Hst : localStorage w1 !! INDEX_KEY = None) by apply lookup_delete_eq.
  split; [reflexivity|]. split; [reflexivity|]. split; [exact Hst|].
  split; [rewrite run_getLocalStoreIndex; cbn [out]; rewrite Hst; reflexivity|].
  unfold _getItemLocalStoreIndex, _isItemLocalStoreIndex, _isItemTempLocalStore.
  rewrite !(bind_ok _ _ _ _ _ _ (run_getItem INDEX_KEY w1)), Hst.
  repeat (split; [reflexivity|]).
  intros key Hkey. apply lookup_delete_ne. congruence.
Qed.

End Index.

(** * Removal *)

Section Removal.
Context {substrate : Substrate} {codec : AttributeCodec}.

Lemma index_of_entry_absent (entry : string) (splitStore : list string) :
  entry ∉ filter (fun item => Js.nonempty item = true) splitStore ->
  index_of_entry entry splitStore = None.
Proof.
  induction splitStore as [|test l IH]; intros Hin; [reflexivity|].
  cbn [index_of_entry]. destruct (Js.nonempty test) eqn:Hne.
  - rewrite filter_cons_True in Hin by exact Hne.
    apply not_elem_of_cons in Hin as [Hneq Hin].
    assert (String.eqb test entry = false) as -> by (apply String.eqb_neq; congruence).
    cbn [andb]. rewrite (IH Hin). reflexivity.
  - rewrite filter_cons_False in Hin by (rewrite Hne; discriminate).
    cbn [andb]. rewrite (IH Hin). reflexivity.
Qed.

(** C5, amended: let the queue hold the records [rs], each parseable,
    none containing the delimiter, no two equal, and let the substrate
    accept the rewrite.  Removing the record at position [k] by its
    content stores a queue whose pieces are [rs] without position [k], in
    their order, each still parseable. *)
Theorem remove_kth_record (w : World) (rs : list string) (k : nat) (entry : string) :
  let del := _deleteItemInLocalStore entry w in
  Forall (fun r => is_Some (parse r)) rs ->
  Forall (fun r => occurs TOKEN r = false) rs ->
  NoDup rs ->
  localStorage w !! STORAGE_KEY = Some (blob rs) ->
  rs !! k = Some entry ->
  accepts (delete STORAGE_KEY (localStorage w)) STORAGE_KEY (blob (delete k rs)) = true ->
  out del = Ok true
  /\ localStorage (world del) !! STORAGE_KEY = Some (blob (delete k rs))
  /\ pending (world del) = delete k rs
  /\ Forall (fun r => is_Some (parse r)) (pending (world del)).
Proof.
  intros del Hp Hfree Hnd Hst Hk Hacc.
  assert (Hc : Forall (fun r => clean r = true) rs).
  { rewrite Forall_forall in Hp, Hfree |- *. intros r Hr.
    apply parse_clean; [apply Hp, Hr|apply Hfree, Hr]. }
  assert (Hlt : k < length rs) by (eapply lookup_lt_Some, Hk).
  assert (Hne : Js.nonempty entry = true).
  { apply clean_nonempty. rewrite Forall_forall in Hc.
    eapply Hc, list_elem_of_lookup_2, Hk. }
  assert (Hc' : Forall (fun r => clean r = true) (delete k rs)).
  { apply Forall_delete_index, Hc. }
  assert (Hp' : Forall (fun r => is_Some (parse r)) (delete k rs)).
  { apply Forall_delete_index, Hp. }
  assert (Hdel : del
    = {| out := Ok true;
         world := with_localStorage
                    (<[STORAGE_KEY := blob (delete k rs)]>
                       (delete STORAGE_KEY (localStorage w))) w;
         effects := [RemoveItem STORAGE_KEY;
                     SetItem STORAGE_KEY (blob (delete k rs)) true] |}).
  { unfold del. rewrite run_delete, Hst, split_blob by assumption.
    rewrite (index_of_entry_found rs [""] k entry Hnd Hne Hk). cbv zeta.
    rewrite delete_app_lt by assumption.
    unfold _reserializeGraphicsArray.
    rewrite reserialize_from_blob, str_app_nil_l by assumption.
    rewrite Hacc. reflexivity. }
  assert (Hst' : localStorage (world del) !! STORAGE_KEY = Some (blob (delete k rs))).
  { rewrite Hdel. cbn [world with_localStorage localStorage]. apply lookup_insert_eq. }
  assert (Hpend : pending (world del) = delete k rs).
  { apply pending_stored; assumption. }
  rewrite Hpend. repeat split; try assumption. rewrite Hdel. reflexivity.
Qed.

(** X18: removing an entry that is not queued changes nothing.  When no
    non-empty piece of the store equals [entry], or there is no store,
    [_deleteItemInLocalStore] returns [false] and touches [localStorage]
    with neither [removeItem] nor [setItem]. *)
Theorem removal_of_absent_entry (w : World) (entry : string) :
  entry ∉ pending w ->
  _deleteItemInLocalStore entry w = {| out := Ok false; world := w; effects := [] |}.
Proof.
  intros Hin. rewrite run_delete. unfold pending in Hin.
  destruct (localStorage w !! STORAGE_KEY) as [localStore|]; [|reflexivity].
  rewrite (index_of_entry_absent _ _ Hin). reflexivity.
Qed.



(** X20: [_deleteTempLocalStore] returns [true] and removes the queue's
    key and nothing else: afterwards no edit is pending, [getStore]
    returns [null], a replay does nothing, and every other key of
    [localStorage], the index among them, is as before. *)
Theorem deleteTempLocalStore_clears (w : World) :
  let r := _deleteTempLocalStore w in
  out r = Ok true
  /\ effects r = [RemoveItem STORAGE_KEY]
  /\ pending (world r) = []
  /\ getStore (world r) = {| out := Ok None; world := world r; effects := [] |}
  /\ _reestablishedInternet (world r)
     = {| out := Ok tt; world := world r; effects := [] |}
  /\ (forall key, key <> STORAGE_KEY ->
                  localStorage (world r) !! key = localStorage w !! key).
Proof.
  intros r.
  assert (Hr : r = {| out := Ok true;
                      world := with_localStorage (delete STORAGE_KEY (localStorage w)) w;
                      effects := [RemoveItem STORAGE_KEY] |}) by reflexivity.
  rewrite Hr. cbn [out world effects].
  set (w1 := with_localStorage _ w).
  assert (Hst : localStorage w1 !! STORAGE_KEY = None) by apply lookup_delete_eq.
  split; [reflexivity|]. split; [reflexivity|].
  split; [unfold pending; rewrite Hst; reflexivity|].
  unfold getStore, _reestablishedInternet.
  rewrite !(bind_ok _ _ _ _ _ _ (run_getItem STORAGE_KEY w1)), Hst.
  repeat (split; [reflexivity|]).
  intros key Hkey. apply lookup_delete_ne. congruence.
Qed.

(** ** Removal by object identifier *)









End Removal.

(** * Calls that fail and layers that are not known *)

Section Failures.
Context {substrate : Substrate} {codec : AttributeCodec}.

(** X23: the failure of a call reaches no callback.  Whatever the
    operation and the callback of the call, its error callback throws a
    [ReferenceError] while it builds the arguments of [mCallback]: the
    browser reports it, and [localStorage], queue and index, is as
    before. *)
Theorem failure_reaches_no_callback (w : World) (i : nat) (rq : Request) :
  requests w !! i = Some rq ->
  backend_fails i w
  = {| out := Ok tt; world := with_requests (delete i (requests w)) w;
       effects := [Uncaught ReferenceError] |}.
Proof.
  intros Hrq. unfold backend_fails.
  rewrite bind_ok with (a := Some rq)
                       (w1 := with_requests (delete i (requests w)) w) (e1 := [])
    by (unfold take_request; rewrite Hrq; reflexivity).
  unfold called_by_browser, try_catch, on_error.
  destruct (rq_kind rq); reflexivity.
Qed.

Lemma getStore_from_prefix (es : list Edit) (ds : list Decoded) :
  Forall2 reads_back es ds -> getStore_from [] (map record es) = Ok ds.
Proof.
  induction 1 as [|e d es ds Hed _ IH]; [reflexivity|].
  cbn [map getStore_from].
  rewrite (clean_nonempty _ (reads_back_clean e d Hed)).
  rewrite (reads_back_deserialize e d Hed). cbn [rbind].
  rewrite getStore_from_acc, IH. reflexivity.
Qed.

(** The turn of the loop for an edit whose layer is not known. *)
Lemma run_replay_item_unknown (w0 w : World) (frame : nat) (done : list Request)
    (e : Edit) (d : Decoded) (kind : EditKind) :
  reads_back e d ->
  kind_of (dec_enumValue d) = Some kind ->
  getGraphicsLayerById_from (Some (dec_layer d)) (layers w0) = None ->
  submitted w0 frame done w ->
  exists w',
    replay_item frame (record e) w
    = {| out := Throw TypeError; world := w'; effects := [] |}
    /\ submitted w0 frame done w'.
Proof.
  intros Hed Hkind Hlayer Hw. unfold replay_item.
  set (w1 := with_frames
               (alter (fun fr => {| fr_item := Some (record e);
                                    fr_graphic := fr_graphic fr |})
                      frame (frames w)) w).
  rewrite bind_ok with (a := tt) (w1 := w1) (e1 := []) by reflexivity.
  assert (Hw1 : submitted w0 frame done w1).
  { destruct Hw as (H1 & H2 & H3 & H4). repeat split; try assumption.
    unfold w1. cbn. rewrite length_alter. exact H4. }
  rewrite (clean_nonempty _ (reads_back_clean e d Hed)).
  rewrite bind_ok with (a := d) (w1 := w1) (e1 := [])
    by (unfold lift; rewrite (reads_back_deserialize e d Hed); reflexivity).
  set (w2 := with_frames
               (alter (fun fr => {| fr_item := fr_item fr; fr_graphic := Some d |})
                      frame (frames w1)) w1).
  rewrite bind_ok with (a := tt) (w1 := w2) (e1 := []) by reflexivity.
  assert (Hw2 : submitted w0 frame done w2).
  { destruct Hw1 as (H1 & H2 & H3 & H4). repeat split; try assumption.
    unfold w2. cbn. rewrite length_alter. exact H4. }
  rewrite bind_ok with (a := None) (w1 := w2) (e1 := []).
  2:{ unfold getGraphicsLayerById, read. destruct Hw2 as (_ & -> & _).
      rewrite Hlayer. reflexivity. }
  exists w2. split; [|exact Hw2]. cbn [out world effects app].
  revert Hkind. unfold kind_of, _layerEditManager.
  destruct (dec_enumValue d) as [[| | |v| |]|]; try discriminate.
  destruct (String.eqb v DELETE); [reflexivity|].
  destruct (String.eqb v ADD); [reflexivity|].
  destruct (String.eqb v UPDATE); [reflexivity|discriminate].
Qed.

(** X24: an edit on a layer that is not known ends the replay.  Over a
    queue of edits that read back, let an edit name one of the three
    operations and a layer identifier that matches no feature layer, and
    let every edit queued before it name one of the three operations and
    a layer that is known.  The replay submits the edits before it, then
    throws a [TypeError] ([layer] is [undefined]): that edit and every
    edit queued after it are not submitted. *)
Theorem unknown_layer_stops_replay (w : World) (es1 es2 : list Edit) (e : Edit)
    (ds1 ds2 : list Decoded) (d : Decoded) (kind : EditKind) (rqs : list Request) :
  let up := _reestablishedInternet w in
  Forall2 reads_back es1 ds1 ->
  reads_back e d ->
  Forall2 reads_back es2 ds2 ->
  localStorage w !! STORAGE_KEY = Some (blob (map record (es1 ++ e :: es2))) ->
  Forall2 (submits w (length (frames w))) ds1 rqs ->
  kind_of (dec_enumValue d) = Some kind ->
  getGraphicsLayerById_from (Some (dec_layer d)) (layers w) = None ->
  out up = Throw TypeError
  /\ effects up = map ApplyEdits rqs
  /\ requests (world up) = requests w ++ rqs
  /\ localStorage (world up) = localStorage w.
Proof.
  intros up Hes1 Hed Hes2 Hst Hsub Hkind Hlayer. unfold up, _reestablishedInternet.
  rewrite (bind_ok _ _ _ _ _ _ (run_getItem STORAGE_KEY w)), Hst.
  rewrite split_blob.
  2:{ apply Forall_map, Forall_app. split; [|constructor].
      - eapply Forall2_Forall_l; [exact Hes1|]. apply Forall_forall.
        intros d' _ e' He'. exact (reads_back_clean e' d' He').
      - exact (reads_back_clean e d Hed).
      - eapply Forall2_Forall_l; [exact Hes2|]. apply Forall_forall.
        intros d' _ e' He'. exact (reads_back_clean e' d' He'). }
  set (w0 := with_frames (frames w ++ [{| fr_item := None; fr_graphic := None |}]) w).
  rewrite bind_ok with (a := length (frames w)) (w1 := w0) (e1 := []) by reflexivity.
  rewrite map_app, <- List.app_assoc, for_each_app.
  destruct (run_replay_items w (length (frames w)) (map record es1)
              ds1 rqs [] w0 (getStore_from_prefix es1 ds1 Hes1) Hsub)
    as (w1 & Hrun1 & Hs1).
  { repeat split; try reflexivity.
    - cbn. rewrite app_nil_r. reflexivity.
    - unfold w0. cbn. rewrite length_app. cbn. lia. }
  rewrite (bind_ok _ _ _ _ _ _ Hrun1).
  cbn [map app for_each].
  destruct (run_replay_item_unknown w w1 (length (frames w)) ([] ++ rqs) e d kind
              Hed Hkind Hlayer Hs1) as (w2 & Hrun2 & Hs2).
  rewrite (bind_throw _ _ _ _ _ _ Hrun2).
  cbn [out world effects app]. rewrite app_nil_r.
  destruct Hs2 as (H1 & _ & H3 & _). auto.
Qed.

End Failures.

(** * Initialisation *)

Section Init.
Context {codec : AttributeCodec}.

Lemma parseFeatureLayers_from_app (map : Map) (pre post : list string)
    (ls : list Layer) :
  Forall (fun i => parse_layer (getLayer map i) <> Raise) pre ->
  _parseFeatureLayers_from map (pre ++ post) ls
  = _parseFeatureLayers_from map post (ls ++ omap (pushed map) pre).
Proof.
  intros Hpre. revert ls. induction Hpre as [|i pre Hi _ IH]; intros ls.
  - cbn. rewrite app_nil_r. reflexivity.
  - cbn [app _parseFeatureLayers_from].
    change (omap (pushed map) (i :: pre))
      with (match pushed map i with
            | Some l => l :: omap (pushed map) pre
            | None => omap (pushed map) pre
            end).
    unfold pushed at 1.
    destruct (parse_layer (getLayer map i)) as [l| |]; [| |congruence].
    + rewrite IH, <- List.app_assoc. reflexivity.
    + apply IH.
Qed.

(** X26: [_parseFeatureLayers] registers the editable feature layers up
    to the first layer that is not a feature layer.  With the identifiers
    [pre] all naming feature layers and the next one, if any, not, the
    layers pushed are the editable ones among [pre], in order; no layer
    behind the offending one is registered, editable feature layer or
    not. *)
Theorem parseFeatureLayers_prefix (map : Map) (pre post : list string) (w : World) :
  let r := _parseFeatureLayers map w in
  graphicsLayerIds map = pre ++ post ->
  Forall (fun i => parse_layer (getLayer map i) <> Raise) pre ->
  match post with
  | [] => True
  | i :: _ => parse_layer (getLayer map i) = Raise
  end ->
  out r = Ok tt
  /\ effects r = []
  /\ layers (world r) = layers w ++ omap (pushed map) pre
  /\ localStorage (world r) = localStorage w.
Proof.
  intros r Hids Hpre Hpost. unfold r, _parseFeatureLayers, update.
  cbn [out world effects with_layers layers localStorage].
  repeat split. rewrite Hids, (parseFeatureLayers_from_app map pre post _ Hpre).
  destruct post as [|i post]; [reflexivity|].
  cbn [_parseFeatureLayers_from]. rewrite Hpost. reflexivity.
Qed.

(** X27: start-up with a queue left by an earlier session.  After the
    feature layers are read from the map, a queue whose edits read back
    and name known layers is sent at once when the store is online, one
    call per edit in queue order; when it is offline nothing is sent and
    the listener for the return of connectivity is registered.  The queue
    is left as it was in both cases. *)
Theorem init_resumes_queue (mp : Map) (w : World) (es : list Edit)
    (ds : list Decoded) (rqs : list Request) :
  let ls := _parseFeatureLayers_from mp (graphicsLayerIds mp) (layers w) in
  let r := _init mp w in
  Forall2 reads_back es ds ->
  Forall2 (submits (with_layers ls w) (length (frames w))) ds rqs ->
  localStorage w !! STORAGE_KEY = Some (blob (map record es)) ->
  out r = Ok tt
  /\ layers (world r) = ls
  /\ pending (world r) = map record es
  /\ (if online w
      then effects r = map ApplyEdits rqs
           /\ requests (world r) = requests w ++ rqs
      else effects r = []
           /\ requests (world r) = requests w
           /\ _reestablishedInternetListener (world r) = true).
Proof.
  intros ls r Hes Hsub Hst. unfold r, _init, called_by_browser, try_catch.
  set (w1 := with_layers ls w).
  assert (Hst1 : localStorage w1 !! STORAGE_KEY = Some (blob (map record es)))
    by exact Hst.
  assert (Hc : Forall (fun r => clean r = true) (map record es)).
  { apply Forall_map. eapply Forall2_Forall_l; [exact Hes|].
    apply Forall_forall. intros d _ e He. exact (reads_back_clean e d He). }
  rewrite bind_ok with (a := tt) (w1 := w1) (e1 := []) by reflexivity.
  unfold _getTempLocalStore.
  rewrite (bind_ok _ _ _ _ _ _ (run_getItem STORAGE_KEY w1)), Hst1.
  rewrite bind_ok with (a := online w) (w1 := w1) (e1 := []) by reflexivity.
  destruct (online w).
  - destruct (run_reestablishedInternet w1 ds rqs) as (w' & Hrun & Hs).
    { rewrite (run_getStore w1 es ds Hes Hst1). reflexivity. }
    { exact Hsub. }
    rewrite Hrun. cbn [out world effects app].
    destruct Hs as (H1 & H2 & H3 & H4).
    split; [reflexivity|]. split; [exact H2|].
    split; [apply pending_stored; [exact Hc|rewrite H1; exact Hst1]|].
    split; [reflexivity|exact H3].
  - destruct (run_startOfflineListener w1) as [Hl | [Hreg Hl]]; rewrite Hl;
      cbn [out world effects app].
    + split; [reflexivity|]. split; [reflexivity|].
      split; [apply pending_stored; [exact Hc|exact Hst1]|]. repeat split.
    + split; [reflexivity|]. split; [reflexivity|].
      split; [apply pending_stored; [exact Hc|exact Hst1]|].
      split; [reflexivity|]. split; [reflexivity|exact Hreg].
Qed.

End Init.

(** * What a completed call records *)

Section Outcome.
Context {substrate : Substrate} {codec : AttributeCodec}.

(** X28: a refused write of the index.  When the substrate refuses the
    write, [_setItemLocalStoreIndexObject] returns [false], leaves
    [localStorage] as it was and dispatches no index update event. *)
Theorem refused_index_write (w : World) (o : _indexObject) :
  (forall v, accepts (localStorage w) INDEX_KEY v = false) ->
  exists v,
    _setItemLocalStoreIndexObject o w
    = {| out := Ok false; world := w; effects := [SetItem INDEX_KEY v false] |}.
Proof.
  intros Hacc. unfold _setItemLocalStoreIndexObject.
  rewrite (bind_ok _ _ _ _ _ _ (run_getLocalStoreIndex w)).
  assert (Hset : exists v,
    (match option_map (Js.split TOKEN) (localStorage w !! INDEX_KEY) with
     | Some a => setItem INDEX_KEY
                   (Js.join "," a +:+ stringify (_indexObject_json o) +:+ TOKEN)
     | None => setItem INDEX_KEY (stringify (_indexObject_json o) +:+ TOKEN)
     end) w
    = {| out := Throw QuotaExceededError; world := w;
         effects := [SetItem INDEX_KEY v false] |}).
  { destruct (option_map _ _); eexists; unfold setItem; rewrite Hacc; reflexivity. }
  destruct Hset as [v Hset]. exists v.
  unfold try_catch. rewrite (bind_throw _ _ _ _ _ _ Hset). reflexivity.
Qed.

Lemma layerEditManager_frames (graphic : Graphic) (layer : option Layer)
    (value : jsval) (cb : Callback) (w : World) :
  frames (world (_layerEditManager graphic layer value cb w)) = frames w
  /\ localStorage (world (_layerEditManager graphic layer value cb w))
     = localStorage w.
Proof.
  assert (H : forall kind,
    frames (world (layer_applyEdits layer kind graphic cb w)) = frames w
    /\ localStorage (world (layer_applyEdits layer kind graphic cb w))
       = localStorage w).
  { intros kind. destruct layer; split; reflexivity. }
  unfold _layerEditManager. destruct value as [[| | |v| |]|]; try (split; reflexivity).
  destruct (String.eqb v DELETE); [apply H|].
  destruct (String.eqb v ADD); [apply H|].
  destruct (String.eqb v UPDATE); [apply H|split; reflexivity].
Qed.

Lemma run_replay_item_empty (frame : nat) (w : World) :
  replay_item frame "" w
  = {| out := Ok tt;
       world := with_frames
                  (alter (fun fr => {| fr_item := Some ""; fr_graphic := fr_graphic fr |})
                         frame (frames w)) w;
       effects := [] |}.
Proof. reflexivity. Qed.

(** The variables of the activation after the turn of the loop for the
    record of an edit that reads back. *)
Lemma replay_item_record_frame (frame : nat) (e : Edit) (d : Decoded) (w : World)
    (fr0 : Frame) :
  reads_back e d ->
  frames w !! frame = Some fr0 ->
  frames (world (replay_item frame (record e) w)) !! frame
  = Some {| fr_item := Some (record e); fr_graphic := Some d |}
  /\ localStorage (world (replay_item frame (record e) w)) = localStorage w.
Proof.
  intros Hed Hfr. unfold replay_item.
  set (w1 := with_frames
               (alter (fun fr => {| fr_item := Some (record e);
                                    fr_graphic := fr_graphic fr |})
                      frame (frames w)) w).
  rewrite bind_ok with (a := tt) (w1 := w1) (e1 := []) by reflexivity.
  rewrite (clean_nonempty _ (reads_back_clean e d Hed)).
  rewrite bind_ok with (a := d) (w1 := w1) (e1 := [])
    by (unfold lift; rewrite (reads_back_deserialize e d Hed); reflexivity).
  set (w2 := with_frames
               (alter (fun fr => {| fr_item := fr_item fr; fr_graphic := Some d |})
                      frame (frames w1)) w1).
  rewrite bind_ok with (a := tt) (w1 := w2) (e1 := []) by reflexivity.
  rewrite bind_ok with (a := getGraphicsLayerById_from (Some (dec_layer d)) (layers w2))
                       (w1 := w2) (e1 := []) by reflexivity.
  cbn [world].
  destruct (layerEditManager_frames (dec_graphic d)
              (getGraphicsLayerById_from (Some (dec_layer d)) (layers w2))
              (dec_enumValue d) (CbReplay frame) w2) as [-> ->].
  split; [|reflexivity].
  unfold w2, w1. cbn [frames with_frames].
  rewrite !list_lookup_alter_eq, Hfr. reflexivity.
Qed.

Lemma bind_inv {A B : Type} (m : M A) (f : A -> M B) (w : World) (b : B) :
  out (bind m f w) = Ok b ->
  exists a, out (m w) = Ok a
            /\ out (f a (world (m w))) = Ok b
            /\ world (bind m f w) = world (f a (world (m w))).
Proof.
  unfold bind. destruct (out (m w)) as [a|x]; cbn [out world]; [eauto|discriminate].
Qed.

Lemma for_each_last (frame : nat) (r : string) (w : World) :
  for_each [r; ""] (replay_item frame) w
  = (replay_item frame r ;; replay_item frame "" ;; ret tt) w.
Proof. reflexivity. Qed.

Lemma world_replay_empty (frame : nat) (w : World) :
  world ((replay_item frame "" ;; ret tt) w)
  = with_frames
      (alter (fun fr => {| fr_item := Some ""; fr_graphic := fr_graphic fr |})
             frame (frames w)) w.
Proof. reflexivity. Qed.

Lemma localStorage_with_frames (fs : list Frame) (w : World) :
  localStorage (with_frames fs w) = localStorage w.
Proof. reflexivity. Qed.

Lemma frames_with_frames (fs : list Frame) (w : World) :
  frames (with_frames fs w) = fs.
Proof. reflexivity. Qed.

Lemma localStorage_with_requests (rqs : list Request) (w : World) :
  localStorage (with_requests rqs w) = localStorage w.
Proof. reflexivity. Qed.

Lemma frames_with_requests (rqs : list Request) (w : World) :
  frames (with_requests rqs w) = frames w.
Proof. reflexivity. Qed.

(** A replay that runs to its end leaves the last queued edit in
    [graphic] and the empty string in [item]. *)
Lemma replay_last_frame (w : World) (rs : list string) (e : Edit) (d : Decoded) :
  Forall (fun r => clean r = true) rs ->
  reads_back e d ->
  localStorage w !! STORAGE_KEY = Some (blob (rs ++ [record e])) ->
  out (_reestablishedInternet w) = Ok tt ->
  localStorage (world (_reestablishedInternet w)) = localStorage w
  /\ frames (world (_reestablishedInternet w)) !! length (frames w)
     = Some {| fr_item := Some ""; fr_graphic := Some d |}.
Proof.
  intros Hrs Hed Hst. unfold _reestablishedInternet.
  rewrite (bind_ok _ _ _ _ _ _ (run_getItem STORAGE_KEY w)), Hst.
  rewrite split_blob.
  2:{ apply Forall_app. split; [exact Hrs|].
      constructor; [exact (reads_back_clean e d Hed)|constructor]. }
  cbn [out world]. set (frame := length (frames w)).
  set (w0 := with_frames (frames w ++ [{| fr_item := None; fr_graphic := None |}]) w).
  rewrite bind_ok with (a := frame) (w1 := w0) (e1 := []) by reflexivity.
  cbn [out world]. rewrite <- List.app_assoc, for_each_app.
  intros Hout.
  apply bind_inv in Hout as ([] & _ & Hout & ->).
  pose proof (keeps_for_each rs (replay_item frame) (keeps_replay_item frame) w0)
    as [Hls Hlen].
  set (w1 := world (for_each rs (replay_item frame) w0)) in *.
  assert (Hlt : frame < length (frames w1)).
  { rewrite Hlen. unfold w0. cbn [with_frames frames]. rewrite length_app.
    cbn [length]. unfold frame. lia. }
  assert (Hls0 : localStorage w1 = localStorage w) by exact Hls.
  clearbody w1. clear Hls Hlen.
  apply lookup_lt_is_Some_2 in Hlt. destruct Hlt as [fr0 Hfr0].
  destruct (replay_item_record_frame frame e d w1 fr0 Hed Hfr0) as [Hfr Hls2].
  cbn beta in Hout |- *. cbn [app] in Hout |- *.
  rewrite for_each_last in Hout. rewrite for_each_last.
  apply bind_inv in Hout as ([] & _ & _ & ->).
  set (w2 := world (replay_item frame (record e) w1)) in *. clearbody w2.
  rewrite world_replay_empty, localStorage_with_frames, frames_with_frames.
  split; [rewrite Hls2; exact Hls0|].
  rewrite list_lookup_alter_eq, Hfr. reflexivity.
Qed.

Lemma run_delete_empty (w : World) :
  _deleteItemInLocalStore "" w = {| out := Ok false; world := w; effects := [] |}.
Proof.
  rewrite run_delete. destruct (localStorage w !! STORAGE_KEY); [|reflexivity].
  rewrite index_of_entry_empty. reflexivity.
Qed.

Lemma index_holds_ext (w w' : World) (ms : list string) :
  localStorage w' = localStorage w -> index_holds w ms -> index_holds w' ms.
Proof. intros H. unfold index_holds. rewrite H. auto. Qed.

(** X29: every recorded outcome describes the last queued edit.  After a
    replay that ran to its end, the completion of any of its additions
    records an outcome with the object identifier and the success flag of
    the result, and with the layer, the operation and the geometry type
    of the edit that was last in the queue, whichever edit the call was
    for: the callback reads the loop variable [graphic] where the loop
    left it.  The queue is as it was. *)
Theorem outcome_describes_last_edit (w : World) (rs ms : list string) (e : Edit)
    (d : Decoded) (g : Geometry) (i : nat) (rq : Request) (r : EditResult)
    (tl : list EditResult) (updateResult deleteResult : option (list EditResult))
    (date : string) :
  let up := _reestablishedInternet w in
  let done := backend_completes i (Some (r :: tl)) updateResult deleteResult date
                                (world up) in
  let o := {| io_id := er_objectId r; io_layerId := dec_layer d;
              io_type := dec_enumValue d; io_success := er_success r;
              io_geometryType := geometry_type g; io_date := date |} in
  let m := stringify (_indexObject_json o) in
  Forall (fun r => clean r = true) rs ->
  reads_back e d ->
  geometry (dec_graphic d) = Some g ->
  localStorage w !! STORAGE_KEY = Some (blob (rs ++ [record e])) ->
  out up = Ok tt ->
  requests (world up) !! i = Some rq ->
  rq_callback rq = CbReplay (length (frames w)) ->
  rq_kind rq = KAdd ->
  index_holds w ms ->
  occurs TOKEN (Js.join "," (ms ++ [m])) = false ->
  accepts (localStorage w) INDEX_KEY (Js.join "," (ms ++ [m]) +:+ TOKEN) = true ->
  index_holds (world done) (ms ++ [m])
  /\ pending (world done) = rs ++ [record e]
  /\ effects done
     = [SetItem INDEX_KEY (Js.join "," (ms ++ [m]) +:+ TOKEN) true;
        Dispatch INDEX_UPDATE_EVENT (MsgIndex o)].
Proof.
  intros up done o m Hrs Hed Hg Hst Hout Hrq Hcb Hkind Hidx Hfree Hacc.
  destruct (replay_last_frame w rs e d Hrs Hed Hst Hout) as [Hls Hfr].
  fold up in Hls, Hfr.
  pose proof (index_text_clean ms o Hfree) as Hclean. fold m in Hclean.
  set (w1 := with_requests (delete i (requests (world up))) (world up)).
  assert (Hls1 : localStorage w1 = localStorage w)
    by (unfold w1; rewrite localStorage_with_requests; exact Hls).
  assert (Hfr1 : frames w1 !! length (frames w)
                 = Some {| fr_item := Some ""; fr_graphic := Some d |})
    by (unfold w1; rewrite frames_with_requests; exact Hfr).
  assert (Hrun : take_request i (world up)
                 = {| out := Ok (Some rq); world := w1; effects := [] |})
    by (unfold take_request; rewrite Hrq; reflexivity).
  clearbody w1. clearbody up. clear Hls Hfr Hrq Hout.
  assert (Hidx1 : index_holds w1 ms) by (apply (index_holds_ext w); assumption).
  assert (Hacc1 : accepts (localStorage w1) INDEX_KEY
                    (Js.join "," (ms ++ [m]) +:+ TOKEN) = true)
    by (rewrite Hls1; exact Hacc).
  assert (Hcall : replay_callback (length (frames w)) (count w1) (er_success r)
                    (er_objectId r) date w1
    = {| out := Ok tt;
         world := with_localStorage
                    (<[INDEX_KEY := Js.join "," (ms ++ [m]) +:+ TOKEN]>
                       (localStorage w1)) w1;
         effects := [SetItem INDEX_KEY (Js.join "," (ms ++ [m]) +:+ TOKEN) true;
                     Dispatch INDEX_UPDATE_EVENT (MsgIndex o)] |}).
  { unfold replay_callback.
    rewrite bind_ok with (a := Some {| fr_item := Some ""; fr_graphic := Some d |})
                         (w1 := w1) (e1 := [])
      by (unfold read; rewrite Hfr1; reflexivity).
    rewrite Hg.
    rewrite (bind_ok _ _ _ _ _ _ (run_delete_empty w1)).
    rewrite (bind_ok _ _ _ _ _ _ (run_setIndex w1 ms o Hidx1 Hacc1)).
    reflexivity. }
  assert (Hdone : done
    = {| out := Ok tt;
         world := with_localStorage
                    (<[INDEX_KEY := Js.join "," (ms ++ [m]) +:+ TOKEN]>
                       (localStorage w1)) w1;
         effects := [SetItem INDEX_KEY (Js.join "," (ms ++ [m]) +:+ TOKEN) true;
                     Dispatch INDEX_UPDATE_EVENT (MsgIndex o)] |}).
  { unfold done, backend_completes.
    rewrite (bind_ok _ _ _ _ _ _ Hrun).
    unfold called_by_browser, try_catch, on_complete.
    rewrite bind_ok with (a := count w1) (w1 := w1) (e1 := []) by reflexivity.
    rewrite Hkind, Hcb. cbn [call_mCallback]. rewrite Hcall. reflexivity. }
  rewrite Hdone. cbn [out world effects].
  split; [apply index_holds_written, Hclean|]. split; [|reflexivity].
  apply pending_stored.
  - apply Forall_app. split; [exact Hrs|].
    constructor; [exact (reads_back_clean e d Hed)|constructor].
  - cbn [with_localStorage localStorage]. rewrite lookup_insert_ne by discriminate.
    rewrite Hls1. exact Hst.
Qed.

End Outcome.

(** * Records that contain the token *)

Lemma str_prefix_app_r (p s t : string) :
  String.prefix p s = true -> String.prefix p (s +:+ t) = true.
Proof.
  revert s. induction p as [|a p IH]; intros s.
  { intros _. destruct s; [destruct t|]; reflexivity. }
  destruct s as [|b s]; [discriminate|].
  rewrite str_app_cons, !str_prefix_cons. intros H.
  apply andb_true_iff in H as [-> H]. apply IH, H.
Qed.

Lemma snoc_app (cur s : string) (c : ascii) :
  (cur +:+ String c "") +:+ s = cur +:+ String c s.
Proof. rewrite str_app_assoc. reflexivity. Qed.

Lemma no_start_snoc (sep cur s : string) (c : ascii) :
  no_start sep cur (String c s) = true ->
  String.prefix sep (String c s) = false ->
  no_start sep (cur +:+ String c "") s = true.
Proof.
  intros Hcur Hc. induction cur as [|a cur IH].
  - rewrite str_app_nil_l. cbn [no_start].
    rewrite str_app_cons, str_app_nil_l, Hc. reflexivity.
  - cbn [no_start] in Hcur. apply andb_true_iff in Hcur as [Ha Hcur].
    rewrite str_app_cons. cbn [no_start].
    rewrite (IH Hcur), andb_true_r.
    rewrite (str_app_cons a (cur +:+ String c "") s), snoc_app, <- str_app_cons.
    exact Ha.
Qed.

Lemma no_start_occurs (sep cur s : string) :
  sep <> "" -> no_start sep cur s = true -> occurs sep cur = false.
Proof.
  intros Hsep. induction cur as [|a cur IH]; intros H.
  - destruct sep; [congruence|reflexivity].
  - cbn [no_start] in H. apply andb_true_iff in H as [Ha H].
    cbn [occurs]. rewrite (IH H), orb_false_r.
    apply negb_true_iff in Ha. apply not_true_iff_false. intros Hp.
    apply not_true_iff_false in Ha. apply Ha, str_prefix_app_r, Hp.
Qed.

(** No piece that [split] returns contains the separator. *)
Lemma split_from_free (sep : string) (s : string) :
  sep <> "" ->
  forall skip cur,
    no_start sep cur s = true ->
    (skip <> 0 -> cur = "") ->
    Forall (fun piece => occurs sep piece = false) (Js.split_from sep skip cur s).
Proof.
  intros Hsep. induction s as [|c s IH]; intros skip cur Hcur Hskip.
  - cbn [Js.split_from]. constructor; [|constructor].
    apply (no_start_occurs sep cur ""); assumption.
  - cbn [Js.split_from]. destruct skip as [|k].
    + destruct (String.prefix sep (String c s)) eqn:Hp.
      * constructor; [apply (no_start_occurs sep cur (String c s)); assumption|].
        apply IH; [reflexivity|reflexivity].
      * apply IH; [apply no_start_snoc; assumption|congruence].
    + rewrite (Hskip (Nat.neq_succ_0 k)). apply IH; [reflexivity|reflexivity].
Qed.

Lemma split_free (s : string) :
  Forall (fun piece => occurs TOKEN piece = false) (Js.split TOKEN s).
Proof. apply split_from_free; [discriminate|reflexivity|reflexivity]. Qed.

Lemma is_duplicate_token (j : string) (split : list string) :
  occurs TOKEN j = true ->
  Forall (fun piece => occurs TOKEN piece = false) split ->
  is_duplicate j split = false.
Proof.
  intros Hj Hs. unfold is_duplicate.
  apply not_true_iff_false. intros H. apply existsb_exists in H as (p & Hp & Heq).
  apply andb_true_iff in Heq as [_ Heq]. apply String.eqb_eq in Heq. subst p.
  rewrite Forall_forall in Hs. apply list_elem_of_In in Hp.
  rewrite (Hs j Hp) in Hj. discriminate.
Qed.

Section TokenInside.
Context {substrate : Substrate} {codec : AttributeCodec}.

(** X30: an edit whose record contains the token is never taken for a
    duplicate.  No piece of the split store contains the token, so none
    equals the record: every insert of such an edit over an existing
    store whose write is accepted appends it again and reports
    [duplicate = false] to the callback, if there is one. *)
Theorem token_defeats_duplicate_check (w : World) (e : Edit) (localStore : string)
    (callback : Handler) :
  let v := localStore +:+ record e +:+ TOKEN in
  let ins := _addToLocalStore (ed_graphic e) (ed_layer e) (ed_enumValue e)
                              callback w in
  occurs TOKEN (record e) = true ->
  localStorage w !! STORAGE_KEY = Some localStore ->
  accepts (localStorage w) STORAGE_KEY v = true ->
  effects ins
  = SetItem STORAGE_KEY v true
    :: match callback with
       | Given =>
           [CallerCallback 0
              (ArgStored {| success := Some true; duplicate := Some false |}) 0;
            LayerAdd (ed_layer e) (ed_graphic e)]
       | Omitted => []
       end
  /\ localStorage (world ins) !! STORAGE_KEY = Some v.
Proof.
  intros v ins Hj Hst Hacc. unfold ins.
  assert (Hser : _serializeGraphic (ed_graphic e) (ed_layer e) (ed_enumValue e)
                 = record e +:+ TOKEN) by reflexivity.
  pose proof (run_update w localStore (record e +:+ TOKEN) Hst) as Hu.
  rewrite drop_last_token in Hu.
  rewrite (is_duplicate_token (record e) _ Hj (split_free localStore)) in Hu.
  cbv zeta in Hu. fold v in Hu. rewrite Hacc in Hu. rewrite <- Hser in Hu.
  rewrite (run_add_existing _ _ _ _ _ _ _ _ _ Hst Hu).
  cbn [world effects app with_localStorage localStorage].
  split; [destruct callback; reflexivity|apply lookup_insert_eq].
Qed.

End TokenInside.

(** * The theorems at sample inputs *)

(** C2, witness: [hydrant] inserted twice into the queue that holds
    [valve]. *)
Lemma insert_twice_one_entry_witness :
  let j := hydrant_record in
  let first := @_addToLocalStore accepting json_codec hydrant layer0 ADD Given one_queued in
  let second :=
    @_addToLocalStore accepting json_codec hydrant layer0 ADD Given (world first) in
  (occurs TOKEN j = false
   /\ holds one_queued [valve_record]
   /\ (j ∉ [valve_record])
   /\ accepts (Substrate := accepting) (localStorage one_queued) STORAGE_KEY
        (blob ([valve_record] ++ [j])) = true)
  /\ (pending (world second) = [valve_record] ++ [j]
      /\ effects second
         = [Dispatch EDIT_EVENT_DUPLICATE (MsgBool true);
            CallerCallback 0
              (ArgStored {| success := None; duplicate := Some true |}) 0;
            LayerAdd layer0 hydrant]
      /\ storage_effects (effects second) = []
      /\ localStorage (world second) = localStorage (world first)).
Proof.
  cbv zeta.
  assert (H1 : occurs TOKEN hydrant_record = false) by (vm_compute; reflexivity).
  assert (H2 : holds one_queued [valve_record]).
  { split; [constructor; [vm_compute; reflexivity|constructor]|].
    left. vm_compute. reflexivity. }
  assert (H3 : hydrant_record ∉ [valve_record]).
  { apply not_elem_of_cons. split; [|apply not_elem_of_nil].
    apply String.eqb_neq. vm_compute. reflexivity. }
  assert (H4 : @accepts accepting (localStorage one_queued) STORAGE_KEY
                 (blob ([valve_record] ++ [hydrant_record])) = true)
    by reflexivity.
  split; [tauto|].
  exact (@insert_twice_one_entry accepting json_codec one_queued [valve_record]
           hydrant layer0 ADD Given H1 H2 H3 H4).
Defined.

(** C2, counterexample: the claim as stated fails where the record's content contains the
    delimiter: the second insert of [tagged] finds no duplicate and writes
    the record a second time. *)
Lemma insert_twice_counterexample :
  let first := @_addToLocalStore accepting json_codec tagged layer0 ADD Given fresh in
  let second := @_addToLocalStore accepting json_codec tagged layer0 ADD Given (world first) in
  let record := @_serializeGraphic json_codec tagged layer0 ADD in
  effects second
  = [SetItem STORAGE_KEY (record +:+ record) true;
     CallerCallback 0 (ArgStored {| success := Some true; duplicate := Some false |}) 0;
     LayerAdd layer0 tagged]
  /\ localStorage (world second) !! STORAGE_KEY = Some (record +:+ record).
Proof. vm_compute. split; reflexivity. Qed.

(** C10, witness: [hydrant] is serialized again over the queue that
    holds [hydrant] and [valve]. *)
Lemma serialize_appends_token_witness :
  let content := hydrant_record in
  let localStore := blob [hydrant_record; valve_record] in
  let r := @_updateExistingLocalStore accepting
             (@_serializeGraphic json_codec hydrant layer0 ADD) two_queued in
  localStorage two_queued !! STORAGE_KEY = Some localStore
  /\ (@_serializeGraphic json_codec hydrant layer0 ADD = content +:+ TOKEN
      /\ (content ∈ pending two_queued ->
          out r = Ok {| success := None; duplicate := Some true |}
          /\ world r = two_queued
          /\ storage_effects (effects r) = [])
      /\ (content ∉ pending two_queued ->
          let v := localStore +:+ content +:+ TOKEN in
          let b := @accepts accepting (localStorage two_queued) STORAGE_KEY v in
          out r = Ok {| success := Some b; duplicate := Some false |}
          /\ effects r = [SetItem STORAGE_KEY v b]
          /\ localStorage (world r)
             = if b then <[STORAGE_KEY := v]> (localStorage two_queued)
               else localStorage two_queued)).
Proof.
  cbv zeta.
  assert (H : localStorage two_queued !! STORAGE_KEY
              = Some (blob [hydrant_record; valve_record]))
    by (vm_compute; reflexivity).
  split; [exact H|].
  exact (@serialize_appends_token accepting json_codec hydrant layer0 ADD two_queued
           _ H).
Defined.

(** C5, witness: [valve], at position 1 of the queue of [hydrant] and
    [valve], is removed. *)
Lemma remove_kth_record_witness :
  let rs := [hydrant_record; valve_record] in
  let del := @_deleteItemInLocalStore accepting valve_record two_queued in
  (Forall (fun r => is_Some (parse r)) rs
   /\ Forall (fun r => occurs TOKEN r = false) rs
   /\ NoDup rs
   /\ localStorage two_queued !! STORAGE_KEY = Some (blob rs)
   /\ rs !! 1 = Some valve_record
   /\ @accepts accepting (delete STORAGE_KEY (localStorage two_queued)) STORAGE_KEY
        (blob (delete 1 rs)) = true)
  /\ (out del = Ok true
      /\ localStorage (world del) !! STORAGE_KEY = Some (blob (delete 1 rs))
      /\ pending (world del) = delete 1 rs
      /\ Forall (fun r => is_Some (parse r)) (pending (world del))).
Proof.
  cbv zeta.
  assert (H1 : Forall (fun r => is_Some (parse r)) [hydrant_record; valve_record]).
  { repeat constructor; vm_compute; eexists; reflexivity. }
  assert (H2 : Forall (fun r => occurs TOKEN r = false) [hydrant_record; valve_record]).
  { repeat constructor; vm_compute; reflexivity. }
  assert (H3 : NoDup [hydrant_record; valve_record]).
  { apply NoDup_cons. split; [|apply NoDup_singleton].
    apply not_elem_of_cons. split; [|apply not_elem_of_nil].
    apply String.eqb_neq. vm_compute. reflexivity. }
  assert (H4 : localStorage two_queued !! STORAGE_KEY
               = Some (blob [hydrant_record; valve_record]))
    by (vm_compute; reflexivity).
  assert (H5 : [hydrant_record; valve_record] !! 1 = Some valve_record)
    by reflexivity.
  assert (H6 : @accepts accepting (delete STORAGE_KEY (localStorage two_queued))
                 STORAGE_KEY (blob (delete 1 [hydrant_record; valve_record])) = true)
    by reflexivity.
  split; [tauto|].
  exact (@remove_kth_record accepting two_queued [hydrant_record; valve_record] 1
           valve_record H1 H2 H3 H4 H5 H6).
Defined.

(** C5, counterexample: the claim as stated fails in each of these ways.
    In the queue that [applyEdits] built from [tagged] and [valve], both
    records parse; removing [valve], at position 1, leaves no record at
    all, because the record of [tagged] contains the delimiter and its
    pieces do not parse.  In a queue that holds the record of [hydrant]
    twice, around that of [valve], removing the record at position 2
    removes the one at position 0, and [valve] comes first.  And when the
    substrate refuses the rewrite, the queue is gone. *)
Lemma remove_kth_counterexample :
  let tagged_record := @_serializeGraphicNoToken json_codec tagged layer0 ADD in
  let built := [tagged_record; valve_record] in
  let del := @_deleteItemInLocalStore accepting valve_record tagged_queue in
  let twice := [hydrant_record; valve_record; hydrant_record] in
  let doubled := with_localStorage {[ STORAGE_KEY := blob twice ]} fresh in
  let del' := @_deleteItemInLocalStore accepting hydrant_record doubled in
  let del'' := @_deleteItemInLocalStore refusing valve_record two_queued in
  (localStorage tagged_queue !! STORAGE_KEY = Some (blob built)
   /\ forallb (fun r => bool_decide (is_Some (parse r))) built = true
   /\ built !! 1 = Some valve_record
   /\ out del = Ok true
   /\ delete 1 built = [tagged_record]
   /\ pending (world del) = [])
  /\ (forallb (fun r => bool_decide (is_Some (parse r))) twice = true
      /\ forallb (fun r => negb (occurs TOKEN r)) twice = true
      /\ twice !! 2 = Some hydrant_record
      /\ out del' = Ok true
      /\ delete 2 twice = [hydrant_record; valve_record]
      /\ pending (world del') = [valve_record; hydrant_record])
  /\ (pending two_queued = [hydrant_record; valve_record]
      /\ out del'' = Ok false
      /\ pending (world del'') = []).
Proof. vm_compute. repeat split; reflexivity. Qed.

(** C4, witness: a point of layer 7 with fractional coordinates
    (-13046162.5, 4036345.25) and an attribute, to update. *)
Lemma deserialize_serialized_witness :
  let g := Point (Some (JNum (Finite true "130461625" 8)))
                 (Some (JNum (Finite false "403634525" 7))) web_mercator in
  let attrs := JObj [("objectid", JNum 12)] in
  let graphic := {| geometry := Some g; attributes := attrs |} in
  (parses_back (layerId layer7) = true
   /\ well_formed_geometry g = true
   /\ JSON_parse (@attributes_field json_codec graphic) = Ok attrs)
  /\ @_deserializeGraphic
       (@_serializeGraphicNoToken json_codec graphic layer7 UPDATE)
     = Ok {| dec_graphic := {| geometry := Some g; attributes := attrs |};
             dec_layer := layerId layer7;
             dec_enumValue := Some (JStr UPDATE) |}.
Proof.
  cbv zeta. split; [repeat split; vm_compute; reflexivity|].
  apply (@deserialize_serialized json_codec _ _ _ layer7 UPDATE);
    vm_compute; reflexivity.
Defined.

(** C4, counterexample: the claim as stated fails in each of these ways.
    The output of [_serializeGraphic] ends with the delimiter, which
    [JSON.parse] refuses.  A layer identifier that is a string is parsed
    as JSON text by [_deserializeGraphic]: ["roads"] is refused, and
    ["7"] comes back as the number 7.  A coordinate that is [NaN] is
    printed as [null] by [JSON.stringify], and comes back as [null]. *)
Lemma deserialize_counterexample :
  _deserializeGraphic (@_serializeGraphic json_codec hydrant layer0 ADD)
  = Throw SyntaxError
  /\ _deserializeGraphic (@_serializeGraphicNoToken json_codec hydrant roads ADD)
     = Throw SyntaxError
  /\ option_map dec_layer
       (match _deserializeGraphic
                (@_serializeGraphicNoToken json_codec hydrant
                   {| layerId := JStr "7" |} ADD) with
        | Ok d => Some d
        | Throw _ => None
        end)
     = Some (JNum 7)
  /\ option_map (fun d => geometry (dec_graphic d))
       (match _deserializeGraphic
                (@_serializeGraphicNoToken json_codec
                   {| geometry := Some (Point (Some (JNum NaN)) (Some (JNum 2))
                                          web_mercator);
                      attributes := JNull |} layer0 ADD) with
        | Ok d => Some d
        | Throw _ => None
        end)
     = Some (Some (Point (Some JNull) (Some (JNum 2)) web_mercator)).
Proof. vm_compute. repeat split; reflexivity. Qed.

(** ** The code at the inputs where it leaves the specification *)

Section Runs.
#[local] Existing Instance accepting.
#[local] Existing Instance json_codec.
#[local] Existing Instance small_graphics.

(** C1: with 5 MB held by the store and a candidate of 0.01 MB, the edit
    is turned away by the first test of [_applyEdits] (the graphic is
    "too big"), not by the second (the store is "almost over the limit"),
    which the claim expects whenever the occupancy alone exceeds the
    limit. *)
Theorem occupancy_over_limit_takes_first_test :
  Qeq_bool (getlocalStorageUsed crowded) 5 = true
  /\ effects (_applyEdits false hydrant layer0 ADD Given crowded)
     = [Alert (GraphicTooBig 0.01); CallerCallback 0 ArgFalse 0].
Proof. vm_compute. split; reflexivity. Qed.

(** C3: two queued mutations, both layers known, both calls completed
    with a successful result; afterwards the queue still holds both
    mutations.  The completion callbacks read the loop variable [item]
    after the loop has ended, where it is the empty last piece, so
    [_deleteItemInLocalStore] matches nothing; and the index holds the
    two records joined by a comma in one entry. *)
Theorem replay_leaves_queue :
  let up := _offlineMonitor true two_queued in
  let first := backend_completes 0 (added 101 true) none none noon (world up) in
  let second := backend_completes 0 (added 102 true) none none noon (world first) in
  pending two_queued = [hydrant_record; valve_record]
  /\ length (requests (world up)) = 2
  /\ requests (world second) = []
  /\ option_map fr_item (frames (world up) !! 0) = Some (Some "")
  /\ pending (world second) = [hydrant_record; valve_record]
  /\ out (getLocalStoreIndex (world second))
     = Ok (Some [stringify (_indexObject_json (outcome 101 true))
                 +:+ "," +:+ stringify (_indexObject_json (outcome 102 true));
                 ""]).
Proof. vm_compute. repeat split; reflexivity. Qed.

(** C6: the call for a queued mutation completes.  With a per-item
    result of [success = false] the outcome record is appended, and the
    mutation is not removed from the queue (the callback removes the
    empty string that the loop variable [item] holds by then).  For a
    queued update the completion callback tests [deleteResult.length],
    which is [0], and neither appends a record nor removes the
    mutation. *)
Theorem completion_leaves_mutation :
  let up := _offlineMonitor true (queued hydrant layer0 ADD) in
  let done := backend_completes 0 (added 101 false) none none noon (world up) in
  let up' := _offlineMonitor true (queued hydrant layer0 UPDATE) in
  let done' := backend_completes 0 none (added 101 true) none noon (world up') in
  (length (requests (world up)) = 1
   /\ localStorage (world done) !! INDEX_KEY
      = Some (stringify (_indexObject_json (outcome 101 false)) +:+ TOKEN)
   /\ storage_effects (effects done)
      = [SetItem INDEX_KEY
           (stringify (_indexObject_json (outcome 101 false)) +:+ TOKEN) true]
   /\ pending (world done) = [hydrant_record])
  /\ (length (requests (world up')) = 1
      /\ effects done' = []
      /\ localStorage (world done') !! INDEX_KEY = None
      /\ length (pending (world done')) = 1).
Proof. vm_compute. repeat split; reflexivity. Qed.

(** C7: the substrate refuses the write of a removal.  The removal
    reports [false], and the queue key, deleted before the write was
    tried, is gone with both queued mutations; the claim has the queue
    keep its content. *)
Theorem refused_removal_loses_queue :
  let del := @_deleteItemInLocalStore refusing hydrant_record two_queued in
  pending two_queued = [hydrant_record; valve_record]
  /\ write_failed (effects del) = true
  /\ out del = Ok false
  /\ localStorage (world del) !! STORAGE_KEY = None
  /\ pending (world del) = [].
Proof. vm_compute. repeat split; reflexivity. Qed.

(** C8: the first queued mutation names layer 7, which is not among the
    feature layers; [getGraphicsLayerById] returns [undefined] and
    [layer.applyEdits] raises a [TypeError] that ends the replay: the
    second mutation, whose layer is known, is not submitted. *)
Theorem unresolved_layer_ends_replay :
  let w := world (applyEdits valve layer0 ADD Given (queued hydrant layer7 ADD)) in
  let up := _offlineMonitor true w in
  length (pending w) = 2
  /\ effects up = [Dispatch INTERNET_STATUS_EVENT (MsgBool true); Uncaught TypeError]
  /\ requests (world up) = []
  /\ pending (world up) = pending w.
Proof. vm_compute. repeat split; reflexivity. Qed.

(** C9: the call for the one queued mutation fails.  The error callback
    raises a [ReferenceError] while building the arguments of
    [mCallback], so no callback receives the error; the mutation stays
    queued and the next "up" submits it again. *)
Theorem call_error_reaches_no_callback :
  let up := _offlineMonitor true (queued hydrant layer0 ADD) in
  let failed := backend_fails 0 (world up) in
  let again := _offlineMonitor true (world failed) in
  length (requests (world up)) = 1
  /\ effects failed = [Uncaught ReferenceError]
  /\ pending (world failed) = [hydrant_record]
  /\ length (requests (world again)) = 1
  /\ rq_graphic <$> requests (world again) = [hydrant].
Proof. vm_compute. repeat split; reflexivity. Qed.

End Runs.

(** ** Witnesses of the further theorems *)

(** X3, witness: the substrate refuses every write. *)
Lemma refused_write_witness :
  let ins := @_addToLocalStore refusing json_codec hydrant layer0 ADD Given one_queued in
  let del := @_deleteItemInLocalStore refusing valve_record one_queued in
  (write_failed (effects ins) = true /\ write_failed (effects del) = true)
  /\ (localStorage (world ins) = localStorage one_queued
      /\ In (CallerCallback 0
               (ArgStored {| success := Some false; duplicate := Some false |}) 0)
            (effects ins))
  /\ (out del = Ok false
      /\ localStorage (world del) = delete STORAGE_KEY (localStorage one_queued)).
Proof.
  cbv zeta.
  pose proof (@refused_write refusing json_codec one_queued hydrant layer0 ADD
                valve_record Given) as [Hins Hdel].
  assert (H1 : write_failed
                 (effects (@_addToLocalStore refusing json_codec hydrant layer0 ADD Given
                             one_queued)) = true) by (vm_compute; reflexivity).
  assert (H2 : write_failed
                 (effects (@_deleteItemInLocalStore refusing valve_record one_queued))
               = true) by (vm_compute; reflexivity).
  split; [split; assumption|]. split; [exact (Hins H1)|exact (Hdel H2)].
Defined.

(** X1, witness. *)
Lemma parse_stringify_witness :
  let v := JObj [("name", JStr "hydrant"); ("size", JNum (-3));
                 ("tags", JArr [JBool true; JNull; JStr "a|||b"])] in
  well_formed v = true /\ parse (stringify v) = Some v.
Proof.
  cbv zeta. split; [reflexivity|]. apply parse_stringify. reflexivity.
Defined.

(** X2, witness: [hydrant] is edited offline while the store holds
    5 MB. *)
Lemma rejected_edit_leaves_no_trace_witness :
  let r := @_applyEdits accepting json_codec small_graphics false hydrant layer0 ADD
                        Given crowded in
  existsb is_rejection (effects r) = true
  /\ (world r = crowded
      /\ out r = Ok tt
      /\ exists m, effects r = [Alert m; CallerCallback 0 ArgFalse 0]).
Proof.
  cbv zeta.
  assert (H : existsb is_rejection
                (effects (@_applyEdits accepting json_codec small_graphics false
                            hydrant layer0 ADD Given crowded)) = true)
    by (vm_compute; reflexivity).
  split; [exact H|].
  exact (@rejected_edit_leaves_no_trace accepting json_codec small_graphics false
           hydrant layer0 ADD Given crowded H).
Defined.

(** X4, witness: the store already holds 5 MB. *)
Lemma almost_over_limit_unreachable_witness :
  (0 <= @apprxGraphicSize small_graphics hydrant)%Q
  /\ existsb is_almost_over_limit
       (effects (@_applyEdits accepting json_codec small_graphics false hydrant
                   layer0 ADD Given crowded)) = false.
Proof.
  assert (H : (0 <= @apprxGraphicSize small_graphics hydrant)%Q)
    by (vm_compute; discriminate).
  split; [exact H|].
  exact (@almost_over_limit_unreachable accepting json_codec small_graphics false
           hydrant layer0 ADD Given crowded H).
Defined.

(** X5, witness: the two queued mutations are replayed and the second
    call completes. *)
Lemma replay_completion_keeps_queue_witness :
  let rs := [hydrant_record; valve_record] in
  let rq := {| rq_kind := KAdd; rq_layer := layer0; rq_graphic := valve;
               rq_callback := CbReplay 0 |} in
  let up := _reestablishedInternet two_queued in
  (Forall (fun r => clean r = true) rs
   /\ localStorage two_queued !! STORAGE_KEY = Some (blob rs)
   /\ out up = Ok tt
   /\ requests (world up) !! 1 = Some rq
   /\ rq_callback rq = CbReplay (length (frames two_queued)))
  /\ pending (world (@backend_completes accepting 1 (added 102 true) none none noon
                       (world up))) = rs.
Proof.
  cbv zeta.
  assert (H1 : Forall (fun r => clean r = true) [hydrant_record; valve_record]).
  { repeat constructor; vm_compute; reflexivity. }
  assert (H2 : localStorage two_queued !! STORAGE_KEY
               = Some (blob [hydrant_record; valve_record]))
    by (vm_compute; reflexivity).
  assert (H3 : out (_reestablishedInternet two_queued) = Ok tt)
    by (vm_compute; reflexivity).
  assert (H4 : requests (world (_reestablishedInternet two_queued)) !! 1
               = Some {| rq_kind := KAdd; rq_layer := layer0; rq_graphic := valve;
                         rq_callback := CbReplay 0 |})
    by (vm_compute; reflexivity).
  assert (H5 : rq_callback {| rq_kind := KAdd; rq_layer := layer0;
                              rq_graphic := valve; rq_callback := CbReplay 0 |}
               = CbReplay (length (frames two_queued)))
    by (vm_compute; reflexivity).
  split; [tauto|].
  exact (@replay_completion_keeps_queue accepting two_queued
           [hydrant_record; valve_record] 1 _ (added 102 true) none none noon
           H1 H2 H3 H4 H5).
Defined.

(** X6, witness: the two queued additions. *)
Lemma replay_submits_store_witness :
  let ds := [decoded hydrant_edit; decoded valve_edit] in
  let rqs := [call KAdd hydrant; call KAdd valve] in
  let up := _reestablishedInternet two_queued in
  (out (getStore two_queued) = Ok (Some ds)
   /\ Forall2 (submits two_queued (length (frames two_queued))) ds rqs)
  /\ (out up = Ok tt
      /\ effects up = map ApplyEdits rqs
      /\ requests (world up) = requests two_queued ++ rqs
      /\ localStorage (world up) = localStorage two_queued).
Proof.
  cbv zeta.
  assert (H1 : out (getStore two_queued)
               = Ok (Some [decoded hydrant_edit; decoded valve_edit]))
    by (vm_compute; reflexivity).
  assert (H2 : Forall2 (submits two_queued (length (frames two_queued)))
                 [decoded hydrant_edit; decoded valve_edit]
                 [call KAdd hydrant; call KAdd valve]).
  { repeat constructor; vm_compute; reflexivity. }
  split; [split; assumption|].
  exact (replay_submits_store two_queued _ _ H1 H2).
Defined.

(** X7, witness: the queue of [survey], whose coordinates are
    fractional, and [valve]. *)
Lemma getStore_lists_queue_witness :
  let es := [survey_edit; valve_edit] in
  let ds := [decoded survey_edit; decoded valve_edit] in
  (Forall2 (@reads_back json_codec) es ds
   /\ localStorage surveyed !! STORAGE_KEY
      = Some (blob (map (@record json_codec) es)))
  /\ getStore surveyed
     = {| out := Ok (Some ds); world := surveyed; effects := [] |}.
Proof.
  cbv zeta.
  assert (H1 : Forall2 (@reads_back json_codec) [survey_edit; valve_edit]
                 [decoded survey_edit; decoded valve_edit]).
  { repeat constructor.
    - exists (Point (Some (JNum (Finite true "130461625" 8)))
                    (Some (JNum (Finite false "403634525" 7))) web_mercator), 0%Z.
      repeat split; vm_compute; reflexivity.
    - exists (Point (Some (JNum (-13046170))) (Some (JNum 4036350)) web_mercator), 0%Z.
      repeat split; vm_compute; reflexivity. }
  assert (H2 : localStorage surveyed !! STORAGE_KEY
               = Some (blob (map (@record json_codec) [survey_edit; valve_edit])))
    by (vm_compute; reflexivity).
  split; [split; assumption|].
  exact (@getStore_lists_queue json_codec surveyed _ _ H1 H2).
Defined.

(** X8, witness: the deletion of a table row, made offline. *)
Lemma no_geometry_blocks_queue_witness :
  let w := queued table_row layer0 DELETE in
  let rs := [@record json_codec row_edit] in
  (geometry (ed_graphic row_edit) = None
   /\ well_formed (layerId (ed_layer row_edit)) = true
   /\ Forall (fun r => clean r = true) rs
   /\ @record json_codec row_edit ∈ rs
   /\ localStorage w !! STORAGE_KEY = Some (blob rs))
  /\ ((exists x, _deserializeGraphic (@record json_codec row_edit) = Throw x)
      /\ (exists x, out (getStore w) = Throw x)
      /\ (exists x, out (_reestablishedInternet w) = Throw x)).
Proof.
  cbv zeta.
  assert (H1 : geometry (ed_graphic row_edit) = None) by reflexivity.
  assert (H2 : well_formed (layerId (ed_layer row_edit)) = true) by reflexivity.
  assert (H3 : Forall (fun r => clean r = true) [@record json_codec row_edit]).
  { repeat constructor; vm_compute; reflexivity. }
  assert (H4 : @record json_codec row_edit ∈ [@record json_codec row_edit]).
  { apply list_elem_of_singleton. reflexivity. }
  assert (H5 : localStorage (queued table_row layer0 DELETE) !! STORAGE_KEY
               = Some (blob [@record json_codec row_edit]))
    by (vm_compute; reflexivity).
  split; [tauto|].
  exact (@no_geometry_blocks_queue json_codec _ _ row_edit H1 H2 H3 H4 H5).
Defined.

(** X10, witness: [valve] is edited offline after [hydrant], with a
    callback and without one. *)
Lemma offline_edit_is_queued_witness :
  let w := queued hydrant layer0 ADD in
  let r := @_applyEdits accepting json_codec small_graphics false valve layer0 ADD
                        Given w in
  let r' := @_applyEdits accepting json_codec small_graphics false valve layer0 ADD
                         Omitted w in
  ((0 <= @apprxGraphicSize small_graphics (ed_graphic valve_edit))%Q
   /\ (@apprxGraphicSize small_graphics (ed_graphic valve_edit) + getlocalStorageUsed w
       <= LOCAL_STORAGE_MAX_LIMIT)%Q
   /\ holds w [hydrant_record]
   /\ occurs TOKEN (@record json_codec valve_edit) = false
   /\ (@record json_codec valve_edit ∉ [hydrant_record])
   /\ @accepts accepting (localStorage w) STORAGE_KEY
        (blob ([hydrant_record] ++ [@record json_codec valve_edit])) = true)
  /\ (holds (world r) [hydrant_record; valve_record]
      /\ pending (world r) = [hydrant_record; valve_record]
      /\ out r = Ok tt
      /\ _reestablishedInternetListener (world r) = true
      /\ effects r
         = [SetItem STORAGE_KEY (blob [hydrant_record; valve_record]) true;
            CallerCallback 0
              (ArgStored {| success := Some true; duplicate := Some false |}) 0;
            LayerAdd layer0 valve])
  /\ (holds (world r') [hydrant_record; valve_record]
      /\ pending (world r') = [hydrant_record; valve_record]
      /\ out r' = Throw TypeError
      /\ _reestablishedInternetListener (world r') = _reestablishedInternetListener w
      /\ effects r'
         = [SetItem STORAGE_KEY (blob [hydrant_record; valve_record]) true]).
Proof.
  cbv zeta.
  assert (H1 : (0 <= @apprxGraphicSize small_graphics (ed_graphic valve_edit))%Q)
    by (vm_compute; discriminate).
  assert (H2 : (@apprxGraphicSize small_graphics (ed_graphic valve_edit)
                + getlocalStorageUsed (queued hydrant layer0 ADD)
                <= LOCAL_STORAGE_MAX_LIMIT)%Q)
    by (vm_compute; discriminate).
  assert (H3 : holds (queued hydrant layer0 ADD) [hydrant_record]).
  { split; [repeat constructor; vm_compute; reflexivity|].
    left. vm_compute. reflexivity. }
  assert (H4 : occurs TOKEN (@record json_codec valve_edit) = false)
    by (vm_compute; reflexivity).
  assert (H5 : @record json_codec valve_edit ∉ [hydrant_record]).
  { apply not_elem_of_cons. split; [|apply not_elem_of_nil].
    apply String.eqb_neq. vm_compute. reflexivity. }
  assert (H6 : @accepts accepting (localStorage (queued hydrant layer0 ADD)) STORAGE_KEY
                 (blob ([hydrant_record] ++ [@record json_codec valve_edit])) = true)
    by reflexivity.
  split; [tauto|]. split.
  - exact (@offline_edit_is_queued accepting json_codec small_graphics
             (queued hydrant layer0 ADD) [hydrant_record] valve_edit Given
             H1 H2 H3 H4 H5 H6).
  - exact (@offline_edit_is_queued accepting json_codec small_graphics
             (queued hydrant layer0 ADD) [hydrant_record] valve_edit Omitted
             H1 H2 H3 H4 H5 H6).
Defined.

(** X11, witness: [hydrant] is added online. *)
Lemma online_edit_bypasses_storage_witness :
  let w := with_online true fresh in
  let r := @_applyEdits accepting json_codec small_graphics true hydrant layer0 ADD Given w in
  let done := @backend_completes accepting 0 (added 101 true) none none noon (world r) in
  ((0 <= @apprxGraphicSize small_graphics (ed_graphic hydrant_edit))%Q
   /\ (@apprxGraphicSize small_graphics (ed_graphic hydrant_edit)
       + getlocalStorageUsed w <= LOCAL_STORAGE_MAX_LIMIT)%Q)
  /\ (out r = Ok tt
      /\ effects r
         = [ApplyEdits {| rq_kind := KAdd; rq_layer := layer0; rq_graphic := hydrant;
                          rq_callback := CbLog |}]
      /\ localStorage (world r) = localStorage w
      /\ localStorage (world done) = localStorage w
      /\ storage_effects (effects done) = []).
Proof.
  cbv zeta.
  assert (H1 : (0 <= @apprxGraphicSize small_graphics (ed_graphic hydrant_edit))%Q)
    by (vm_compute; discriminate).
  assert (H2 : (@apprxGraphicSize small_graphics (ed_graphic hydrant_edit)
                + getlocalStorageUsed (with_online true fresh)
                <= LOCAL_STORAGE_MAX_LIMIT)%Q)
    by (vm_compute; discriminate).
  split; [tauto|].
  exact (@online_edit_bypasses_storage accepting json_codec small_graphics
           (with_online true fresh) hydrant_edit Given (added 101 true) none none
           noon H1 H2).
Defined.

(** X12, witness: the "down" event with two edits queued. *)
Lemma dispatch_without_replay_witness :
  (MsgBool false <> MsgBool true
   \/ INTERNET_STATUS_EVENT <> INTERNET_STATUS_EVENT
   \/ _reestablishedInternetListener two_queued = false
   \/ localStorage two_queued !! STORAGE_KEY = None)
  /\ _dispatchEvent (MsgBool false) INTERNET_STATUS_EVENT two_queued
     = {| out := Ok tt; world := two_queued;
          effects := [Dispatch INTERNET_STATUS_EVENT (MsgBool false)] |}.
Proof.
  assert (H : MsgBool false <> MsgBool true
              \/ INTERNET_STATUS_EVENT <> INTERNET_STATUS_EVENT
              \/ _reestablishedInternetListener two_queued = false
              \/ localStorage two_queued !! STORAGE_KEY = None)
    by (left; discriminate).
  split; [exact H|].
  exact (dispatch_without_replay (MsgBool false) INTERNET_STATUS_EVENT
           two_queued H).
Defined.

(** X13, witness: connectivity returns with two edits queued. *)
Lemma up_event_sends_queue_witness :
  let es := [hydrant_edit; valve_edit] in
  let ds := [decoded hydrant_edit; decoded valve_edit] in
  let rqs := [call KAdd hydrant; call KAdd valve] in
  let up := _offlineMonitor true two_queued in
  (_reestablishedInternetListener two_queued = true
   /\ Forall2 (@reads_back json_codec) es ds
   /\ Forall2 (submits two_queued (length (frames two_queued))) ds rqs
   /\ localStorage two_queued !! STORAGE_KEY
      = Some (blob (map (@record json_codec) es)))
  /\ (out up = Ok tt
      /\ effects up
         = Dispatch INTERNET_STATUS_EVENT (MsgBool true) :: map ApplyEdits rqs
      /\ requests (world up) = requests two_queued ++ rqs
      /\ pending (world up) = map (@record json_codec) es).
Proof.
  cbv zeta.
  assert (H0 : _reestablishedInternetListener two_queued = true) by reflexivity.
  assert (H1 : Forall2 (@reads_back json_codec) [hydrant_edit; valve_edit]
                 [decoded hydrant_edit; decoded valve_edit]).
  { repeat constructor.
    - exists (Point (Some (JNum (-13046162))) (Some (JNum 4036345)) web_mercator), 0%Z.
      repeat split; vm_compute; reflexivity.
    - exists (Point (Some (JNum (-13046170))) (Some (JNum 4036350)) web_mercator), 0%Z.
      repeat split; vm_compute; reflexivity. }
  assert (H2 : Forall2 (submits two_queued (length (frames two_queued)))
                 [decoded hydrant_edit; decoded valve_edit]
                 [call KAdd hydrant; call KAdd valve]).
  { repeat constructor; vm_compute; reflexivity. }
  assert (H3 : localStorage two_queued !! STORAGE_KEY
               = Some (blob (map (@record json_codec) [hydrant_edit; valve_edit])))
    by (vm_compute; reflexivity).
  split; [tauto|].
  exact (@up_event_sends_queue json_codec two_queued _ _ _ H0 H1 H2 H3).
Defined.

(** X14, witness: a second outcome is recorded. *)
Lemma index_joins_entries_witness :
  let ms := [outcome_text 101 true] in
  let m := outcome_text 102 true in
  let r := @_setItemLocalStoreIndexObject accepting (outcome 102 true) recorded in
  (index_holds recorded ms
   /\ occurs TOKEN (Js.join "," (ms ++ [m])) = false
   /\ @accepts accepting (localStorage recorded) INDEX_KEY
        (Js.join "," (ms ++ [m]) +:+ TOKEN) = true)
  /\ (out r = Ok true
      /\ index_holds (world r) (ms ++ [m])
      /\ out (getLocalStoreIndex (world r)) = Ok (Some [Js.join "," (ms ++ [m]); ""])
      /\ localStorage (world r) !! STORAGE_KEY = localStorage recorded !! STORAGE_KEY).
Proof.
  cbv zeta.
  assert (H1 : index_holds recorded [outcome_text 101 true])
    by (split; vm_compute; reflexivity).
  assert (H2 : occurs TOKEN (Js.join "," ([outcome_text 101 true]
                                          ++ [outcome_text 102 true])) = false)
    by (vm_compute; reflexivity).
  assert (H3 : @accepts accepting (localStorage recorded) INDEX_KEY
                 (Js.join "," ([outcome_text 101 true] ++ [outcome_text 102 true])
                  +:+ TOKEN) = true) by reflexivity.
  split; [tauto|].
  exact (@index_joins_entries accepting recorded [outcome_text 101 true]
           (outcome 102 true) H1 H2 H3).
Defined.


(** X16, witness: two outcomes were recorded. *)
Lemma index_lookup_many_witness :
  let v := _indexObject_json (outcome 101 true) in
  (well_formed v = true
   /\ index_holds recorded_twice [stringify v; outcome_text 102 true])
  /\ (_getItemLocalStoreIndex (Some (JNum 101)) recorded_twice
      = throw SyntaxError recorded_twice
      /\ _isItemLocalStoreIndex (Some (JNum 101)) recorded_twice
         = throw SyntaxError recorded_twice
      /\ _isItemTempLocalStore (Some (JNum 101)) recorded_twice
         = throw SyntaxError recorded_twice).
Proof.
  cbv zeta.
  assert (H1 : well_formed (_indexObject_json (outcome 101 true)) = true)
    by reflexivity.
  assert (H2 : index_holds recorded_twice
                 [stringify (_indexObject_json (outcome 101 true));
                  outcome_text 102 true])
    by (split; vm_compute; reflexivity).
  split; [tauto|].
  exact (index_lookup_many recorded_twice _ _ [] (Some (JNum 101)) H1 H2).
Defined.

(** X18, witness: [valve] is not queued. *)
Lemma removal_of_absent_entry_witness :
  (valve_record ∉ pending (queued hydrant layer0 ADD))
  /\ @_deleteItemInLocalStore accepting valve_record (queued hydrant layer0 ADD)
     = {| out := Ok false; world := queued hydrant layer0 ADD; effects := [] |}.
Proof.
  assert (H : valve_record ∉ pending (queued hydrant layer0 ADD)).
  { assert (Hp : pending (queued hydrant layer0 ADD) = [hydrant_record])
      by (vm_compute; reflexivity).
    rewrite Hp. apply not_elem_of_cons. split; [|apply not_elem_of_nil].
    apply String.eqb_neq. vm_compute. reflexivity. }
  split; [exact H|].
  exact (@removal_of_absent_entry accepting _ valve_record H).
Defined.




(** X23, witness: the call for the one queued edit fails. *)
Lemma failure_reaches_no_callback_witness :
  let w := world (_offlineMonitor true (queued hydrant layer0 ADD)) in
  requests w !! 0 = Some (call KAdd hydrant)
  /\ backend_fails 0 w
     = {| out := Ok tt; world := with_requests (delete 0 (requests w)) w;
          effects := [Uncaught ReferenceError] |}.
Proof.
  cbv zeta.
  assert (H : requests (world (_offlineMonitor true (queued hydrant layer0 ADD))) !! 0
              = Some (call KAdd hydrant)) by (vm_compute; reflexivity).
  split; [exact H|].
  exact (failure_reaches_no_callback _ 0 _ H).
Defined.

(** X24, witness: the second of three queued edits names layer 7. *)
Lemma unknown_layer_stops_replay_witness :
  let up := _reestablishedInternet detour in
  (Forall2 (@reads_back json_codec) [hydrant_edit] [decoded hydrant_edit]
   /\ @reads_back json_codec valve7_edit (decoded valve7_edit)
   /\ Forall2 (@reads_back json_codec) [meter_edit] [decoded meter_edit]
   /\ localStorage detour !! STORAGE_KEY
      = Some (blob (map (@record json_codec) ([hydrant_edit] ++ valve7_edit :: [meter_edit])))
   /\ Forall2 (submits detour (length (frames detour))) [decoded hydrant_edit]
              [call KAdd hydrant]
   /\ kind_of (dec_enumValue (decoded valve7_edit)) = Some KAdd
   /\ getGraphicsLayerById_from (Some (dec_layer (decoded valve7_edit))) (layers detour)
      = None)
  /\ (out up = Throw TypeError
      /\ effects up = map ApplyEdits [call KAdd hydrant]
      /\ requests (world up) = requests detour ++ [call KAdd hydrant]
      /\ localStorage (world up) = localStorage detour).
Proof.
  cbv zeta.
  assert (H1 : Forall2 (@reads_back json_codec) [hydrant_edit] [decoded hydrant_edit]).
  { repeat constructor.
    exists (Point (Some (JNum (-13046162))) (Some (JNum 4036345)) web_mercator), 0%Z.
    repeat split; vm_compute; reflexivity. }
  assert (H2 : @reads_back json_codec valve7_edit (decoded valve7_edit)).
  { exists (Point (Some (JNum (-13046170))) (Some (JNum 4036350)) web_mercator), 7%Z.
    repeat split; vm_compute; reflexivity. }
  assert (H3 : Forall2 (@reads_back json_codec) [meter_edit] [decoded meter_edit]).
  { repeat constructor.
    exists (Point (Some (JNum 5)) (Some (JNum 6)) web_mercator), 0%Z.
    repeat split; vm_compute; reflexivity. }
  assert (H4 : localStorage detour !! STORAGE_KEY
               = Some (blob (map (@record json_codec)
                               ([hydrant_edit] ++ valve7_edit :: [meter_edit]))))
    by (vm_compute; reflexivity).
  assert (H5 : Forall2 (submits detour (length (frames detour)))
                 [decoded hydrant_edit] [call KAdd hydrant]).
  { repeat constructor; vm_compute; reflexivity. }
  assert (H6 : kind_of (dec_enumValue (decoded valve7_edit)) = Some KAdd)
    by reflexivity.
  assert (H7 : getGraphicsLayerById_from (Some (dec_layer (decoded valve7_edit)))
                 (layers detour) = None) by (vm_compute; reflexivity).
  split; [tauto|].
  exact (@unknown_layer_stops_replay json_codec detour _ _ _ _ _ _ _ _
           H1 H2 H3 H4 H5 H6 H7).
Defined.

(** X26, witness: the layers of [town]. *)
Lemma parseFeatureLayers_prefix_witness :
  let r := _parseFeatureLayers town restart in
  (graphicsLayerIds town = ["hydrants"; "mains"] ++ ["sketch"; "roads"]
   /\ Forall (fun i => parse_layer (getLayer town i) <> Raise) ["hydrants"; "mains"]
   /\ parse_layer (getLayer town "sketch") = Raise)
  /\ (out r = Ok tt
      /\ effects r = []
      /\ layers (world r) = layers restart ++ omap (pushed town) ["hydrants"; "mains"]
      /\ localStorage (world r) = localStorage restart)
  /\ layers (world r) = [layer0].
Proof.
  cbv zeta.
  assert (H1 : graphicsLayerIds town = ["hydrants"; "mains"] ++ ["sketch"; "roads"])
    by reflexivity.
  assert (H2 : Forall (fun i => parse_layer (getLayer town i) <> Raise)
                 ["hydrants"; "mains"]).
  { repeat constructor; vm_compute; discriminate. }
  assert (H3 : parse_layer (getLayer town "sketch") = Raise) by reflexivity.
  split; [tauto|]. split.
  - exact (parseFeatureLayers_prefix town ["hydrants"; "mains"] ["sketch"; "roads"]
             restart H1 H2 H3).
  - reflexivity.
Defined.

(** X27, witness: a new session starts online over two queued edits. *)
Lemma init_resumes_queue_witness :
  let es := [hydrant_edit; valve_edit] in
  let ds := [decoded hydrant_edit; decoded valve_edit] in
  let rqs := [call KAdd hydrant; call KAdd valve] in
  let ls := _parseFeatureLayers_from town (graphicsLayerIds town) (layers restart) in
  let r := _init town restart in
  (Forall2 (@reads_back json_codec) es ds
   /\ Forall2 (submits (with_layers ls restart) (length (frames restart))) ds rqs
   /\ localStorage restart !! STORAGE_KEY = Some (blob (map (@record json_codec) es)))
  /\ (out r = Ok tt
      /\ layers (world r) = ls
      /\ pending (world r) = map (@record json_codec) es
      /\ (if online restart
          then effects r = map ApplyEdits rqs
               /\ requests (world r) = requests restart ++ rqs
          else effects r = []
               /\ requests (world r) = requests restart
               /\ _reestablishedInternetListener (world r) = true)).
Proof.
  cbv zeta.
  assert (H1 : Forall2 (@reads_back json_codec) [hydrant_edit; valve_edit]
                 [decoded hydrant_edit; decoded valve_edit]).
  { repeat constructor.
    - exists (Point (Some (JNum (-13046162))) (Some (JNum 4036345)) web_mercator), 0%Z.
      repeat split; vm_compute; reflexivity.
    - exists (Point (Some (JNum (-13046170))) (Some (JNum 4036350)) web_mercator), 0%Z.
      repeat split; vm_compute; reflexivity. }
  assert (H2 : Forall2 (submits (with_layers
                                   (_parseFeatureLayers_from town (graphicsLayerIds town)
                                      (layers restart)) restart)
                                (length (frames restart)))
                 [decoded hydrant_edit; decoded valve_edit]
                 [call KAdd hydrant; call KAdd valve]).
  { repeat constructor; vm_compute; reflexivity. }
  assert (H3 : localStorage restart !! STORAGE_KEY
               = Some (blob (map (@record json_codec) [hydrant_edit; valve_edit])))
    by (vm_compute; reflexivity).
  split; [tauto|].
  exact (@init_resumes_queue json_codec town restart _ _ _ H1 H2 H3).
Defined.

(** X28, witness: the substrate refuses every write. *)
Lemma refused_index_write_witness :
  (forall v, @accepts refusing (localStorage fresh) INDEX_KEY v = false)
  /\ exists v,
       @_setItemLocalStoreIndexObject refusing (outcome 101 true) fresh
       = {| out := Ok false; world := fresh; effects := [SetItem INDEX_KEY v false] |}.
Proof.
  assert (H : forall v, @accepts refusing (localStorage fresh) INDEX_KEY v = false)
    by (intros v; reflexivity).
  split; [exact H|].
  exact (@refused_index_write refusing fresh (outcome 101 true) H).
Defined.

(** X29, witness: the addition of [hydrant] completes after the replay
    of a queue that ends with the deletion of [parcel]; the outcome
    recorded is that of a deleted polygon. *)
Lemma outcome_describes_last_edit_witness :
  let up := _reestablishedInternet mixed in
  let done := @backend_completes accepting 0 (added 101 true) none none noon (world up) in
  let o := {| io_id := JNum 101; io_layerId := JNum 0; io_type := Some (JStr DELETE);
              io_success := true; io_geometryType := "polygon"; io_date := noon |} in
  let m := stringify (_indexObject_json o) in
  (Forall (fun r => clean r = true) [hydrant_record]
   /\ @reads_back json_codec parcel_removal (decoded parcel_removal)
   /\ localStorage mixed !! STORAGE_KEY
      = Some (blob ([hydrant_record] ++ [@record json_codec parcel_removal]))
   /\ out up = Ok tt
   /\ requests (world up) !! 0 = Some (call KAdd hydrant)
   /\ index_holds mixed []
   /\ occurs TOKEN (Js.join "," ([] ++ [m])) = false
   /\ @accepts accepting (localStorage mixed) INDEX_KEY
        (Js.join "," ([] ++ [m]) +:+ TOKEN) = true)
  /\ (index_holds (world done) ([] ++ [m])
      /\ pending (world done) = [hydrant_record] ++ [@record json_codec parcel_removal]
      /\ effects done
         = [SetItem INDEX_KEY (Js.join "," ([] ++ [m]) +:+ TOKEN) true;
            Dispatch INDEX_UPDATE_EVENT (MsgIndex o)]).
Proof.
  cbv zeta.
  set (g := Polygon [JArr [JArr [JNum 0; JNum 0]; JArr [JNum 10; JNum 0];
                           JArr [JNum 10; JNum 10]; JArr [JNum 0; JNum 0]]]
                    web_mercator).
  assert (H1 : Forall (fun r => clean r = true) [hydrant_record]).
  { repeat constructor; vm_compute; reflexivity. }
  assert (H2 : @reads_back json_codec parcel_removal (decoded parcel_removal)).
  { exists g, 0%Z. repeat split; vm_compute; reflexivity. }
  assert (H3 : geometry (dec_graphic (decoded parcel_removal)) = Some g)
    by reflexivity.
  assert (H4 : localStorage mixed !! STORAGE_KEY
               = Some (blob ([hydrant_record] ++ [@record json_codec parcel_removal])))
    by (vm_compute; reflexivity).
  assert (H5 : out (_reestablishedInternet mixed) = Ok tt)
    by (vm_compute; reflexivity).
  assert (H6 : requests (world (_reestablishedInternet mixed)) !! 0
               = Some (call KAdd hydrant)) by (vm_compute; reflexivity).
  assert (H7 : rq_callback (call KAdd hydrant) = CbReplay (length (frames mixed)))
    by reflexivity.
  assert (H8 : rq_kind (call KAdd hydrant) = KAdd) by reflexivity.
  assert (H9 : index_holds mixed []) by (vm_compute; reflexivity).
  pose proof (@outcome_describes_last_edit accepting json_codec mixed [hydrant_record]
                [] parcel_removal (decoded parcel_removal) g 0 (call KAdd hydrant)
                {| er_success := true; er_objectId := JNum 101 |} [] none none noon
                H1 H2 H3 H4 H5 H6 H7 H8 H9) as H.
  cbv zeta in H.
  assert (H10 : occurs TOKEN
                  (Js.join ","
                     ([] ++ [stringify (_indexObject_json
                        {| io_id := JNum 101; io_layerId := JNum 0;
                           io_type := Some (JStr DELETE); io_success := true;
                           io_geometryType := "polygon"; io_date := noon |})]))
                = false) by (vm_compute; reflexivity).
  assert (H11 : @accepts accepting (localStorage mixed) INDEX_KEY
                  (Js.join ","
                     ([] ++ [stringify (_indexObject_json
                        {| io_id := JNum 101; io_layerId := JNum 0;
                           io_type := Some (JStr DELETE); io_success := true;
                           io_geometryType := "polygon"; io_date := noon |})])
                   +:+ TOKEN) = true) by reflexivity.
  split; [tauto|].
  exact (H H10 H11).
Defined.

(** X30, witness: [tagged] is edited a second time. *)
Lemma token_defeats_duplicate_check_witness :
  let e := {| ed_graphic := tagged; ed_layer := layer0; ed_enumValue := ADD |} in
  let localStore := @record json_codec e +:+ TOKEN in
  let v := localStore +:+ @record json_codec e +:+ TOKEN in
  let w := queued tagged layer0 ADD in
  let ins := @_addToLocalStore accepting json_codec tagged layer0 ADD Given w in
  (occurs TOKEN (@record json_codec e) = true
   /\ localStorage w !! STORAGE_KEY = Some localStore
   /\ @accepts accepting (localStorage w) STORAGE_KEY v = true)
  /\ (effects ins
      = [SetItem STORAGE_KEY v true;
         CallerCallback 0
           (ArgStored {| success := Some true; duplicate := Some false |}) 0;
         LayerAdd layer0 tagged]
      /\ localStorage (world ins) !! STORAGE_KEY = Some v).
Proof.
  cbv zeta.
  set (e := {| ed_graphic := tagged; ed_layer := layer0; ed_enumValue := ADD |}).
  assert (H1 : occurs TOKEN (@record json_codec e) = true) by (vm_compute; reflexivity).
  assert (H2 : localStorage (queued tagged layer0 ADD) !! STORAGE_KEY
               = Some (@record json_codec e +:+ TOKEN)) by (vm_compute; reflexivity).
  assert (H3 : @accepts accepting (localStorage (queued tagged layer0 ADD)) STORAGE_KEY
                 ((@record json_codec e +:+ TOKEN) +:+ @record json_codec e +:+ TOKEN)
               = true) by reflexivity.
  split; [tauto|].
  exact (@token_defeats_duplicate_check accepting json_codec
           (queued tagged layer0 ADD) e _ Given H1 H2 H3).
Defined.
